(** * The tabular data pipeline of the AutoML wizard (utils/dataUtils.ts)

    A shallow embedding of [parseCSV], [analyzeColumns], [cleanData] and
    [trainModel], and the properties of the specification checked against it.

    Modelling conventions.
    - A JavaScript number is an IEEE 754 binary64 value, modelled by
      [spec_float] at precision 53 and maximal exponent 1024; all arithmetic
      is the correctly rounded arithmetic of [SpecFloat].
    - A JavaScript string is a [string]; one [ascii] is one code unit, so the
      model covers the strings whose code units are below 256.
    - A [DataRow] is an ordinary object: the ordered list of its own
      properties, and a flag telling whether its prototype has been set to
      [null] (writing [null] under the name [__proto__] does that).  Reading
      a name the row does not own goes to [Object.prototype]: the names
      [constructor], [toString], [__proto__] and the like read as the
      members of the prototype, [VMember], and every other name, or any
      name once the prototype is [null], reads as [undefined].
    - The text of a built-in function is left to the implementation by
      ECMAScript up to its layout; the layout of V8 is taken.  [JSON.stringify]
      is modelled for rows that hold no function under the name [toJSON]
      (a fill copies a member of the prototype only under its own name).
    - [Math.pow] is implementation-approximated in ECMAScript and is a
      parameter of the trainer. *)

From Stdlib Require Import ZArith List Bool String Ascii Lia Arith Permutation.
From Stdlib Require Import Sorted.
From Stdlib Require Import Floats.SpecFloat.
From Stdlib Require Import DecimalString.
Import ListNotations.

Local Open Scope list_scope.

(* ================================================================== *)
(** ** JavaScript numbers *)

Module JSNumber.

Local Open Scope string_scope.

Definition prec : Z := 53.
Definition emax : Z := 1024.

Definition number := spec_float.

Definition NaN : number := S754_nan.
Definition zero : number := S754_zero false.
Definition Infinity (neg : bool) : number := S754_infinity neg.

Definition add : number -> number -> number := SFadd prec emax.
Definition sub : number -> number -> number := SFsub prec emax.
Definition mul : number -> number -> number := SFmul prec emax.
Definition div : number -> number -> number := SFdiv prec emax.
Definition sqrt : number -> number := SFsqrt prec emax.
Definition abs : number -> number := SFabs.

(** [x < y], [x > y] and [x === y] on numbers: false when either is NaN. *)
Definition ltb (x y : number) : bool := SFltb x y.
Definition gtb (x y : number) : bool := SFltb y x.
Definition eqb (x y : number) : bool := SFeqb x y.

Definition isNaN (x : number) : bool :=
  match x with S754_nan => true | _ => false end.

Definition is_finite (x : number) : bool :=
  match x with S754_nan | S754_infinity _ => false | _ => true end.

(** ToBoolean on a number: [0], [-0] and [NaN] are falsy. *)
Definition truthy (x : number) : bool :=
  match x with S754_nan | S754_zero _ => false | _ => true end.

(** The number of an integer (exact below 2^53, rounded above). *)
Definition of_Z (z : Z) : number := binary_normalize prec emax z 0 false.
Definition of_nat (n : nat) : number := of_Z (Z.of_nat n).

(** The number nearest to [m * 10^e10], ties to even.  For a negative
    exponent the quotient is computed with at least 56 bits and a sticky
    bit, so that the final rounding to 53 bits (or fewer) is correct. *)
Definition of_decimal (neg : bool) (m : positive) (e10 : Z) : number :=
  match e10 with
  | Zneg p =>
      let d := Z.pow 10 (Zpos p) in
      let s := Z.max 0 (Z.log2 d - Z.log2 (Zpos m) + 56) in
      let (q, r) := Z.div_eucl (Z.shiftl (Zpos m) s) d in
      match (2 * q + (if Z.eqb r 0 then 0 else 1))%Z with
      | Zpos m' => binary_round prec emax neg m' (- s - 1)
      | _ => S754_zero neg
      end
  | _ =>
      match (Zpos m * Z.pow 10 e10)%Z with
      | Zpos m' => binary_round prec emax neg m' 0
      | _ => S754_zero neg
      end
  end.

Definition of_decimal_Z (neg : bool) (m : Z) (e10 : Z) : number :=
  match m with
  | Zpos p => of_decimal neg p e10
  | _ => S754_zero neg
  end.

(** Structural equality of two canonical numbers. *)
Definition same (x y : number) : bool :=
  match x, y with
  | S754_zero a, S754_zero b => Bool.eqb a b
  | S754_infinity a, S754_infinity b => Bool.eqb a b
  | S754_nan, S754_nan => true
  | S754_finite a m e, S754_finite b m' e' =>
      Bool.eqb a b && Pos.eqb m m' && Z.eqb e e'
  | _, _ => false
  end.

(** SameValueZero, the equality of [Set]: NaN equals NaN, +0 equals -0. *)
Definition same_value_zero (x y : number) : bool :=
  match x, y with
  | S754_nan, S754_nan => true
  | _, _ => SFeqb x y
  end.

(** [Math.floor]: the largest integral number not above [x]. *)
Definition floor (x : number) : number :=
  match x with
  | S754_finite s m e =>
      match e with
      | Zneg p =>
          let q := Z.shiftr (Zpos m) (Zpos p) in
          let exact := Z.eqb (Z.shiftl q (Zpos p)) (Zpos m) in
          if s then binary_normalize prec emax (- (if exact then q else q + 1)) 0 true
          else binary_normalize prec emax q 0 false
      | _ => x
      end
  | _ => x
  end.

(** ToIntegerOrInfinity, as [Array.prototype.slice] applies it to an
    index argument. *)
Inductive ext_int := Int (z : Z) | PosInf | NegInf.

Definition to_integer_or_infinity (x : number) : ext_int :=
  match x with
  | S754_nan | S754_zero _ => Int 0
  | S754_infinity s => if s then NegInf else PosInf
  | S754_finite s m e =>
      let a := match e with
               | Zneg p => Z.shiftr (Zpos m) (Zpos p)
               | _ => Z.shiftl (Zpos m) e
               end in
      Int (if s then - a else a)
  end.

(** *** Number::toString (radix 10) *)

Fixpoint ndigits10 (fuel : nat) (z : Z) : Z :=
  match fuel with
  | O => 1
  | S f => if (z <? 10)%Z then 1%Z else (1 + ndigits10 f (z / 10))%Z
  end.

(** Least [j >= 1] with [num * 10^j >= den], for [0 < num < den]. *)
Fixpoint lead_zeros (fuel : nat) (num den : Z) : Z :=
  match fuel with
  | O => 1
  | S f => if (den <=? num * 10)%Z then 1%Z
           else (1 + lead_zeros f (num * 10) den)%Z
  end.

(** The integer [n] with [10^(n-1) <= num/den < 10^n]. *)
Definition decimal_exponent (num den : Z) : Z :=
  if (den <=? num)%Z
  then ndigits10 (S (Z.to_nat (Z.log2 num))) (num / den)
  else (1 - lead_zeros (S (Z.to_nat (Z.log2 den))) num den)%Z.

Definition string_of_Z (z : Z) : string :=
  NilZero.string_of_uint (N.to_uint (Z.to_N z)).

Fixpoint zeros (n : nat) : string :=
  match n with O => "" | S k => String "0" (zeros k) end.

(** The digits [s] (a [k]-digit integer) and exponent [n] of the shortest
    decimal that reads back as [x = num/den]; [k] runs upward from [k]. *)
Fixpoint shortest (fuel : nat) (x : number) (num den n k : Z) : Z * Z * Z :=
  let scale := (k - n)%Z in
  let snum := (if 0 <=? scale then num * 10 ^ scale else num)%Z in
  let sden := (if 0 <=? scale then den else den * 10 ^ (- scale))%Z in
  let lo := (snum / sden)%Z in
  let hi := (lo + 1)%Z in
  let ok_lo := same (of_decimal_Z false lo (n - k)) x in
  let ok_hi := same (of_decimal_Z false hi (n - k)) x in
  let twice := (2 * (snum - lo * sden))%Z in
  let pick_lo :=
    ok_lo && (negb ok_hi || (twice <? sden)%Z
              || ((twice =? sden)%Z && Z.even lo)) in
  let result s :=
    if (s =? 10 ^ k)%Z then (10 ^ (k - 1), n + 1, k)%Z else (s, n, k) in
  if pick_lo then result lo
  else if ok_hi then result hi
  else match fuel with
       | O => result lo
       | S f => shortest f x num den n (k + 1)
       end.

Definition format_decimal (s n k : Z) : string :=
  let ds := string_of_Z s in
  if ((k <=? n) && (n <=? 21))%Z then
    ds ++ zeros (Z.to_nat (n - k))
  else if ((0 <? n) && (n <=? 21))%Z then
    substring 0 (Z.to_nat n) ds ++ "." ++
    substring (Z.to_nat n) (Z.to_nat (k - n)) ds
  else if ((-6 <? n) && (n <=? 0))%Z then
    "0." ++ zeros (Z.to_nat (- n)) ++ ds
  else
    let e := (n - 1)%Z in
    let es := (if (e <? 0)%Z then "-" else "+") ++ string_of_Z (Z.abs e) in
    if (k =? 1)%Z then ds ++ "e" ++ es
    else substring 0 1 ds ++ "." ++
         substring 1 (Z.to_nat (k - 1)) ds ++ "e" ++ es.

Definition to_string (x : number) : string :=
  match x with
  | S754_nan => "NaN"
  | S754_zero _ => "0"
  | S754_infinity s => if s then "-Infinity" else "Infinity"
  | S754_finite sg m e =>
      let num := match e with Zneg _ => Zpos m | _ => Z.shiftl (Zpos m) e end in
      let den := match e with Zneg p => Z.pow 2 (Zpos p) | _ => 1%Z end in
      let n := decimal_exponent num den in
      let '(s, n', k) := shortest 16 (S754_finite false m e) num den n 1 in
      (if sg then "-" else "") ++ format_decimal s n' k
  end.

End JSNumber.

(* ================================================================== *)
(** ** JavaScript strings *)

Module JSString.

Import JSNumber.
Local Open Scope string_scope.

Definition code (c : ascii) : N := N_of_ascii c.

(** WhiteSpace and LineTerminator code units (below 256): TAB, LF, VT, FF,
    CR, SP and NBSP. *)
Definition is_ws (c : ascii) : bool :=
  let n := code c in
  (N.leb 9 n && N.leb n 13) || N.eqb n 32 || N.eqb n 160.

Definition is_digit (c : ascii) : bool :=
  let n := code c in N.leb 48 n && N.leb n 57.

Definition digit_val (c : ascii) : Z := Z.of_N (code c) - 48.

Definition is_empty (s : string) : bool :=
  match s with EmptyString => true | _ => false end.

Fixpoint trim_start (s : string) : string :=
  match s with
  | String c r => if is_ws c then trim_start r else s
  | EmptyString => EmptyString
  end.

Fixpoint trim_end (s : string) : string :=
  match s with
  | String c r =>
      let r' := trim_end r in
      if is_ws c && is_empty r' then EmptyString else String c r'
  | EmptyString => EmptyString
  end.

(** [String.prototype.trim] *)
Definition trim (s : string) : string := trim_end (trim_start s).

(** [s.split(sep)] for a one-character separator: never empty. *)
Fixpoint split (sep : ascii) (s : string) : list string :=
  match s with
  | EmptyString => [EmptyString]
  | String c r =>
      if Ascii.eqb c sep then EmptyString :: split sep r
      else match split sep r with
           | h :: t => String c h :: t
           | [] => [String c EmptyString]
           end
  end.

Definition dquote : ascii := ascii_of_N 34.

Fixpoint drop_last_quote (s : string) : string :=
  match s with
  | EmptyString => EmptyString
  | String c EmptyString => if Ascii.eqb c dquote then EmptyString else s
  | String c r => String c (drop_last_quote r)
  end.

(** [s.replace(/^"|"$/g, '')]: one leading double quote is removed, then
    one trailing double quote of what is left. *)
Definition strip_quotes (s : string) : string :=
  drop_last_quote
    (match s with
     | String c r => if Ascii.eqb c dquote then r else s
     | EmptyString => EmptyString
     end).

(** *** StrDecimalLiteral *)

Fixpoint take_digits (s : string) : list Z * string :=
  match s with
  | String c r =>
      if is_digit c
      then let (ds, rest) := take_digits r in (digit_val c :: ds, rest)
      else ([], s)
  | EmptyString => ([], EmptyString)
  end.

Definition digits_value (ds : list Z) : Z :=
  fold_left (fun acc d => (acc * 10 + d)%Z) ds 0%Z.

Definition take_sign (s : string) : bool * string :=
  match s with
  | String "-" r => (true, r)
  | String "+" r => (false, r)
  | _ => (false, s)
  end.

(** The exponent part [e|E [+|-] digits] at the head of [s], when there is
    one: its value and what follows it. *)
Definition take_exponent (s : string) : Z * string :=
  match s with
  | String c r =>
      if Ascii.eqb c "e" || Ascii.eqb c "E" then
        let (neg, r1) := take_sign r in
        let (ds, r2) := take_digits r1 in
        match ds with
        | [] => (0%Z, s)
        | _ => ((if neg then - digits_value ds else digits_value ds)%Z, r2)
        end
      else (0%Z, s)
  | EmptyString => (0%Z, s)
  end.

(** The longest prefix of [s] that is a StrDecimalLiteral: its value and
    the rest of [s]; [None] when no prefix is one. *)
Definition scan_decimal (s : string) : option (number * string) :=
  let (neg, s1) := take_sign s in
  if prefix "Infinity" s1 then
    Some (Infinity neg, substring 8 (length s1 - 8) s1)
  else
    let (d1, s2) := take_digits s1 in
    let '(d2, s3) :=
      match s2 with
      | String "." r =>
          let (d2, s3) := take_digits r in
          match d1, d2 with
          | [], [] => ([], s2)
          | _, _ => (d2, s3)
          end
      | _ => ([], s2)
      end in
    match d1, d2 with
    | [], [] => None
    | _, _ =>
        let (ex, s4) := take_exponent s3 in
        Some (of_decimal_Z neg (digits_value (d1 ++ d2)%list)
                (ex - Z.of_nat (List.length d2)), s4)
    end.

(** The global [parseFloat] *)
Definition parseFloat (s : string) : number :=
  match scan_decimal (trim_start s) with
  | Some (x, _) => x
  | None => NaN
  end.

(** *** StringToNumber, the ToNumber conversion of a string *)

Definition radix_digit (radix : Z) (c : ascii) : option Z :=
  let n := Z.of_N (code c) in
  let v := if (48 <=? n)%Z && (n <=? 57)%Z then (n - 48)%Z
           else if (97 <=? n)%Z && (n <=? 102)%Z then (n - 87)%Z
           else if (65 <=? n)%Z && (n <=? 70)%Z then (n - 55)%Z
           else 99%Z in
  if (v <? radix)%Z then Some v else None.

Fixpoint radix_value (radix : Z) (acc : Z) (s : string) : option Z :=
  match s with
  | EmptyString => Some acc
  | String c r =>
      match radix_digit radix c with
      | Some v => radix_value radix (acc * radix + v)%Z r
      | None => None
      end
  end.

(** NonDecimalIntegerLiteral: [0x], [0o] or [0b] and at least one digit. *)
Definition non_decimal (s : string) : option (option number) :=
  match s with
  | String "0" (String c r) =>
      let radix :=
        if Ascii.eqb c "x" || Ascii.eqb c "X" then 16%Z
        else if Ascii.eqb c "o" || Ascii.eqb c "O" then 8%Z
        else if Ascii.eqb c "b" || Ascii.eqb c "B" then 2%Z
        else 0%Z in
      if (radix =? 0)%Z then None
      else match r with
           | EmptyString => Some None
           | _ => Some (option_map of_Z (radix_value radix 0 r))
           end
  | _ => None
  end.

Definition to_number (s : string) : number :=
  let t := trim s in
  if is_empty t then zero
  else match non_decimal t with
       | Some (Some x) => x
       | Some None => NaN
       | None =>
           match scan_decimal t with
           | Some (x, EmptyString) => x
           | _ => NaN
           end
       end.

(** *** QuoteJSONString *)

Definition hex_digit (n : N) : ascii :=
  ascii_of_N (if N.ltb n 10 then 48 + n else 87 + n).

Definition quote_char (c : ascii) : string :=
  let n := code c in
  if N.eqb n 8 then "\b"
  else if N.eqb n 9 then "\t"
  else if N.eqb n 10 then "\n"
  else if N.eqb n 12 then "\f"
  else if N.eqb n 13 then "\r"
  else if N.eqb n 34 then String "\" (String dquote "")
  else if N.eqb n 92 then "\\"
  else if N.ltb n 32 then
    "\u00" ++ String (hex_digit (N.div n 16)) (String (hex_digit (N.modulo n 16)) "")
  else String c "".

Fixpoint quote_body (s : string) : string :=
  match s with
  | EmptyString => EmptyString
  | String c r => quote_char c ++ quote_body r
  end.

Definition quote (s : string) : string :=
  String dquote (quote_body s ++ String dquote "").

End JSString.

(* ================================================================== *)
(** ** JavaScript values and objects *)

Module JSValue.

Import JSNumber.

(** The values a cell can hold: the declared [string | number | null] of
    [DataRow], [undefined] (a missing key, or the mode of no values), and
    the member of [Object.prototype] read under an inherited name [k]: a
    built-in function, or for [__proto__] the prototype object itself.
    Two such members are the same object exactly when their names are. *)
Inductive value :=
| VNum (x : number)
| VStr (s : string)
| VNull
| VUndef
| VMember (k : string).

Definition proto_key : string := "__proto__".

(** [typeof v === 'number'] *)
Definition is_number (v : value) : bool :=
  match v with VNum _ => true | _ => false end.

(** [v === null] *)
Definition is_null (v : value) : bool :=
  match v with VNull => true | _ => false end.

(** [v === undefined] *)
Definition is_undefined (v : value) : bool :=
  match v with VUndef => true | _ => false end.

(** [v === ''] *)
Definition is_empty_string (v : value) : bool :=
  match v with VStr s => JSString.is_empty s | _ => false end.

(** ToNumber.  An object converts through its string form, which for the
    members of [Object.prototype] is no numeric literal. *)
Definition to_number (v : value) : number :=
  match v with
  | VNum x => x
  | VStr s => JSString.to_number s
  | VNull => zero
  | VUndef => NaN
  | VMember _ => NaN
  end.

(** The name of the built-in function held under [k]: the function under
    [constructor] is [Object]. *)
Definition function_name (k : string) : string :=
  if String.eqb k "constructor" then "Object" else k.

(** ToString, that is [String(v)] *)
Definition to_string (v : value) : string :=
  match v with
  | VNum x => JSNumber.to_string x
  | VStr s => s
  | VNull => "null"
  | VUndef => "undefined"
  | VMember k =>
      if String.eqb k proto_key then "[object Object]"
      else ("function " ++ function_name k ++ "() { [native code] }")%string
  end.

(** [a + b]: concatenation as soon as one operand is a string or an
    object, whose primitive form is a string. *)
Definition js_add (a b : value) : value :=
  match a, b with
  | VStr _, _ | _, VStr _ | VMember _, _ | _, VMember _ =>
      VStr (to_string a ++ to_string b)
  | _, _ => VNum (add (to_number a) (to_number b))
  end.

(** [a - b] and [a / b] convert both operands to numbers. *)
Definition js_sub (a b : value) : number := sub (to_number a) (to_number b).
Definition js_div (a b : value) : number := div (to_number a) (to_number b).

(** SameValueZero, the equality of the elements of a [Set]. *)
Definition same_value_zero (a b : value) : bool :=
  match a, b with
  | VNum x, VNum y => JSNumber.same_value_zero x y
  | VStr s, VStr t => String.eqb s t
  | VNull, VNull => true
  | VUndef, VUndef => true
  | VMember k, VMember k' => String.eqb k k'
  | _, _ => false
  end.

End JSValue.

Module JSObject.

Import JSNumber JSValue.

(** The own enumerable string-keyed properties of an ordinary object, in
    property order: array-index names first, ascending, then the other
    names in order of creation. *)
Definition object (A : Type) := list (string * A).

Fixpoint lookup {A} (o : object A) (k : string) : option A :=
  match o with
  | [] => None
  | (k', v) :: r => if String.eqb k' k then Some v else lookup r k
  end.

Definition has_own {A} (o : object A) (k : string) : bool :=
  match lookup o k with Some _ => true | None => false end.

(** [Object.keys(o)] *)
Definition keys {A} (o : object A) : list string := map fst o.

Fixpoint all_digits (s : string) : bool :=
  match s with
  | EmptyString => true
  | String c r => JSString.is_digit c && all_digits r
  end.

(** The array index a property name denotes, when it is the canonical
    decimal form of an integer below 2^32 - 1. *)
Definition array_index (k : string) : option Z :=
  match k with
  | EmptyString => None
  | String c r =>
      if all_digits k && (negb (Ascii.eqb c "0") || JSString.is_empty r) then
        let i := JSString.digits_value (fst (JSString.take_digits k)) in
        if (i <? 4294967295)%Z then Some i else None
      else None
  end.

Fixpoint update {A} (o : object A) (k : string) (v : A) : object A :=
  match o with
  | [] => []
  | (k', v') :: r =>
      if String.eqb k' k then (k', v) :: r else (k', v') :: update r k v
  end.

Fixpoint insert_index {A} (i : Z) (k : string) (v : A) (o : object A)
  : object A :=
  match o with
  | [] => [(k, v)]
  | (k', v') :: r =>
      match array_index k' with
      | Some j => if (i <? j)%Z then (k, v) :: o
                  else (k', v') :: insert_index i k v r
      | None => (k, v) :: o
      end
  end.

(** CreateDataProperty: an own property is overwritten in place, a new one
    takes its position in property order. *)
Definition define {A} (o : object A) (k : string) (v : A) : object A :=
  if has_own o k then update o k v
  else match array_index k with
       | Some i => insert_index i k v o
       | None => o ++ [(k, v)]
       end.

(** The property names an object made by [{}] inherits from
    [Object.prototype]. *)
Definition prototype_names : list string :=
  ["constructor"; "__defineGetter__"; "__defineSetter__"; "hasOwnProperty";
   "__lookupGetter__"; "__lookupSetter__"; "isPrototypeOf";
   "propertyIsEnumerable"; "toString"; "valueOf"; "__proto__";
   "toLocaleString"]%string.

Definition is_inherited (k : string) : bool :=
  existsb (String.eqb k) prototype_names.

(** An object made by [{}] or by an object literal: its own properties,
    and whether its prototype has been set to [null]; the prototype is
    [Object.prototype] otherwise. *)
Record plain := mkPlain {
  bare : bool;
  own : object value
}.

(** The object literal with the given properties. *)
Definition literal (o : object value) : plain := mkPlain false o.

(** [o[k]]: the own property, else the member of [Object.prototype] of
    that name when the object has its prototype, else [undefined]. *)
Definition get (o : plain) (k : string) : value :=
  match lookup (own o) k with
  | Some v => v
  | None => if negb (bare o) && is_inherited k then VMember k else VUndef
  end.

(** [o[k] = v], for the values a parsed field can be.  Writing the name
    [__proto__] reaches the accessor of [Object.prototype] unless the
    object owns the name or has lost its prototype: the accessor sets the
    prototype for [null] and ignores numbers and strings. *)
Definition assign (o : plain) (k : string) (v : value) : plain :=
  if String.eqb k proto_key && negb (bare o) && negb (has_own (own o) k)
  then mkPlain (is_null v) (own o)
  else mkPlain (bare o) (define (own o) k v).

(** [{ ...o, [k]: v }]: a new object literal with the own properties of
    [o] in their order, then [k] defined; its prototype is
    [Object.prototype] whatever that of [o]. *)
Definition spread_with (o : plain) (k : string) (v : value) : plain :=
  literal (define (own o) k v).

(** [o[k] = x] for a number [x], on an object made by [{}]. *)
Definition assign_num (o : object number) (k : string) (x : number)
  : object number :=
  if String.eqb k proto_key then o else define o k x.

(** [o[k]] where a number is expected: [undefined], and the prototype
    object read through [__proto__], convert to NaN. *)
Definition read_num (o : object number) (k : string) : number :=
  match lookup o k with Some x => x | None => NaN end.

(** [o[k]] as a value, on an object made by [{}] that holds numbers. *)
Definition read (o : object number) (k : string) : value :=
  match lookup o k with
  | Some x => VNum x
  | None => if is_inherited k then VMember k else VUndef
  end.

End JSObject.

(* ================================================================== *)
(** ** The data model (types.ts) *)

Import JSNumber JSValue JSObject.

(** [DataRow]: column name to cell. *)
Definition DataRow := plain.

(** [row[col]] *)
Definition cell (row : DataRow) (col : string) : value := get row col.

Inductive ColumnType := TNumber | TString.

Record ColumnStat := mkColumnStat {
  name : string;
  type : ColumnType;
  missingCount : nat;
  uniqueCount : nat;
  sample : list value
}.

Inductive CleaningMethod := drop_rows | fill_mean | fill_median | fill_mode.

Record CleaningOptions := mkCleaningOptions {
  method : CleaningMethod;
  targetColumns : list string
}.

(** [predicted] is the sum [(val * stds[col]) + means[col]], which is a
    string when [means[col]] is not a number. *)
Record Prediction := mkPrediction { actual : number; predicted : value }.

Record ModelMetrics := mkModelMetrics {
  mae : number;
  mse : number;
  r2 : number;
  predictions : list Prediction
}.

(* ================================================================== *)
(** ** Parsing *)

Definition comma : ascii := ",".
Definition newline : ascii := ascii_of_N 10.

(** The fields of a line: split on commas, each trimmed and unquoted. *)
Definition fields (line : string) : list string :=
  map (fun v => JSString.strip_quotes (JSString.trim v))
      (JSString.split comma line).

(** The cell of a field: its number when [parseFloat] finds one, else
    [null] for the empty text and the text itself otherwise. *)
Definition cast (val : string) : value :=
  let numVal := JSString.parseFloat val in
  if isNaN numVal
  then (if JSString.is_empty val then VNull else VStr val)
  else VNum numVal.

(** The body of [headers.forEach]: the row built from the values of a line. *)
Definition make_row (headers values : list string) : DataRow :=
  fold_left
    (fun row hv => assign row (fst hv) (cast (snd hv)))
    (combine headers values)
    (literal []).

(** One turn of the [for] loop over the data lines. *)
Definition parse_line (headers : list string) (data : list DataRow)
  (line : string) : list DataRow :=
  let rowStr := JSString.trim line in
  if JSString.is_empty rowStr then data
  else
    let values := fields rowStr in
    if Nat.eqb (List.length values) (List.length headers)
    then data ++ [make_row headers values]
    else data.

Definition parseCSV (csvText : string) : list DataRow :=
  let lines := JSString.split newline (JSString.trim csvText) in
  if Nat.ltb (List.length lines) 2 then []
  else
    let headers := fields (hd EmptyString lines) in
    fold_left (parse_line headers) (tl lines) [].

(* ================================================================== *)
(** ** Analysis *)

(** [v === null || v === undefined || v === ''] *)
Definition is_missing (v : value) : bool :=
  is_null v || is_undefined v || is_empty_string v.

(** The accumulators of [data.forEach] for one column. *)
Record ColumnScan := mkColumnScan {
  missing : nat;
  values : list value;
  numberCount : nat
}.

Definition scan_cell (key : string) (acc : ColumnScan) (row : DataRow)
  : ColumnScan :=
  let val := cell row key in
  if is_missing val
  then mkColumnScan (S (missing acc)) (values acc) (numberCount acc)
  else mkColumnScan (missing acc) (values acc ++ [val])
         (if is_number val then S (numberCount acc) else numberCount acc).

Definition scan_column (data : list DataRow) (key : string) : ColumnScan :=
  fold_left (scan_cell key) data (mkColumnScan 0 [] 0).

(** [new Set(values).size] *)
Fixpoint set_size (vs : list value) : nat :=
  match vs with
  | [] => 0
  | v :: r =>
      if existsb (same_value_zero v) r then set_size r else S (set_size r)
  end.

(** The literal [0.8] *)
Definition threshold : number := of_decimal false 8 (-1).

Definition infer_type (numberCount valueCount : nat) : ColumnType :=
  if gtb (div (of_nat numberCount) (of_nat valueCount)) threshold
  then TNumber else TString.

Definition analyzeColumn (data : list DataRow) (key : string) : ColumnStat :=
  let acc := scan_column data key in
  mkColumnStat key
    (infer_type (numberCount acc) (List.length (values acc)))
    (missing acc)
    (set_size (values acc))
    (firstn 5 (values acc)).

Definition analyzeColumns (data : list DataRow) : list ColumnStat :=
  match data with
  | [] => []
  | first :: _ => map (analyzeColumn data) (keys (own first))
  end.

(* ================================================================== *)
(** ** Cleaning *)

(** The comparator [(a, b) => a - b] says that [a] sorts after [b]. *)
Definition sorts_after (a b : value) : bool := gtb (js_sub a b) zero.

Fixpoint insert_sorted (x : value) (l : list value) : list value :=
  match l with
  | [] => [x]
  | y :: r => if sorts_after y x then x :: l else y :: insert_sorted x r
  end.

(** [[...values].sort((a, b) => a - b)]: a stable sort by the comparator,
    the [undefined] elements last.  (Where the comparator is inconsistent,
    on NaN differences, ECMAScript leaves the order to the implementation;
    the stable insertion order is taken here.) *)
Definition sort_values (vs : list value) : list value :=
  fold_left (fun acc x => insert_sorted x acc)
            (filter (fun v => negb (is_undefined v)) vs) []
  ++ filter is_undefined vs.

Definition calculateMedian (vs : list value) : value :=
  match vs with
  | [] => VNum zero
  | _ =>
      let sorted := sort_values vs in
      let mid := Nat.div (List.length sorted) 2 in
      if Nat.eqb (Nat.modulo (List.length sorted) 2) 0
      then VNum (js_div (js_add (nth (mid - 1) sorted VUndef)
                                (nth mid sorted VUndef))
                        (VNum (of_Z 2)))
      else nth mid sorted VUndef
  end.

(** The state of the loop of [calculateMode]. *)
Record ModeScan := mkModeScan {
  counts : object nat;
  maxCount : nat;
  mode : value
}.

(** One turn of the loop.  For a key that names a member of
    [Object.prototype], [counts[k] || 0] reads that member, the sum is a
    string, and a string never exceeds [maxCount]: such a value is not
    counted. *)
Definition mode_step (st : ModeScan) (v : value) : ModeScan :=
  let k := JSValue.to_string v in
  if is_inherited k then st
  else
    let c := S (match lookup (counts st) k with Some n => n | None => 0 end) in
    let counts' := define (counts st) k c in
    if Nat.ltb (maxCount st) c
    then mkModeScan counts' c v
    else mkModeScan counts' (maxCount st) (mode st).

Definition calculateMode (vs : list value) : value :=
  mode (fold_left mode_step vs (mkModeScan [] 0 (nth 0 vs VUndef))).

(** [row[col] === null || row[col] === ''] *)
Definition is_blank (v : value) : bool := is_null v || is_empty_string v.

(** [nums.reduce((a, b) => a + b, 0) / nums.length] *)
Definition mean_of (nums : list value) : value :=
  let sum := fold_left js_add nums (VNum zero) in
  VNum (js_div sum (VNum (of_nat (List.length nums)))).

Definition fill_value (m : CleaningMethod) (t : ColumnType)
  (validValues : list value) : value :=
  match t with
  | TNumber =>
      match m with
      | fill_mean => mean_of validValues
      | fill_median => calculateMedian validValues
      | _ => calculateMode validValues
      end
  | TString => calculateMode validValues
  end.

(** The non-blank cells of a column, in row order. *)
Definition valid_values (cleaned : list DataRow) (col : string) : list value :=
  filter (fun v => negb (is_null v) && negb (is_empty_string v))
         (map (fun r => cell r col) cleaned).

(** [{ ...row, [col]: fillValue }] for a blank cell, the row itself
    otherwise. *)
Definition fill_row (col : string) (fillValue : value) (row : DataRow)
  : DataRow :=
  if is_blank (cell row col) then spread_with row col fillValue else row.

(** The body of [options.targetColumns.forEach] of the fill methods. *)
Definition fill_column (stats : list ColumnStat) (m : CleaningMethod)
  (cleaned : list DataRow) (col : string) : list DataRow :=
  match find (fun s => String.eqb (name s) col) stats with
  | None => cleaned
  | Some stat =>
      let fillValue := fill_value m (type stat) (valid_values cleaned col) in
      map (fill_row col fillValue) cleaned
  end.

(** The filter of [drop_rows]: no target column of the row is blank. *)
Definition keep_row (targets : list string) (row : DataRow) : bool :=
  negb (existsb (fun col => is_blank (cell row col)) targets).

(** [JSON.stringify(row)]: properties holding [undefined] or a function
    are left out, numbers that are not finite are written [null], and
    [Object.prototype], which has no enumerable property, is written as
    the empty object. *)
Definition json_value (v : value) : option string :=
  match v with
  | VNum x => Some (if is_finite x then JSNumber.to_string x else "null"%string)
  | VStr s => Some (JSString.quote s)
  | VNull => Some "null"%string
  | VUndef => None
  | VMember k => if String.eqb k proto_key then Some "{}"%string else None
  end.

Fixpoint json_members (row : object value) : list string :=
  match row with
  | [] => []
  | (k, v) :: r =>
      match json_value v with
      | Some t => (JSString.quote k ++ ":" ++ t)%string :: json_members r
      | None => json_members r
      end
  end.

Definition JSON_stringify (row : DataRow) : string :=
  ("{" ++ String.concat "," (json_members (own row)) ++ "}")%string.

(** [uniqueSet.has(s)] *)
Definition set_has (uniqueSet : list string) (s : string) : bool :=
  existsb (String.eqb s) uniqueSet.

(** One turn of [cleaned.forEach] of the deduplication. *)
Definition dedup_step (st : list string * list DataRow) (row : DataRow)
  : list string * list DataRow :=
  let (uniqueSet, deduped) := st in
  let s := JSON_stringify row in
  if set_has uniqueSet s then st
  else (uniqueSet ++ [s], deduped ++ [row]).

Definition dedup (cleaned : list DataRow) : list DataRow :=
  snd (fold_left dedup_step cleaned ([], [])).

(** The rows before the final deduplication. *)
Definition clean_pass (data : list DataRow) (stats : list ColumnStat)
  (options : CleaningOptions) : list DataRow :=
  match method options with
  | drop_rows => filter (keep_row (targetColumns options)) data
  | m => fold_left (fill_column stats m) (targetColumns options) data
  end.

Definition cleanData (data : list DataRow) (stats : list ColumnStat)
  (options : CleaningOptions) : list DataRow :=
  dedup (clean_pass data stats options).

(* ================================================================== *)
(** ** Training *)

(** [l.slice(start, end)]; [end] is [None] when the argument is absent. *)
Definition relative_index (len : nat) (i : ext_int) : nat :=
  match i with
  | NegInf => 0
  | PosInf => len
  | Int z =>
      if (z <? 0)%Z then Z.to_nat (Z.max (Z.of_nat len + z) 0)
      else Nat.min (Z.to_nat z) len
  end.

Definition slice {A} (l : list A) (start : ext_int) (stop : option ext_int)
  : list A :=
  let len := List.length l in
  let k := relative_index len start in
  let final := match stop with
               | Some e => relative_index len e
               | None => len
               end in
  firstn (final - k) (skipn k l).

(** The filter of [validData]: target and features all hold numbers. *)
Definition valid_row (target : string) (features : list string)
  (row : DataRow) : bool :=
  is_number (cell row target)
  && forallb (fun f => is_number (cell row f)) features.

Definition validData (data : list DataRow) (target : string)
  (features : list string) : list DataRow :=
  filter (valid_row target features) data.

Definition splitIndex (valid : list DataRow) (splitRatio : number) : number :=
  floor (mul (of_nat (List.length valid)) splitRatio).

Definition trainData (data : list DataRow) (target : string)
  (features : list string) (splitRatio : number) : list DataRow :=
  let valid := validData data target features in
  slice valid (Int 0)
        (Some (to_integer_or_infinity (splitIndex valid splitRatio))).

Definition testData (data : list DataRow) (target : string)
  (features : list string) (splitRatio : number) : list DataRow :=
  let valid := validData data target features in
  slice valid (to_integer_or_infinity (splitIndex valid splitRatio)) None.

Definition learningRate : number := of_decimal false 1 (-4).
Definition epochs : nat := 500.
Definition one : number := of_Z 1.
Definition two : number := of_Z 2.

(** [row[col] as number] *)
Definition num_cell (row : DataRow) (col : string) : number :=
  JSValue.to_number (cell row col).

Section Trainer.

(** [Math.pow], implementation-approximated. *)
Variable Math_pow : number -> number -> number.

Record Scaling := mkScaling {
  means : object number;
  stds : object number
}.

(** The body of [[...features, target].forEach]. *)
Definition scale_column (train : list DataRow) (sc : Scaling)
  (col : string) : Scaling :=
  let vals := map (fun r => num_cell r col) train in
  let len := of_nat (List.length vals) in
  let mean := div (fold_left add vals zero) len in
  let variance :=
    div (fold_left (fun a b => add a (Math_pow (sub b mean) two)) vals zero)
        len in
  let sd := sqrt variance in
  mkScaling (assign_num (means sc) col mean)
            (assign_num (stds sc) col (if truthy sd then sd else one)).

Definition scaling (train : list DataRow) (target : string)
  (features : list string) : Scaling :=
  fold_left (scale_column train) (features ++ [target]) (mkScaling [] []).

Definition normalize (sc : Scaling) (val : number) (col : string) : number :=
  div (sub val (read_num (means sc) col)) (read_num (stds sc) col).

(** [(val * stds[col]) + means[col]]: the product is a number, and the
    sum concatenates when [means[col]] reads a member of the prototype. *)
Definition denormalize (sc : Scaling) (val : number) (col : string)
  : value :=
  js_add (VNum (mul val (read_num (stds sc) col))) (read (means sc) col).

Record Model := mkModel {
  weights : object number;
  bias : number
}.

Definition initial_model (features : list string) : Model :=
  mkModel (fold_left (fun w f => assign_num w f zero) features []) zero.

(** [bias + sum of weights[f] * normalize(row[f], f)] *)
Definition predict (sc : Scaling) (features : list string) (m : Model)
  (row : DataRow) : number :=
  fold_left
    (fun prediction f =>
       add prediction
           (mul (read_num (weights m) f) (normalize sc (num_cell row f) f)))
    features (bias m).

(** One example of the stochastic gradient descent. *)
Definition sgd_step (sc : Scaling) (target : string)
  (features : list string) (m : Model) (row : DataRow) : Model :=
  let prediction := predict sc features m row in
  let actual := normalize sc (num_cell row target) target in
  let error := sub prediction actual in
  mkModel
    (fold_left
       (fun w f =>
          assign_num w f
            (sub (read_num w f)
                 (mul (mul learningRate error)
                      (normalize sc (num_cell row f) f))))
       features (weights m))
    (sub (bias m) (mul learningRate error)).

Definition fit (sc : Scaling) (target : string) (features : list string)
  (train : list DataRow) : Model :=
  Nat.iter epochs
    (fun m => fold_left (sgd_step sc target features) train m)
    (initial_model features).

Record Evaluation := mkEvaluation {
  sumSquaredError : number;
  sumAbsError : number;
  evaluated : list Prediction
}.

(** The body of [testData.forEach]. *)
Definition evaluate_row (sc : Scaling) (target : string)
  (features : list string) (m : Model) (ev : Evaluation) (row : DataRow)
  : Evaluation :=
  let normalizedPred := predict sc features m row in
  let predicted := denormalize sc normalizedPred target in
  let actual := num_cell row target in
  mkEvaluation
    (add (sumSquaredError ev) (Math_pow (js_sub (VNum actual) predicted) two))
    (add (sumAbsError ev) (abs (js_sub (VNum actual) predicted)))
    (evaluated ev ++ [mkPrediction actual predicted]).

Definition trainModel (data : list DataRow) (target : string)
  (features : list string) (splitRatio : number) : ModelMetrics :=
  let train := trainData data target features splitRatio in
  let test := testData data target features splitRatio in
  let sc := scaling train target features in
  let m := fit sc target features train in
  let ev := fold_left (evaluate_row sc target features m) test
                      (mkEvaluation zero zero []) in
  let n := of_nat (List.length test) in
  let mse := div (sumSquaredError ev) n in
  let mae := div (sumAbsError ev) n in
  let targetMean :=
    div (fold_left (fun a r => add a (num_cell r target)) test zero) n in
  let totalVariance :=
    fold_left
      (fun a r => add a (Math_pow (sub (num_cell r target) targetMean) two))
      test zero in
  let r2 := sub one (div (sumSquaredError ev) totalVariance) in
  mkModelMetrics mae mse r2 (evaluated ev).

End Trainer.

(* ================================================================== *)
(** ** Notions used to state the properties *)

(** The lines of a text as [parseCSV] sees them, its header fields and its
    data lines. *)
Definition lines_of (csvText : string) : list string :=
  JSString.split newline (JSString.trim csvText).

Definition headers_of (csvText : string) : list string :=
  fields (hd EmptyString (lines_of csvText)).

Definition data_lines (csvText : string) : list string := tl (lines_of csvText).

(** A data line is good when it is not empty once trimmed and has as many
    fields as the header. *)
Definition good_line (headers : list string) (line : string) : bool :=
  negb (JSString.is_empty (JSString.trim line))
  && Nat.eqb (List.length (fields (JSString.trim line))) (List.length headers).

(** The rows a data line contributes: one for a good line, none otherwise. *)
Definition emitted_rows (headers : list string) (line : string)
  : list DataRow :=
  if good_line headers line
  then [make_row headers (fields (JSString.trim line))]
  else [].

(** The example of the specification: [x,y / foo,1 / bar,] with the line
    [1,2,3] injected. *)
Definition csv_injected : string :=
  ("x,y" ++ String newline "foo,1" ++ String newline "1,2,3"
   ++ String newline "bar,")%string.



(** A header repeated: [a,a / 1,2]. *)
Definition csv_repeated_header : string :=
  ("a,a" ++ String newline "1,2")%string.

(** One row whose only column, [a], is blank. *)
Definition blank_rows : list DataRow := [literal [("a"%string, VNull)]].

(** A column that is mostly numbers, with one text cell and one blank:
    [a,b / x,1 / 1,1 / 2,1 / 3,1 / 4,1 / 5,1 / ,1]. *)
Definition csv_mixed : string :=
  ("a,b" ++ String newline "x,1" ++ String newline "1,1"
   ++ String newline "2,1" ++ String newline "3,1" ++ String newline "4,1"
   ++ String newline "5,1" ++ String newline ",1")%string.

(** What filling with [fillValue] does to a cell. *)
Definition filled (fillValue : value) (v : value) : value :=
  if is_blank v then fillValue else v.

(** The deduplication as a recursion on the rows, given the serializations
    seen so far. *)
Fixpoint dedup_from (seen : list string) (rows : list DataRow)
  : list DataRow :=
  match rows with
  | [] => []
  | row :: rest =>
      if set_has seen (JSON_stringify row) then dedup_from seen rest
      else row :: dedup_from (seen ++ [JSON_stringify row]) rest
  end.

(** The cells of a column, the non-missing ones and the numeric ones, as
    counted by the profiler ([null], [undefined] and [''] are missing). *)
Definition column (data : list DataRow) (col : string) : list value :=
  map (fun row => cell row col) data.

Definition non_missing_count (data : list DataRow) (col : string) : nat :=
  List.length (filter (fun v => negb (is_missing v)) (column data col)).

Definition numeric_count (data : list DataRow) (col : string) : nat :=
  List.length (filter is_number (column data col)).

(** The arithmetic mean of a list of numbers, summed from the left. *)
Definition arithmetic_mean (xs : list number) : number :=
  div (fold_left add xs zero) (of_nat (List.length xs)).

(** The numbers among the cells of a column. *)
Definition numbers_of (vs : list value) : list number :=
  flat_map (fun v => match v with VNum x => [x] | _ => [] end) vs.

(** The number of rows a split index takes from the front of [len] rows. *)
Definition split_count (len : nat) (i : ext_int) : nat :=
  match i with
  | Int z => Z.to_nat z
  | PosInf => len
  | NegInf => 0
  end.

(** A number that is not below zero in sign: NaN, a zero, or positive. *)
Definition not_negative (x : number) : bool :=
  match x with
  | S754_finite true _ _ | S754_infinity true => false
  | _ => true
  end.

(** A number whose sign bit is clear, or NaN. *)
Definition sign_clear (x : number) : bool :=
  match x with
  | S754_zero true | S754_finite true _ _ | S754_infinity true => false
  | _ => true
  end.

(** A split index that does not count from the end. *)
Definition from_start (i : ext_int) : Prop :=
  match i with
  | Int z => (0 <= z)%Z
  | PosInf => True
  | NegInf => False
  end.

(** The table [a,b / 1,2 / 2,4 / 3,6 / 4,8 / 5,10] of the specification. *)
Definition csv_linear : string :=
  ("a,b" ++ String newline "1,2" ++ String newline "2,4"
   ++ String newline "3,6" ++ String newline "4,8"
   ++ String newline "5,10")%string.

(** The mantissa of the literal [0.8], whose exponent is -53. *)
Definition threshold_mantissa : Z := 7205759403792794.

(** ** Notions used by the further properties *)

(** The number of occurrences of a character in a string. *)
Fixpoint count_char (c : ascii) (s : string) : nat :=
  match s with
  | EmptyString => 0
  | String c' r =>
      if Ascii.eqb c' c then S (count_char c r) else count_char c r
  end.

(** What a cell of a parsed row can be: [null], a number that is not NaN,
    or a non-empty text in which [parseFloat] reads no number. *)
Definition parsed_cell (v : value) : Prop :=
  match v with
  | VNum x => isNaN x = false
  | VStr s => s <> EmptyString /\ isNaN (JSString.parseFloat s) = true
  | VNull => True
  | VUndef => False
  | VMember _ => False
  end.

(** The number of values of a list whose string form is [k], the key
    under which [calculateMode] counts them. *)
Definition count_key (k : string) (vs : list value) : nat :=
  List.length (filter (fun v => String.eqb (JSValue.to_string v) k) vs).

(** What the loop of [calculateMode] keeps true of the values [seen] it
    has gone through: [counts] holds their counts by key, [maxCount] is
    the largest count, and the mode is one of them with that count. *)
Definition mode_invariant (seen : list value) (st : ModeScan) : Prop :=
  (forall k,
      match lookup (counts st) k with Some n => n | None => 0 end
      = count_key k seen)
  /\ (forall k, count_key k seen <= maxCount st)
  /\ (seen = [] -> maxCount st = 0)
  /\ (seen <> [] ->
      In (mode st) seen
      /\ count_key (JSValue.to_string (mode st)) seen = maxCount st).

(** The column [c] of the rows has a value and no [undefined] cell. *)
Definition has_values (c : string) (rows : list DataRow) : Prop :=
  (forall v, In v (column rows c) -> is_undefined v = false)
  /\ (exists v, In v (column rows c) /\ is_missing v = false).

(** An ordinary number: a zero or a finite number in canonical form (not
    NaN, not an infinity). *)
Definition ordinary (x : number) : bool :=
  match x with
  | S754_zero _ => true
  | S754_finite _ m e => bounded prec emax m e
  | _ => false
  end.

(** The integer [x * 2^1074] of an ordinary number [x]. *)
Definition scaled (x : number) : Z :=
  match x with
  | S754_finite s m e => cond_Zopp s (Zpos m * 2 ^ (e + 1074))%Z
  | _ => 0%Z
  end.

Definition ordinary_number (v : value) : bool :=
  match v with VNum x => ordinary x | _ => false end.

(** [b < a] is false: [a] is at most [b], for numbers that are not NaN. *)
Definition value_le (a b : value) : Prop :=
  JSNumber.ltb (JSValue.to_number b) (JSValue.to_number a) = false.

Definition scaled_le (a b : value) : Prop :=
  (scaled (JSValue.to_number a) <= scaled (JSValue.to_number b))%Z.

(** [l1] is [l2] with some elements left out, the order kept. *)
Inductive subseq {A : Type} : list A -> list A -> Prop :=
| subseq_nil : subseq [] []
| subseq_skip : forall x l1 l2, subseq l1 l2 -> subseq l1 (x :: l2)
| subseq_keep : forall x l1 l2, subseq l1 l2 -> subseq (x :: l1) (x :: l2).

(** A cleaned row against the row it comes from: the same keys in the same
    order; the prototype still there when it was (a row that had lost it
    gets it back when a fill rebuilds the row); and the same own property
    wherever the cell was not blank or the column was not targeted. *)
Definition cleaned_from (targets : list string) (row row' : DataRow) : Prop :=
  keys (own row') = keys (own row)
  /\ (bare row = false -> bare row' = false)
  /\ forall c,
       is_blank (cell row c) = false \/ ~ In c targets ->
       lookup (own row') c = lookup (own row) c.

(** A table with blanks in both columns: [c,d / 1, / 2,1 / ,3 / 3,]. *)
Definition csv_gaps : string :=
  ("c,d" ++ String newline "1," ++ String newline "2,1"
   ++ String newline ",3" ++ String newline "3,")%string.

(** A table whose column is named [__proto__]: the first row loses its
    prototype and owns the name, the second row owns nothing and reads the
    prototype object under the name: [__proto__,__proto__ / ,5 / 3,4]. *)
Definition csv_proto_column : string :=
  ("__proto__,__proto__" ++ String newline ",5" ++ String newline "3,4")%string.

(** A table whose one row owns the name [__proto__]: the empty first
    field sets the prototype of the row to [null], so the second field is
    stored under the name: [__proto__,__proto__,a / ,5,6]. *)
Definition csv_proto_target : string :=
  ("__proto__,__proto__,a" ++ String newline ",5,6")%string.

(** A table of one data row: [a,b / 1,2]. *)
Definition csv_one_row : string := ("a,b" ++ String newline "1,2")%string.

(* ================================================================== *)
(** * Checks of the runtime model

    The built-in functions modelled above, run on inputs whose results in
    JavaScript are well known. *)

Example to_string_sum :
  JSNumber.to_string (add (of_decimal false 1 (-1)) (of_decimal false 2 (-1)))
  = "0.30000000000000004"%string.
Proof. vm_compute. reflexivity. Qed.

Example to_string_exponent :
  map (fun s => JSNumber.to_string (JSString.parseFloat s))
      ["1e21"; "123e-20"; "0.000001"; "1e-7"; "-12.50"; "5e-324"]%string
  = ["1e+21"; "1.23e-18"; "0.000001"; "1e-7"; "-12.5"; "5e-324"]%string.
Proof. vm_compute. reflexivity. Qed.

Example parseFloat_prefix :
  map (fun s => JSNumber.to_string (JSString.parseFloat s))
      ["  42abc"; ".5"; "1."; "1e"; "."; "abc"; "-Infinityx"; "0x10"]%string
  = ["42"; "0.5"; "1"; "1"; "NaN"; "NaN"; "-Infinity"; "0"]%string.
Proof. vm_compute. reflexivity. Qed.

Example to_number_strings :
  map (fun s => JSNumber.to_string (JSString.to_number s))
      [""; " 12 "; "0x12345"; "15x"; "1e"; "150e5"]%string
  = ["0"; "12"; "74565"; "NaN"; "NaN"; "15000000"]%string.
Proof. vm_compute. reflexivity. Qed.

Example floor_examples :
  map (fun x => JSNumber.to_string (floor x))
      [of_decimal false 25 (-1); of_decimal true 25 (-1);
       mul (of_nat 5) (of_decimal false 8 (-1))]
  = ["2"; "-3"; "4"]%string.
Proof. vm_compute. reflexivity. Qed.

Example parseCSV_example :
  map JSON_stringify (parseCSV csv_injected)
  = [("{" ++ JSString.quote "x" ++ ":" ++ JSString.quote "foo" ++ ","
      ++ JSString.quote "y" ++ ":1}")%string;
     ("{" ++ JSString.quote "x" ++ ":" ++ JSString.quote "bar" ++ ","
      ++ JSString.quote "y" ++ ":null}")%string].
Proof. vm_compute. reflexivity. Qed.

(** Reading a name through the prototype chain: an own property, a name
    that is nowhere, two members of [Object.prototype]; and the same names
    on an object whose prototype is [null]. *)
Example inherited_members_read :
  map (cell (literal [("a"%string, VNull)]))
      ["a"; "b"; "toString"; "__proto__"]%string
  = [VNull; VUndef; VMember "toString"; VMember "__proto__"]
  /\ map (cell (mkPlain true [("a"%string, VNull)]))
         ["a"; "b"; "toString"; "__proto__"]%string
     = [VNull; VUndef; VUndef; VUndef].
Proof. vm_compute. auto. Qed.

Example members_as_strings :
  map JSValue.to_string
      [VMember "constructor"; VMember "toString"; VMember "__proto__"]
  = ["function Object() { [native code] }";
     "function toString() { [native code] }"; "[object Object]"]%string
  /\ js_add (VNum NaN) (VMember "__proto__") = VStr "NaN[object Object]"
  /\ JSValue.to_number (VStr "NaN[object Object]") = NaN.
Proof. vm_compute. auto. Qed.

(** The rows and the profile of [__proto__,__proto__ / ,5 / 3,4]: the
    second row reads [Object.prototype] in the column, a value that is
    present and is no number. *)
Example profile_of_proto_column :
  parseCSV csv_proto_column
  = [mkPlain true [(proto_key, VNum (of_Z 5))]; literal []]
  /\ analyzeColumns (parseCSV csv_proto_column)
     = [mkColumnStat proto_key TString 0 2 [VNum (of_Z 5); VMember proto_key]].
Proof. vm_compute. auto. Qed.

(* ================================================================== *)
(** * Properties of the parser *)

Section ParserFacts.

Lemma fold_parse_line (headers : list string) (ls : list string) :
  forall data,
    fold_left (parse_line headers) ls data
    = data ++ flat_map (emitted_rows headers) ls.
Proof.
  induction ls as [|l ls IH]; intros data; simpl.
  - now rewrite app_nil_r.
  - rewrite IH. unfold parse_line, emitted_rows, good_line.
    destruct (JSString.is_empty (JSString.trim l)); simpl.
    + reflexivity.
    + destruct (Nat.eqb _ _); simpl.
      * now rewrite <- app_assoc.
      * reflexivity.
Qed.

Lemma parseCSV_flat_map (csvText : string) :
  parseCSV csvText
  = flat_map (emitted_rows (headers_of csvText)) (data_lines csvText).
Proof.
  unfold parseCSV, headers_of, data_lines, lines_of.
  destruct (JSString.split newline (JSString.trim csvText)) as [|h [|l ls]];
    try reflexivity.
  change (Nat.ltb (List.length (h :: l :: ls)) 2) with false.
  cbv iota. now rewrite fold_parse_line.
Qed.

Lemma length_emitted (headers : list string) (ls : list string) :
  List.length (flat_map (emitted_rows headers) ls)
  = List.length (filter (good_line headers) ls).
Proof.
  induction ls as [|l ls IH]; simpl; [reflexivity|].
  rewrite length_app, IH. unfold emitted_rows.
  destruct (good_line headers l); reflexivity.
Qed.

Lemma in_parseCSV (csvText : string) (row : DataRow) :
  In row (parseCSV csvText) ->
  exists line,
    In line (data_lines csvText)
    /\ good_line (headers_of csvText) line = true
    /\ row = make_row (headers_of csvText) (fields (JSString.trim line)).
Proof.
  rewrite parseCSV_flat_map, in_flat_map. intros (line & Hin & Hrow).
  exists line. unfold emitted_rows in Hrow.
  destruct (good_line (headers_of csvText) line) eqn:G.
  - destruct Hrow as [<-|[]]. auto.
  - destruct Hrow.
Qed.

(** *** Properties of objects *)

Lemma in_update {A} (o : object A) k v k' v' :
  In (k', v') (update o k v) -> In (k', v') o \/ (k' = k /\ v' = v).
Proof.
  induction o as [|[k0 v0] o IH]; simpl; [tauto|].
  destruct (String.eqb k0 k) eqn:E; simpl.
  - apply String.eqb_eq in E. subst.
    intros [H|H]; [inversion H; subst; auto | auto].
  - intros [H|H]; [auto | destruct (IH H); auto].
Qed.

Lemma in_insert_index {A} i (o : object A) k v k' v' :
  In (k', v') (insert_index i k v o) -> In (k', v') o \/ (k' = k /\ v' = v).
Proof.
  induction o as [|[k0 v0] o IH]; simpl.
  - intros [H|[]]; inversion H; auto.
  - destruct (array_index k0) as [j|].
    + destruct (i <? j)%Z; simpl.
      * intros [H|H]; [inversion H; auto | auto].
      * intros [H|H]; [auto | destruct (IH H); auto].
    + simpl. intros [H|H]; [inversion H; auto | auto].
Qed.

Lemma in_define {A} (o : object A) k v k' v' :
  In (k', v') (define o k v) -> In (k', v') o \/ (k' = k /\ v' = v).
Proof.
  unfold define. destruct (has_own o k).
  - apply in_update.
  - destruct (array_index k).
    + apply in_insert_index.
    + rewrite in_app_iff. simpl.
      intros [H|[H|[]]]; [auto | inversion H; auto].
Qed.

Lemma in_assign st k v k' v' :
  In (k', v') (own (assign st k v)) ->
  In (k', v') (own st) \/ (k' = k /\ v' = v).
Proof.
  unfold assign. destruct st as [b o]. simpl.
  destruct (String.eqb k proto_key && negb b && negb (has_own o k)); simpl.
  - auto.
  - apply in_define.
Qed.

Lemma assign_other st k v :
  String.eqb k proto_key = false ->
  assign st k v = mkPlain (bare st) (define (own st) k v).
Proof. intros H. unfold assign. now rewrite H. Qed.

(** Every cell of a built row is the cast of the value at a position of
    its header. *)
Lemma in_make_row_fold (hvs : list (string * string)) :
  forall st k v,
    In (k, v) (own (fold_left
                      (fun st hv => assign st (fst hv) (cast (snd hv)))
                      hvs st)) ->
    In (k, v) (own st) \/ exists val, In (k, val) hvs /\ v = cast val.
Proof.
  induction hvs as [|[h val] hvs IH]; intros st k v; simpl; [auto|].
  intros H. destruct (IH _ _ _ H) as [H1|(val' & Hin & ->)].
  - destruct (in_assign _ _ _ _ _ H1) as [H2|[-> ->]]; [auto|].
    right. exists val. auto.
  - right. exists val'. auto.
Qed.

Lemma in_combine_nth {A B} (l : list A) (l' : list B) a b :
  In (a, b) (combine l l') ->
  exists i, nth_error l i = Some a /\ nth_error l' i = Some b.
Proof.
  revert l'. induction l as [|x l IH]; intros [|y l']; simpl; try tauto.
  intros [H|H].
  - inversion H; subst. exists 0. auto.
  - destruct (IH _ H) as (i & H1 & H2). exists (S i). auto.
Qed.

Lemma in_make_row (headers vals : list string) k v :
  In (k, v) (own (make_row headers vals)) ->
  exists i val,
    nth_error headers i = Some k /\ nth_error vals i = Some val
    /\ v = cast val.
Proof.
  unfold make_row. intros H.
  destruct (in_make_row_fold _ _ _ _ H) as [[]|(val & Hin & ->)].
  destruct (in_combine_nth _ _ _ _ Hin) as (i & H1 & H2).
  exists i, val. auto.
Qed.

End ParserFacts.

(** *** The keys of a built row *)

Section RowKeys.

Context {A : Type}.

Lemma has_own_keys (o : object A) k : has_own o k = true <-> In k (keys o).
Proof.
  unfold has_own. induction o as [|[k0 v0] o IH]; simpl.
  - split; [discriminate | tauto].
  - destruct (String.eqb k0 k) eqn:E.
    + apply String.eqb_eq in E. tauto.
    + apply String.eqb_neq in E. rewrite IH. split; [tauto|].
      intros [H|H]; [contradiction | assumption].
Qed.

Lemma keys_update (o : object A) k v : keys (update o k v) = keys o.
Proof.
  induction o as [|[k0 v0] o IH]; simpl; [reflexivity|].
  destruct (String.eqb k0 k); simpl; [reflexivity | now rewrite IH].
Qed.

Lemma keys_insert_index i (o : object A) k v :
  Permutation (keys (insert_index i k v o)) (k :: keys o).
Proof.
  induction o as [|[k0 v0] o IH]; simpl; [reflexivity|].
  destruct (array_index k0) as [j|]; [destruct (i <? j)%Z|]; simpl;
    try reflexivity.
  rewrite IH. apply perm_swap.
Qed.

Lemma keys_define_new (o : object A) k v :
  has_own o k = false -> Permutation (keys (define o k v)) (k :: keys o).
Proof.
  intros H. unfold define. rewrite H. destruct (array_index k).
  - apply keys_insert_index.
  - unfold keys. rewrite map_app. simpl.
    symmetry. apply Permutation_cons_append.
Qed.

Lemma keys_define_NoDup (o : object A) k v :
  NoDup (keys o) -> NoDup (keys (define o k v)).
Proof.
  intros H. destruct (has_own o k) eqn:E.
  - unfold define. rewrite E, keys_update. exact H.
  - apply (Permutation_NoDup (l := k :: keys o)).
    + symmetry. now apply keys_define_new.
    + constructor; [|exact H].
      rewrite <- has_own_keys, E. discriminate.
Qed.

Lemma keys_define_In (o : object A) k v k' :
  In k' (keys (define o k v)) <-> k' = k \/ In k' (keys o).
Proof.
  destruct (has_own o k) eqn:E.
  - unfold define. rewrite E, keys_update. split; [tauto|].
    intros [->|H]; [now apply has_own_keys | assumption].
  - split; intros H.
    + apply (Permutation_in _ (keys_define_new o k v E)) in H.
      destruct H; [left; congruence | tauto].
    + apply (Permutation_in _ (Permutation_sym (keys_define_new o k v E))).
      simpl. destruct H; [left; congruence | tauto].
Qed.

End RowKeys.

Lemma make_row_fold_keys (hvs : list (string * string)) :
  forall st,
    ~ In proto_key (map fst hvs) ->
    NoDup (keys (own st)) ->
    let row := own (fold_left
                      (fun st hv => assign st (fst hv) (cast (snd hv)))
                      hvs st) in
    NoDup (keys row)
    /\ forall k, In k (keys row) <-> In k (keys (own st)) \/ In k (map fst hvs).
Proof.
  induction hvs as [|[h val] hvs IH]; intros [b o] Hp Hnd; simpl in *.
  - split; [assumption | tauto].
  - assert (Hh : String.eqb h proto_key = false).
    { apply String.eqb_neq. intros ->. tauto. }
    rewrite (assign_other _ _ _ Hh). simpl.
    destruct (IH (mkPlain b (define o h (cast val)))) as [H1 H2].
    + tauto.
    + now apply keys_define_NoDup.
    + split; [exact H1|]. intros k. rewrite H2. simpl.
      rewrite keys_define_In. intuition congruence.
Qed.

Lemma map_fst_combine {A B} (l : list A) (l' : list B) :
  List.length l' = List.length l -> map fst (combine l l') = l.
Proof.
  revert l'. induction l as [|x l IH]; intros [|y l']; simpl;
    try discriminate; try reflexivity.
  intros H. f_equal. apply IH. congruence.
Qed.

Lemma make_row_keys (headers vals : list string) :
  List.length vals = List.length headers ->
  ~ In proto_key headers ->
  List.length (keys (own (make_row headers vals)))
  = List.length (nodup string_dec headers).
Proof.
  intros Hlen Hp. unfold make_row.
  destruct (make_row_fold_keys (combine headers vals) (literal [])) as [H1 H2].
  - now rewrite map_fst_combine.
  - constructor.
  - apply Permutation_length, NoDup_Permutation.
    + exact H1.
    + apply NoDup_nodup.
    + intros k. rewrite H2, nodup_In, map_fst_combine by assumption.
      simpl. tauto.
Qed.

Section LookupFacts.

Context {A : Type}.

Lemma lookup_update (o : object A) k v k' :
  has_own o k = true ->
  lookup (update o k v) k' = if String.eqb k k' then Some v else lookup o k'.
Proof.
  unfold has_own. induction o as [|[k0 v0] o IH]; simpl; [discriminate|].
  destruct (String.eqb k0 k) eqn:E; simpl.
  - apply String.eqb_eq in E. subst k0. intros _.
    destruct (String.eqb k k'); reflexivity.
  - intros H. rewrite (IH H).
    destruct (String.eqb k0 k') eqn:E'; [|reflexivity].
    apply String.eqb_eq in E'. subst k0.
    rewrite String.eqb_sym, E. reflexivity.
Qed.

Lemma lookup_insert_index i (o : object A) k v k' :
  has_own o k = false ->
  lookup (insert_index i k v o) k'
  = if String.eqb k k' then Some v else lookup o k'.
Proof.
  unfold has_own. induction o as [|[k0 v0] o IH]; simpl; [reflexivity|].
  destruct (String.eqb k0 k) eqn:E; [discriminate|]. intros H.
  destruct (array_index k0) as [j|]; [destruct (i <? j)%Z|]; simpl;
    try reflexivity.
  rewrite (IH H).
  destruct (String.eqb k0 k') eqn:E'; [|reflexivity].
  apply String.eqb_eq in E'. subst k0.
  rewrite String.eqb_sym, E. reflexivity.
Qed.

Lemma lookup_append (o : object A) k v k' :
  has_own o k = false ->
  lookup (o ++ [(k, v)]) k' = if String.eqb k k' then Some v else lookup o k'.
Proof.
  unfold has_own. induction o as [|[k0 v0] o IH]; simpl.
  - intros _. destruct (String.eqb k k'); reflexivity.
  - destruct (String.eqb k0 k) eqn:E; [discriminate|]. intros H.
    rewrite (IH H).
    destruct (String.eqb k0 k') eqn:E'; [|reflexivity].
    apply String.eqb_eq in E'. subst k0.
    rewrite String.eqb_sym, E. reflexivity.
Qed.

Lemma lookup_define (o : object A) k v k' :
  lookup (define o k v) k' = if String.eqb k k' then Some v else lookup o k'.
Proof.
  unfold define. destruct (has_own o k) eqn:E.
  - now apply lookup_update.
  - destruct (array_index k).
    + now apply lookup_insert_index.
    + now apply lookup_append.
Qed.

End LookupFacts.



(** *** The specified properties of the parser *)

(** C5.  For every text, the rows of [parseCSV] are the rows of its data
    lines in order: a line whose field count differs from the header's
    contributes no row, a line that is empty once trimmed contributes none,
    and every other line contributes exactly one; the function is total, so
    nothing is raised.  On [x,y / foo,1 / 1,2,3 / bar,] exactly two rows are
    produced. *)
Theorem parseCSV_drops_mismatched_lines :
  forall csvText : string,
    let headers := headers_of csvText in
    parseCSV csvText = flat_map (emitted_rows headers) (data_lines csvText)
    /\ (forall line,
          List.length (fields (JSString.trim line)) <> List.length headers ->
          emitted_rows headers line = [])
    /\ (forall line,
          JSString.trim line <> EmptyString ->
          List.length (fields (JSString.trim line)) = List.length headers ->
          emitted_rows headers line
          = [make_row headers (fields (JSString.trim line))])
    /\ List.length (parseCSV csvText)
       = List.length (filter (good_line headers) (data_lines csvText))
    /\ List.length (parseCSV csv_injected) = 2.
Proof.
  intros csvText headers. repeat split.
  - apply parseCSV_flat_map.
  - intros line H. unfold emitted_rows, good_line.
    apply Nat.eqb_neq in H. rewrite H. now rewrite andb_false_r.
  - intros line Hne Hlen. unfold emitted_rows, good_line.
    apply Nat.eqb_eq in Hlen. rewrite Hlen.
    destruct (JSString.trim line); [contradiction | reflexivity].
  - rewrite parseCSV_flat_map. apply length_emitted.
Qed.




(** C7, as stated, fails: on [a,a / 1,2] the parse yields a row, the header
    has two columns and the profile has one entry. *)
Lemma profile_length_repeated_header :
  List.length (parseCSV csv_repeated_header) = 1
  /\ List.length (headers_of csv_repeated_header) = 2
  /\ List.length (analyzeColumns (parseCSV csv_repeated_header)) = 1.
Proof. vm_compute. auto. Qed.

(** C7, amended.  For every text whose parse yields at least one row and
    whose header has no field named [__proto__], the profile has one entry
    per distinct header name. *)
Theorem profile_length_distinct_headers :
  forall csvText : string,
    parseCSV csvText <> [] ->
    ~ In proto_key (headers_of csvText) ->
    List.length (analyzeColumns (parseCSV csvText))
    = List.length (nodup string_dec (headers_of csvText)).
Proof.
  intros csvText Hne Hp.
  destruct (parseCSV csvText) as [|row rest] eqn:E; [contradiction|].
  assert (Hin : In row (parseCSV csvText)) by (rewrite E; now left).
  destruct (in_parseCSV _ _ Hin) as (line & _ & Hgood & ->).
  unfold good_line in Hgood. apply andb_prop in Hgood as [_ Hlen].
  apply Nat.eqb_eq in Hlen.
  unfold analyzeColumns. rewrite length_map.
  now apply make_row_keys.
Qed.

Lemma profile_length_distinct_headers_witness :
  List.length (analyzeColumns (parseCSV csv_repeated_header))
  = List.length (nodup string_dec (headers_of csv_repeated_header)).
Proof.
  apply (profile_length_distinct_headers csv_repeated_header).
  - vm_compute. discriminate.
  - vm_compute. intros [H|[H|[]]]; discriminate H.
Defined.

(* ================================================================== *)
(** * Properties of the cleaner *)

Section DedupFacts.

Lemma set_has_In (seen : list string) (s : string) :
  set_has seen s = true <-> In s seen.
Proof.
  unfold set_has. rewrite existsb_exists. split.
  - intros (x & Hx & E). apply String.eqb_eq in E. now subst.
  - intros H. exists s. split; [assumption | apply String.eqb_refl].
Qed.

Lemma fold_dedup_step (rows : list DataRow) :
  forall seen out,
    fold_left dedup_step rows (seen, out)
    = (seen ++ map JSON_stringify (dedup_from seen rows),
       out ++ dedup_from seen rows).
Proof.
  induction rows as [|row rows IH]; intros seen out; simpl.
  - now rewrite !app_nil_r.
  - destruct (set_has seen (JSON_stringify row)).
    + apply IH.
    + rewrite IH. simpl. now rewrite <- !app_assoc.
Qed.

Lemma dedup_dedup_from (rows : list DataRow) : dedup rows = dedup_from [] rows.
Proof. unfold dedup. now rewrite fold_dedup_step. Qed.

Lemma dedup_from_In (rows : list DataRow) :
  forall seen row, In row (dedup_from seen rows) -> In row rows.
Proof.
  induction rows as [|r rows IH]; intros seen row; simpl; [tauto|].
  destruct (set_has seen (JSON_stringify r)).
  - intros H. right. eapply IH, H.
  - intros [H|H]; [now left | right; eapply IH, H].
Qed.

Lemma dedup_from_fresh (rows : list DataRow) :
  forall seen row,
    In row (dedup_from seen rows) -> ~ In (JSON_stringify row) seen.
Proof.
  induction rows as [|r rows IH]; intros seen row; simpl; [tauto|].
  destruct (set_has seen (JSON_stringify r)) eqn:E.
  - apply IH.
  - intros [<-|H].
    + rewrite <- set_has_In, E. discriminate.
    + intros Hin. apply (IH _ _ H). apply in_or_app. now left.
Qed.

Lemma dedup_from_NoDup (rows : list DataRow) :
  forall seen, NoDup (map JSON_stringify (dedup_from seen rows)).
Proof.
  induction rows as [|r rows IH]; intros seen; simpl; [constructor|].
  destruct (set_has seen (JSON_stringify r)); [apply IH|].
  simpl. constructor; [|apply IH].
  rewrite in_map_iff. intros (row & E & Hin).
  apply dedup_from_fresh in Hin. apply Hin.
  apply in_or_app. right. left. now symmetry.
Qed.

Lemma dedup_from_fixed (rows : list DataRow) :
  forall seen,
    NoDup (map JSON_stringify rows) ->
    (forall row, In row rows -> ~ In (JSON_stringify row) seen) ->
    dedup_from seen rows = rows.
Proof.
  induction rows as [|r rows IH]; intros seen Hnd Hfresh; simpl;
    [reflexivity|].
  inversion Hnd as [|? ? Hr Hnd']; subst.
  destruct (set_has seen (JSON_stringify r)) eqn:E.
  - apply set_has_In in E. exfalso. apply (Hfresh r); [now left | exact E].
  - f_equal. apply IH; [exact Hnd'|].
    intros row Hin Hs. apply in_app_or in Hs as [Hs|[Hs|[]]].
    + apply (Hfresh row); [now right | exact Hs].
    + apply Hr. rewrite Hs. now apply in_map.
Qed.

Lemma dedup_idempotent (rows : list DataRow) : dedup (dedup rows) = dedup rows.
Proof.
  rewrite !dedup_dedup_from. apply dedup_from_fixed.
  - apply dedup_from_NoDup.
  - intros row _ [].
Qed.

Lemma dedup_In (rows : list DataRow) (row : DataRow) :
  In row (dedup rows) -> In row rows.
Proof. rewrite dedup_dedup_from. apply dedup_from_In. Qed.

End DedupFacts.

Lemma clean_pass_no_targets (data : list DataRow) (stats : list ColumnStat)
  (m : CleaningMethod) :
  clean_pass data stats (mkCleaningOptions m []) = data.
Proof.
  unfold clean_pass. destruct m; simpl; try reflexivity.
  induction data as [|row data IH]; simpl; [reflexivity | now rewrite IH].
Qed.

(** C8.  With no target column, [cleanData] is the deduplication alone,
    whatever the method and the statistics; its result holds no two rows
    with the same serialization, and cleaning that result again (with no
    target column) returns it unchanged. *)
Theorem cleanData_no_targets_idempotent :
  forall (data : list DataRow) (stats stats' : list ColumnStat)
         (m m' : CleaningMethod),
    let once := cleanData data stats (mkCleaningOptions m []) in
    once = dedup data
    /\ NoDup (map JSON_stringify once)
    /\ cleanData once stats' (mkCleaningOptions m' []) = once.
Proof.
  intros data stats stats' m m' once. unfold once, cleanData.
  rewrite !clean_pass_no_targets. repeat split.
  - rewrite dedup_dedup_from. apply dedup_from_NoDup.
  - apply dedup_idempotent.
Qed.

(** C2.  With [drop_rows], the rows kept before the deduplication are, in
    order and unchanged, exactly the rows of the input in which no target
    column holds [null] or the empty string; the result is the
    deduplication of those, and no returned row has a blank target cell. *)
Theorem cleanData_drop_rows :
  forall (data : list DataRow) (stats : list ColumnStat)
         (targets : list string),
    let options := mkCleaningOptions drop_rows targets in
    let kept := clean_pass data stats options in
    kept = filter
             (fun row =>
                negb (existsb
                        (fun col => is_null (cell row col)
                                    || is_empty_string (cell row col))
                        targets))
             data
    /\ (forall row,
          In row kept <->
          In row data
          /\ forall col, In col targets ->
                         cell row col <> VNull
                         /\ cell row col <> VStr EmptyString)
    /\ cleanData data stats options = dedup kept
    /\ (forall row col,
          In row (cleanData data stats options) ->
          In col targets ->
          cell row col <> VNull /\ cell row col <> VStr EmptyString).
Proof.
  intros data stats targets options kept.
  assert (Hkeep : forall row,
             keep_row targets row = true <->
             forall col, In col targets ->
                         cell row col <> VNull
                         /\ cell row col <> VStr EmptyString).
  { intros row. unfold keep_row. rewrite negb_true_iff.
    rewrite <- not_true_iff_false, existsb_exists. split.
    - intros H col Hin. split; intros E; apply H; exists col;
        (split; [assumption|]); rewrite E; reflexivity.
    - intros H (col & Hin & Hb). destruct (H col Hin) as [H1 H2].
      unfold is_blank in Hb. destruct (cell row col) as [x|s| | |k0];
        try discriminate; [|now apply H1].
      destruct s; [now apply H2 | discriminate]. }
  assert (Hin : forall row,
             In row kept <->
             In row data
             /\ forall col, In col targets ->
                            cell row col <> VNull
                            /\ cell row col <> VStr EmptyString).
  { intros row. unfold kept, clean_pass. simpl.
    rewrite filter_In, Hkeep. reflexivity. }
  split; [reflexivity|]. split; [exact Hin|]. split; [reflexivity|].
  intros row col Hrow Hcol.
  apply (proj1 (Hin row)); [|exact Hcol].
  apply dedup_In. exact Hrow.
Qed.

(** C10.  There is an input on which a fill method leaves [undefined] in
    a cell: one row whose column [a] is [null], profiled by
    [analyzeColumns].  The column has no value, so it is profiled as a
    string column and every fill method takes the mode of no values, which
    is [undefined]: neither a number, nor a string, nor [null]. *)
Theorem fill_of_blank_column_is_undefined :
  column blank_rows "a" = [VNull]
  /\ map type (analyzeColumns blank_rows) = [TString]
  /\ cleanData blank_rows (analyzeColumns blank_rows)
       (mkCleaningOptions fill_mean ["a"%string])
     = [literal [("a"%string, VUndef)]]
  /\ cleanData blank_rows (analyzeColumns blank_rows)
       (mkCleaningOptions fill_median ["a"%string])
     = [literal [("a"%string, VUndef)]]
  /\ cleanData blank_rows (analyzeColumns blank_rows)
       (mkCleaningOptions fill_mode ["a"%string])
     = [literal [("a"%string, VUndef)]]
  /\ is_number VUndef = false
  /\ is_null VUndef = false
  /\ (forall s, VUndef <> VStr s).
Proof.
  repeat split; try (vm_compute; reflexivity). discriminate.
Qed.

(* ================================================================== *)
(** * Properties of the trainer *)

Section SignFacts.

Lemma binary_round_aux_sign_clear mx ex lx :
  sign_clear (binary_round_aux prec emax false mx ex lx) = true.
Proof.
  unfold binary_round_aux.
  destruct (shr_fexp prec emax mx ex lx) as [mrs' e'].
  destruct (shr_fexp prec emax _ e' loc_Exact) as [mrs'' e''].
  destruct (shr_m mrs''); try reflexivity.
  destruct (Z.leb e'' (emax - prec)); reflexivity.
Qed.

Lemma binary_round_sign_clear m e :
  sign_clear (binary_round prec emax false m e) = true.
Proof.
  unfold binary_round.
  destruct (shl_align m e _) as [mz ez].
  apply binary_round_aux_sign_clear.
Qed.

Lemma of_Z_sign_clear z : (0 <= z)%Z -> sign_clear (of_Z z) = true.
Proof.
  intros Hz. unfold of_Z, binary_normalize. destruct z as [|p|p].
  - reflexivity.
  - apply binary_round_sign_clear.
  - lia.
Qed.

Lemma sign_clear_not_negative x : sign_clear x = true -> not_negative x = true.
Proof. destruct x as [[]|[]| |[] m e]; simpl; congruence. Qed.

Lemma mul_not_negative x r :
  sign_clear x = true -> not_negative r = true ->
  not_negative (mul x r) = true.
Proof.
  intros Hx Hr. unfold mul.
  destruct x as [[]|[]| |[] mx ex]; try discriminate;
    destruct r as [[]|[]| |[] mr er]; try discriminate; try reflexivity.
  simpl. apply sign_clear_not_negative, binary_round_aux_sign_clear.
Qed.

Lemma floor_not_negative x :
  not_negative x = true -> not_negative (floor x) = true.
Proof.
  intros Hx. destruct x as [s|s| |s m e]; simpl; try assumption.
  destruct e as [|p|p]; try assumption.
  destruct s; [discriminate|].
  apply sign_clear_not_negative, of_Z_sign_clear, Z.shiftr_nonneg. lia.
Qed.

Lemma to_integer_from_start x :
  not_negative x = true -> from_start (to_integer_or_infinity x).
Proof.
  intros Hx. destruct x as [s|[]| |[] m e]; simpl; try discriminate;
    try lia; try exact I.
  destruct e as [|p|p].
  - rewrite Z.shiftl_0_r. lia.
  - apply Z.shiftl_nonneg. lia.
  - apply Z.shiftr_nonneg. lia.
Qed.

Lemma splitIndex_from_start (valid : list DataRow) (r : number) :
  not_negative r = true ->
  from_start (to_integer_or_infinity (splitIndex valid r)).
Proof.
  intros Hr. apply to_integer_from_start, floor_not_negative, mul_not_negative.
  - apply of_Z_sign_clear. lia.
  - exact Hr.
Qed.

End SignFacts.

Section SliceFacts.

Context {A : Type}.

Lemma firstn_min (k : nat) (l : list A) :
  firstn (Nat.min k (List.length l)) l = firstn k l.
Proof.
  destruct (Nat.le_ge_cases k (List.length l)) as [H|H].
  - now rewrite Nat.min_l.
  - rewrite Nat.min_r by assumption.
    now rewrite !firstn_all2 by lia.
Qed.

Lemma skipn_min (k : nat) (l : list A) :
  skipn (Nat.min k (List.length l)) l = skipn k l.
Proof.
  destruct (Nat.le_ge_cases k (List.length l)) as [H|H].
  - now rewrite Nat.min_l.
  - rewrite Nat.min_r by assumption.
    now rewrite !skipn_all2 by lia.
Qed.

Lemma relative_index_from_start (len : nat) (i : ext_int) :
  from_start i ->
  relative_index len i = Nat.min (split_count len i) len.
Proof.
  destruct i as [z| |]; simpl; intros H.
  - destruct (Z.ltb_spec z 0); [lia | reflexivity].
  - now rewrite Nat.min_id.
  - destruct H.
Qed.

Lemma slice_prefix (l : list A) (i : ext_int) :
  from_start i ->
  slice l (Int 0) (Some i) = firstn (split_count (List.length l) i) l.
Proof.
  intros H. unfold slice. rewrite (relative_index_from_start _ _ H).
  simpl. rewrite Nat.sub_0_r. apply firstn_min.
Qed.

Lemma slice_suffix (l : list A) (i : ext_int) :
  from_start i ->
  slice l i None = skipn (split_count (List.length l) i) l.
Proof.
  intros H. unfold slice. rewrite (relative_index_from_start _ _ H).
  rewrite skipn_min. apply firstn_all2. rewrite length_skipn. lia.
Qed.

Lemma slice_nil (i : ext_int) (j : option ext_int) : slice (@nil A) i j = [].
Proof. unfold slice. now rewrite skipn_nil, firstn_nil. Qed.

End SliceFacts.

(** C3.  For every row sequence, target and features, and every split
    ratio that is not negative (every ratio of a TrainingSpec lies in
    (0,1)): the valid rows are the rows whose target and feature cells
    all hold numbers, in their order; the split index is
    floor(validRowCount * splitRatio); the training set is the first
    [splitIndex] valid rows and the test set is the valid rows from
    [splitIndex] on, so both keep the original order and together they
    are the valid rows. *)
Theorem trainModel_split :
  forall (data : list DataRow) (target : string) (features : list string)
         (splitRatio : number),
    not_negative splitRatio = true ->
    let valid := validData data target features in
    let index :=
      to_integer_or_infinity
        (floor (mul (of_nat (List.length valid)) splitRatio)) in
    let k := split_count (List.length valid) index in
    valid = filter
              (fun row =>
                 is_number (cell row target)
                 && forallb (fun f => is_number (cell row f)) features)
              data
    /\ from_start index
    /\ trainData data target features splitRatio = firstn k valid
    /\ testData data target features splitRatio = skipn k valid
    /\ trainData data target features splitRatio
       ++ testData data target features splitRatio = valid.
Proof.
  intros data target features r Hr valid index k.
  assert (Hi : from_start index) by (apply splitIndex_from_start; exact Hr).
  assert (Htrain : trainData data target features r = firstn k valid)
    by (apply slice_prefix; exact Hi).
  assert (Htest : testData data target features r = skipn k valid)
    by (apply slice_suffix; exact Hi).
  split; [reflexivity|]. split; [exact Hi|].
  split; [exact Htrain|]. split; [exact Htest|].
  rewrite Htrain, Htest. apply firstn_skipn.
Qed.

Lemma trainModel_split_witness :
  let data := parseCSV csv_linear in
  let splitRatio := of_decimal false 8 (-1) in
  let valid := validData data "b" ["a"%string] in
  trainData data "b" ["a"%string] splitRatio = firstn 4 valid
  /\ testData data "b" ["a"%string] splitRatio = skipn 4 valid.
Proof.
  destruct (trainModel_split (parseCSV csv_linear) "b" ["a"%string]
              (of_decimal false 8 (-1)) eq_refl)
    as (_ & _ & Htrain & Htest & _).
  split; [exact Htrain | exact Htest].
Defined.

(** C9.  When no row is valid, [trainModel] returns a result (the function
    is total: nothing is raised): there is no prediction, and the mean
    squared error, the mean absolute error and R2 are the NaN of the
    divisions 0/0. *)
Theorem trainModel_no_valid_rows :
  forall (Math_pow : number -> number -> number) (data : list DataRow)
         (target : string) (features : list string) (splitRatio : number),
    validData data target features = [] ->
    trainModel Math_pow data target features splitRatio
    = mkModelMetrics NaN NaN NaN [].
Proof.
  intros Math_pow data target features r Hvalid.
  unfold trainModel, trainData, testData.
  rewrite Hvalid, !slice_nil. reflexivity.
Qed.

Lemma trainModel_no_valid_rows_witness :
  trainModel (fun x _ => mul x x) blank_rows "a" [] (of_decimal false 8 (-1))
  = mkModelMetrics NaN NaN NaN [].
Proof.
  apply (trainModel_no_valid_rows (fun x _ => mul x x) blank_rows "a" []).
  reflexivity.
Defined.

(* ================================================================== *)
(** * Filling with the mean *)


Section FillFacts.

Lemma cell_spread_with (row : DataRow) k v k' :
  cell (spread_with row k v) k'
  = if String.eqb k k' then v
    else match lookup (own row) k' with
         | Some w => w
         | None => if is_inherited k' then VMember k' else VUndef
         end.
Proof.
  unfold cell, get, spread_with, literal. simpl. rewrite lookup_define.
  destruct (String.eqb k k'); reflexivity.
Qed.

(** The filled column: a blank cell takes the fill value. *)
Lemma cell_fill_row_same (col : string) (fv : value) (row : DataRow) :
  cell (fill_row col fv row) col = filled fv (cell row col).
Proof.
  unfold fill_row, filled. destruct (is_blank (cell row col)); [|reflexivity].
  now rewrite cell_spread_with, String.eqb_refl.
Qed.

(** Another column: the cell is kept, except that a name which read
    [undefined] on a row without prototype reads the inherited member on
    the rebuilt row. *)
Lemma cell_fill_row_other (col : string) (fv : value) (row : DataRow)
  (c : string) :
  String.eqb col c = false ->
  cell (fill_row col fv row) c = cell row c
  \/ (cell row c = VUndef /\ cell (fill_row col fv row) c = VMember c).
Proof.
  intros E. unfold fill_row. destruct (is_blank (cell row col)); [|now left].
  rewrite cell_spread_with, E. unfold cell, get.
  destruct (lookup (own row) c); [now left|].
  destruct (bare row); simpl; [|now left].
  destruct (is_inherited c); [right; auto | now left].
Qed.

Lemma cell_fill_row_defined (col : string) (fv : value) (row : DataRow)
  (c : string) :
  String.eqb col c = false ->
  is_undefined (cell row c) = false ->
  cell (fill_row col fv row) c = cell row c.
Proof.
  intros E H. destruct (cell_fill_row_other col fv row c E) as [H'|[H' _]];
    [exact H'|].
  rewrite H' in H. discriminate H.
Qed.

Lemma column_fill (col : string) (fv : value) (rows : list DataRow) :
  column (map (fill_row col fv) rows) col = map (filled fv) (column rows col).
Proof.
  unfold column. rewrite !map_map. apply map_ext. intros row.
  apply cell_fill_row_same.
Qed.

Lemma column_fill_other (col : string) (fv : value) (rows : list DataRow)
  (c : string) :
  String.eqb col c = false ->
  (forall v, In v (column rows c) -> is_undefined v = false) ->
  column (map (fill_row col fv) rows) c = column rows c.
Proof.
  intros E H. unfold column in *. rewrite map_map. apply map_ext_in.
  intros row Hrow. apply cell_fill_row_defined; [exact E|].
  apply H. apply in_map_iff. exists row. auto.
Qed.

(** What holds of every cell of a column, and of the inherited member of
    its name, still holds once another column has been filled. *)
Lemma column_fill_other_all (P : value -> bool) (col : string) (fv : value)
  (rows : list DataRow) (c : string) :
  P (VMember c) = true ->
  String.eqb col c = false ->
  forallb P (column rows c) = true ->
  forallb P (column (map (fill_row col fv) rows) c) = true.
Proof.
  intros HP E. unfold column. rewrite map_map, !forallb_forall.
  intros H v Hv. apply in_map_iff in Hv as (row & <- & Hrow).
  destruct (cell_fill_row_other col fv row c E) as [->|[_ ->]]; [|exact HP].
  apply H. apply in_map_iff. exists row. auto.
Qed.

(** A column other than the one being filled is left as it is, when none
    of its cells is [undefined]. *)
Lemma column_fill_column_other stats m rows col c :
  String.eqb col c = false ->
  (forall v, In v (column rows c) -> is_undefined v = false) ->
  column (fill_column stats m rows col) c = column rows c.
Proof.
  intros E H. unfold fill_column.
  destruct (find _ stats); [|reflexivity].
  now apply column_fill_other.
Qed.

Lemma column_fill_column_other_all (P : value -> bool) stats m rows col c :
  P (VMember c) = true ->
  String.eqb col c = false ->
  forallb P (column rows c) = true ->
  forallb P (column (fill_column stats m rows col) c) = true.
Proof.
  intros HP E H. unfold fill_column.
  destruct (find _ stats); [|exact H].
  now apply column_fill_other_all.
Qed.

Lemma valid_values_column (rows : list DataRow) (col : string) :
  valid_values rows col
  = filter (fun v => negb (is_blank v)) (column rows col).
Proof.
  unfold valid_values, column. apply filter_ext. intros v.
  unfold is_blank. now rewrite negb_orb.
Qed.

(** On numbers, the sum of [reduce] is the sum of the numbers. *)
Lemma fold_js_add_numbers (vs : list value) :
  forallb is_number vs = true ->
  forall acc,
    fold_left js_add vs (VNum acc)
    = VNum (fold_left add (numbers_of vs) acc).
Proof.
  induction vs as [|v vs IH]; simpl; [reflexivity|].
  intros H acc. apply andb_prop in H as [Hv Hvs].
  destruct v as [x| | | |k0]; try discriminate. simpl. now rewrite IH.
Qed.

Lemma length_numbers_of (vs : list value) :
  forallb is_number vs = true ->
  List.length (numbers_of vs) = List.length vs.
Proof.
  induction vs as [|v vs IH]; simpl; [reflexivity|].
  intros H. apply andb_prop in H as [Hv Hvs].
  destruct v; try discriminate. simpl. now rewrite IH.
Qed.

Lemma mean_of_numbers (vs : list value) :
  forallb is_number vs = true ->
  mean_of vs = VNum (arithmetic_mean (numbers_of vs)).
Proof.
  intros H. unfold mean_of, arithmetic_mean, zero.
  rewrite (fold_js_add_numbers vs H), (length_numbers_of vs H). reflexivity.
Qed.

(** In a column whose cells are blank or numbers, the valid values are the
    numbers of the column. *)
Lemma valid_values_numbers (vs : list value) :
  forallb (fun v => is_blank v || is_number v) vs = true ->
  forallb is_number (filter (fun v => negb (is_blank v)) vs) = true
  /\ numbers_of (filter (fun v => negb (is_blank v)) vs) = numbers_of vs.
Proof.
  induction vs as [|v vs IH]; simpl; [auto|].
  intros H. apply andb_prop in H as [Hv Hvs]. destruct (IH Hvs) as [H1 H2].
  destruct v as [x|s| | |k0]; simpl in *; try discriminate.
  - now rewrite H1, H2.
  - destruct s; [|discriminate]. simpl. auto.
  - auto.
Qed.

Lemma filled_not_blank (fv v : value) :
  is_blank fv = false -> is_blank (filled fv v) = false.
Proof.
  intros H. unfold filled. destruct (is_blank v) eqn:E; assumption.
Qed.

Lemma filled_twice (fv fv' : value) (vs : list value) :
  is_blank fv = false ->
  map (filled fv') (map (filled fv) vs) = map (filled fv) vs.
Proof.
  intros H. rewrite map_map. apply map_ext. intros v.
  unfold filled at 1. now rewrite filled_not_blank.
Qed.

Variable stats : list ColumnStat.
Variable c : string.
Variable stat : ColumnStat.
Hypothesis Hfind : find (fun s => String.eqb (name s) c) stats = Some stat.
Hypothesis Htype : type stat = TNumber.

(** Filling the column [c], profiled as a number column, with the mean. *)
Lemma column_fill_column_mean (rows : list DataRow) :
  forallb (fun v => is_blank v || is_number v) (column rows c) = true ->
  column (fill_column stats fill_mean rows c) c
  = map (filled (VNum (arithmetic_mean (numbers_of (column rows c)))))
        (column rows c).
Proof.
  intros H. unfold fill_column. rewrite Hfind, Htype. simpl.
  rewrite column_fill, valid_values_column.
  destruct (valid_values_numbers _ H) as [H1 H2].
  now rewrite (mean_of_numbers _ H1), H2.
Qed.

(** Filling the column [c] again changes nothing. *)
Lemma column_fill_column_again (fv : value) (vs : list value)
  (rows : list DataRow) :
  is_blank fv = false ->
  column rows c = map (filled fv) vs ->
  column (fill_column stats fill_mean rows c) c = map (filled fv) vs.
Proof.
  intros Hfv E. unfold fill_column. rewrite Hfind.
  rewrite column_fill, E. now apply filled_twice.
Qed.

(** A column of blanks and numbers has no [undefined] cell, filled or
    not. *)
Lemma blank_or_number_defined (vs : list value) (fv : value) :
  forallb (fun v => is_blank v || is_number v) vs = true ->
  is_undefined fv = false ->
  (forall v, In v vs -> is_undefined v = false)
  /\ (forall v, In v (map (filled fv) vs) -> is_undefined v = false).
Proof.
  intros H Hfv. rewrite forallb_forall in H.
  assert (Hvs : forall v, In v vs -> is_undefined v = false).
  { intros v Hv. specialize (H v Hv). destruct v; try reflexivity.
    discriminate H. }
  split; [exact Hvs|].
  intros v Hv. apply in_map_iff in Hv as (w & <- & Hw). unfold filled.
  destruct (is_blank w); [exact Hfv | now apply Hvs].
Qed.

Lemma fold_fill_column_mean (data : list DataRow) (targets : list string) :
  forallb (fun v => is_blank v || is_number v) (column data c) = true ->
  forall rows,
    let fv := VNum (arithmetic_mean (numbers_of (column data c))) in
    let result := fold_left (fill_column stats fill_mean) targets rows in
    (column rows c = map (filled fv) (column data c) ->
     column result c = map (filled fv) (column data c))
    /\ (column rows c = column data c ->
        In c targets ->
        column result c = map (filled fv) (column data c)).
Proof.
  intros Hdata.
  destruct (blank_or_number_defined (column data c)
              (VNum (arithmetic_mean (numbers_of (column data c)))) Hdata
              eq_refl) as [Hd Hf].
  induction targets as [|col targets IH]; intros rows; simpl.
  - split; [auto | intros _ []].
  - destruct (String.eqb col c) eqn:E.
    + apply String.eqb_eq in E. subst col.
      destruct (IH (fill_column stats fill_mean rows c)) as [IH1 _].
      split.
      * intros Hrows. apply IH1.
        now apply column_fill_column_again.
      * intros Hrows _. apply IH1.
        rewrite column_fill_column_mean; rewrite Hrows; auto.
    + destruct (IH (fill_column stats fill_mean rows col)) as [IH1 IH2].
      split.
      * intros Hrows. apply IH1.
        rewrite column_fill_column_other; [exact Hrows | exact E|].
        now rewrite Hrows.
      * intros Hrows [Hc|Hin].
        -- subst col. now rewrite String.eqb_refl in E.
        -- apply IH2; [|exact Hin].
           rewrite column_fill_column_other; [exact Hrows | exact E|].
           now rewrite Hrows.
Qed.

End FillFacts.

(** X12.  Where every non-blank cell of a number column is a number, [fill_mean]
    does what C1 says: before the deduplication each blank cell of the
    column holds the arithmetic mean of the numbers of the column and each
    other cell is untouched, and no returned row has a blank cell in the
    column. *)
Lemma fill_mean_numeric_cells :
  forall (data : list DataRow) (stats : list ColumnStat)
         (targets : list string) (c : string) (stat : ColumnStat),
    find (fun s => String.eqb (name s) c) stats = Some stat ->
    type stat = TNumber ->
    In c targets ->
    forallb (fun v => is_blank v || is_number v) (column data c) = true ->
    let options := mkCleaningOptions fill_mean targets in
    let mean := arithmetic_mean (numbers_of (column data c)) in
    column (clean_pass data stats options) c
    = map (fun v => if is_blank v then VNum mean else v) (column data c)
    /\ (forall row,
          In row (cleanData data stats options) ->
          is_blank (cell row c) = false).
Proof.
  intros data stats targets c stat Hfind Htype Hin Hdata options mean.
  assert (Hcol : column (clean_pass data stats options) c
                 = map (filled (VNum mean)) (column data c)).
  { unfold clean_pass. simpl.
    now apply (fold_fill_column_mean stats c stat Hfind Htype data targets
                 Hdata data). }
  split; [exact Hcol|].
  intros row Hrow. apply dedup_In in Hrow.
  assert (Hc : In (cell row c) (column (clean_pass data stats options) c)).
  { unfold column. apply in_map_iff. exists row. auto. }
  rewrite Hcol in Hc. apply in_map_iff in Hc as (v & <- & _).
  now apply filled_not_blank.
Qed.

(** C1, on a column with a text cell.  The column [a] of
    [a,b / x,1 / 1,1 / ... / 5,1 / ,1] holds the text [x], the numbers 1
    to 5 and one blank; five of its six values are numbers, so it is
    profiled as a number column.  [fill_mean] sums with [+], which
    concatenates from the text on: the sum is the string [0x12345], read
    back as the hexadecimal 74565, and the blank is filled with
    74565 / 6 = 12427.5, while the mean of the numbers of the column is 3. *)
Theorem fill_mean_mixed_column :
  let rows := parseCSV csv_mixed in
  let stats := analyzeColumns rows in
  let cleaned := cleanData rows stats (mkCleaningOptions fill_mean ["a"%string]) in
  map type stats = [TNumber; TNumber]
  /\ column rows "a"
     = [VStr "x"; VNum (of_Z 1); VNum (of_Z 2); VNum (of_Z 3);
        VNum (of_Z 4); VNum (of_Z 5); VNull]
  /\ fold_left js_add (valid_values rows "a") (VNum zero) = VStr "0x12345"
  /\ column cleaned "a"
     = [VStr "x"; VNum (of_Z 1); VNum (of_Z 2); VNum (of_Z 3);
        VNum (of_Z 4); VNum (of_Z 5); VNum (of_decimal false 124275 (-1))]
  /\ arithmetic_mean (numbers_of (column rows "a")) = of_Z 3.
Proof. vm_compute. repeat split. Qed.

(* ================================================================== *)
(** * Properties of the profiler *)

(** ** The rounding of a quotient of two counts

    [numberCount / values.length > 0.8] is evaluated in binary64.  The
    lemmas below follow the division and its rounding on two integers
    below 2^53 and show that the test agrees with the exact comparison
    [5 * numberCount > 4 * values.length] as long as
    [7 * values.length <= 2^53]. *)

Section RatioFacts.

Local Open Scope Z_scope.

Lemma digits2_pos_bounds (p : positive) (d : Z) :
  2 ^ (d - 1) <= Zpos p < 2 ^ d -> 1 <= d -> Zpos (digits2_pos p) = d.
Proof.
  revert d. induction p as [p IH|p IH|]; intros d [H1 H2] Hd; simpl digits2_pos.
  - rewrite Pos2Z.inj_succ.
    assert (d <> 1). { intros ->. simpl in H2. lia. }
    rewrite (IH (d - 1)); try lia.
    replace d with (Z.succ (d - 1)) in H2 by lia.
    replace (d - 1) with (Z.succ (d - 1 - 1)) in H1 by lia.
    rewrite Z.pow_succ_r in H1, H2 by lia. lia.
  - rewrite Pos2Z.inj_succ.
    assert (d <> 1). { intros ->. simpl in H1, H2. lia. }
    rewrite (IH (d - 1)); try lia.
    replace d with (Z.succ (d - 1)) in H2 by lia.
    replace (d - 1) with (Z.succ (d - 1 - 1)) in H1 by lia.
    rewrite Z.pow_succ_r in H1, H2 by lia. lia.
  - assert (d = 1); [|lia].
    destruct (Z.eq_dec d 1); [assumption|].
    assert (2 ^ 1 <= 2 ^ (d - 1)) by (apply Z.pow_le_mono_r; lia).
    simpl in H. lia.
Qed.

Lemma digits2_pos_spec (p : positive) :
  2 ^ (Zpos (digits2_pos p) - 1) <= Zpos p < 2 ^ Zpos (digits2_pos p).
Proof.
  induction p as [p IH|p IH|]; simpl digits2_pos.
  - rewrite Pos2Z.inj_succ. replace (Z.succ (Zpos (digits2_pos p)) - 1) with (Z.succ (Zpos (digits2_pos p) - 1)) by lia.
    rewrite !Z.pow_succ_r by lia. lia.
  - rewrite Pos2Z.inj_succ. replace (Z.succ (Zpos (digits2_pos p)) - 1) with (Z.succ (Zpos (digits2_pos p) - 1)) by lia.
    rewrite !Z.pow_succ_r by lia. lia.
  - simpl. lia.
Qed.

Lemma iter_xO (n a : positive) : Zpos (Pos.iter xO a n) = Zpos a * 2 ^ Zpos n.
Proof.
  induction n as [|n IH] using Pos.peano_ind.
  - simpl. lia.
  - rewrite Pos.iter_succ, Pos2Z.inj_succ, Z.pow_succ_r by lia.
    rewrite Pos2Z.inj_xO, IH. lia.
Qed.

Lemma shl_align_spec (m : positive) (e e' : Z) :
  e' <= e ->
  let (m', e'') := shl_align m e e' in
  e'' = e' /\ Zpos m' = Zpos m * 2 ^ (e - e').
Proof.
  intros H. unfold shl_align.
  destruct (e' - e) as [|d|d] eqn:E.
  - assert (e = e') by lia. subst. rewrite Z.sub_diag. simpl. lia.
  - lia.
  - split; [reflexivity|]. rewrite iter_xO. f_equal. f_equal. lia.
Qed.

(** A 53-bit mantissa with an exponent in range is left as it is. *)
Lemma shr_fexp_canonical (m : positive) (e : Z) (l : location) :
  Zpos (digits2_pos m) = 53 -> -1074 <= e ->
  shr_fexp prec emax (Zpos m) e l = (shr_record_of_loc (Zpos m) l, e).
Proof.
  intros Hd He. unfold shr_fexp, Zdigits2. rewrite Hd.
  unfold fexp, emin, prec, emax.
  replace (Z.max (53 + e - 53) (3 - 1024 - 53) - e) with 0 by lia.
  reflexivity.
Qed.

Lemma shr_fexp_shift1 (m : positive) (e : Z) (l : location) :
  Zpos (digits2_pos m) = 54 -> -1074 <= e ->
  shr_fexp prec emax (Zpos m) e l = (shr_1 (shr_record_of_loc (Zpos m) l), e + 1).
Proof.
  intros Hd He. unfold shr_fexp, Zdigits2. rewrite Hd.
  unfold fexp, emin, prec, emax.
  replace (Z.max (54 + e - 53) (3 - 1024 - 53) - e) with 1 by lia.
  reflexivity.
Qed.

Lemma shr_m_record_of_loc m l : shr_m (shr_record_of_loc m l) = m.
Proof. destruct l as [|[]]; reflexivity. Qed.

Lemma loc_of_record_of_loc m l : loc_of_shr_record (shr_record_of_loc m l) = l.
Proof. destruct l as [|[]]; reflexivity. Qed.

Lemma round_nearest_even_bounds m l :
  round_nearest_even m l = m \/ round_nearest_even m l = m + 1.
Proof.
  unfold round_nearest_even. destruct l as [|[]]; auto. destruct (Z.even m); auto.
Qed.

Lemma shr_m_shr_1 (m : positive) l :
  shr_m (shr_1 (shr_record_of_loc (Zpos m) l)) = Zpos m / 2.
Proof.
  rewrite <- Z.div2_div. destruct l as [|[]]; destruct m; reflexivity.
Qed.

(** The result of rounding a positive mantissa that has 53 bits after the first alignment. *)
Lemma finish_round (M : Z) (e : Z) :
  2 ^ 52 <= M <= 2 ^ 53 -> -1074 <= e -> e + 1 <= 971 ->
  (let '(mrs, e'') := shr_fexp prec emax M e loc_Exact in
   match shr_m mrs with
   | Z0 => S754_zero false
   | Zpos m => if Z.leb e'' (emax - prec) then S754_finite false m e'' else S754_infinity false
   | _ => S754_nan
   end) =
  if M <? 2 ^ 53 then S754_finite false (Z.to_pos M) e
  else S754_finite false (Z.to_pos (2 ^ 52)) (e + 1).
Proof.
  intros HM He He'. destruct M as [|m|m]; try (simpl in HM; lia).
  destruct (Z.ltb_spec (Zpos m) (2 ^ 53)) as [H|H].
  - rewrite shr_fexp_canonical; try assumption.
    + simpl shr_m. unfold emax, prec.
      destruct (Z.leb_spec e (1024 - 53)); [reflexivity | lia].
    + apply digits2_pos_bounds; lia.
  - assert (E : Zpos m = 2 ^ 53) by lia.
    assert (m = Z.to_pos (2 ^ 53)) by (rewrite <- E; reflexivity).
    subst m. rewrite shr_fexp_shift1; [|reflexivity|assumption].
    unfold emax, prec. simpl shr_m.
    destruct (Z.leb_spec (e + 1) (1024 - 53)); [reflexivity | lia].
Qed.

Lemma binary_round_aux_53 (q : positive) (e : Z) (l : location) :
  2 ^ 52 <= Zpos q < 2 ^ 53 -> -1074 <= e -> e + 1 <= 971 ->
  exists M, (M = Zpos q \/ M = Zpos q + 1)
    /\ binary_round_aux prec emax false (Zpos q) e l
       = if M <? 2 ^ 53 then S754_finite false (Z.to_pos M) e
         else S754_finite false (Z.to_pos (2 ^ 52)) (e + 1).
Proof.
  intros Hq He He'. unfold binary_round_aux.
  rewrite shr_fexp_canonical; [| apply digits2_pos_bounds; lia | assumption].
  rewrite shr_m_record_of_loc, loc_of_record_of_loc.
  exists (round_nearest_even (Zpos q) l). split.
  - apply round_nearest_even_bounds.
  - apply finish_round; try assumption.
    destruct (round_nearest_even_bounds (Zpos q) l) as [-> | ->]; lia.
Qed.

Lemma binary_round_aux_54 (q : positive) (e : Z) (l : location) :
  2 ^ 53 <= Zpos q < 2 ^ 54 -> -1074 <= e -> e + 2 <= 971 ->
  exists M, (M = Zpos q / 2 \/ M = Zpos q / 2 + 1)
    /\ binary_round_aux prec emax false (Zpos q) e l
       = if M <? 2 ^ 53 then S754_finite false (Z.to_pos M) (e + 1)
         else S754_finite false (Z.to_pos (2 ^ 52)) (e + 2).
Proof.
  intros Hq He He'. unfold binary_round_aux.
  rewrite shr_fexp_shift1; [| apply digits2_pos_bounds; lia | assumption].
  set (mrs := shr_1 (shr_record_of_loc (Zpos q) l)).
  assert (Hm : shr_m mrs = Zpos q / 2) by apply shr_m_shr_1.
  exists (round_nearest_even (shr_m mrs) (loc_of_shr_record mrs)). split.
  - rewrite <- Hm. apply round_nearest_even_bounds.
  - replace (e + 2) with (e + 1 + 1) by lia.
    apply finish_round; try lia.
    assert (2 ^ 52 <= Zpos q / 2 < 2 ^ 53).
    { split.
      - apply Z.div_le_lower_bound; lia.
      - apply Z.div_lt_upper_bound; lia. }
    destruct (round_nearest_even_bounds (shr_m mrs) (loc_of_shr_record mrs)) as [-> | ->]; lia.
Qed.

Lemma binary_round_aux_exact (q : positive) (e : Z) :
  2 ^ 52 <= Zpos q < 2 ^ 53 -> -1074 <= e -> e + 1 <= 971 ->
  binary_round_aux prec emax false (Zpos q) e loc_Exact = S754_finite false q e.
Proof.
  intros Hq He He'. unfold binary_round_aux.
  rewrite shr_fexp_canonical; [| apply digits2_pos_bounds; lia | assumption].
  simpl shr_m. simpl loc_of_shr_record. simpl round_nearest_even.
  rewrite (finish_round (Zpos q) e); try lia.
  destruct (Z.ltb_spec (Zpos q) (2 ^ 53)); [reflexivity | lia].
Qed.

Lemma of_Z_normal (p : positive) :
  Zpos p < 2 ^ 53 ->
  exists m d,
    1 <= d <= 53
    /\ 2 ^ (d - 1) <= Zpos p < 2 ^ d
    /\ Zpos m = Zpos p * 2 ^ (53 - d)
    /\ 2 ^ 52 <= Zpos m < 2 ^ 53
    /\ of_Z (Zpos p) = S754_finite false m (d - 53).
Proof.
  intros Hp. set (d := Zpos (digits2_pos p)).
  pose proof (digits2_pos_spec p) as Hd. fold d in Hd.
  assert (Hd1 : 1 <= d) by (unfold d; lia).
  assert (Hd53 : d <= 53).
  { destruct (Z.le_gt_cases d 53); [assumption|].
    assert (2 ^ 53 <= 2 ^ (d - 1)) by (apply Z.pow_le_mono_r; lia). lia. }
  unfold of_Z, binary_normalize, binary_round.
  assert (Hf : fexp prec emax (Zpos (digits2_pos p) + 0) = d - 53).
  { unfold fexp, emin, prec, emax. fold d. lia. }
  rewrite Hf.
  pose proof (shl_align_spec p 0 (d - 53)) as Hs.
  destruct (shl_align p 0 (d - 53)) as [m e']. destruct Hs as [-> Hm]; [lia|].
  replace (0 - (d - 53)) with (53 - d) in Hm by lia.
  assert (Hb : 2 ^ 52 <= Zpos m < 2 ^ 53).
  { rewrite Hm.
    replace (2 ^ 52) with (2 ^ (d - 1) * 2 ^ (53 - d))
      by (rewrite <- Z.pow_add_r by lia; f_equal; lia).
    replace (2 ^ 53) with (2 ^ d * 2 ^ (53 - d))
      by (rewrite <- Z.pow_add_r by lia; f_equal; lia).
    assert (0 < 2 ^ (53 - d)) by (apply Z.pow_pos_nonneg; lia).
    nia. }
  exists m, d. repeat split; try lia.
  apply binary_round_aux_exact; lia.
Qed.

Lemma div_eucl_div_mod a b : Z.div_eucl a b = (a / b, a mod b).
Proof. unfold Z.div, Z.modulo. destruct (Z.div_eucl a b); reflexivity. Qed.

Lemma div_normal (a b : positive) (ea eb : Z) :
  Zpos (digits2_pos a) = 53 -> Zpos (digits2_pos b) = 53 ->
  -1021 <= ea - eb ->
  div (S754_finite false a ea) (S754_finite false b eb)
  = binary_round_aux prec emax false (Zpos a * 2 ^ 53 / Zpos b)
      (ea - eb - 53)
      (new_location (Zpos b) (Zpos a * 2 ^ 53 mod Zpos b)).
Proof.
  intros Ha Hb He. unfold div, SFdiv, SFdiv_core_binary, Zdigits2.
  rewrite Ha, Hb.
  assert (Hf : fexp prec emax (53 + ea - (53 + eb)) = ea - eb - 53).
  { unfold fexp, emin, prec, emax. lia. }
  rewrite Hf. rewrite Z.min_l by lia.
  replace (ea - eb - (ea - eb - 53)) with 53 by lia.
  rewrite Z.shiftl_mul_pow2 by lia.
  rewrite div_eucl_div_mod. reflexivity.
Qed.

Lemma threshold_value : threshold = S754_finite false (Z.to_pos threshold_mantissa) (-53).
Proof. reflexivity. Qed.

Lemma gtb_threshold (m : positive) (e : Z) :
  gtb (S754_finite false m e) threshold
  = (-53 <? e) || ((e =? -53) && (threshold_mantissa <? Zpos m)).
Proof.
  rewrite threshold_value. unfold gtb, SFltb, SFcompare.
  destruct (Z.compare_spec (-53) e) as [E|E|E].
  - subst e. replace (-53 <? -53) with false by reflexivity.
    replace (-53 =? -53) with true by reflexivity. simpl orb. simpl andb.
    rewrite Pos.compare_cont_spec. unfold Z.ltb, threshold_mantissa. simpl Z.compare.
    simpl Z.to_pos. destruct (Pos.compare _ m); reflexivity.
  - destruct (Z.ltb_spec (-53) e); [reflexivity | lia].
  - destruct (Z.ltb_spec (-53) e); [lia|].
    destruct (Z.eqb_spec e (-53)); [lia | reflexivity].
Qed.

(** The quotient of the count test near the threshold. *)
Lemma quotient_below (K N : Z) :
  0 < N -> 5 * K <= 4 * N -> K * 2 ^ 53 / N <= threshold_mantissa - 1.
Proof.
  intros HN H. apply Z.lt_succ_r. apply Z.div_lt_upper_bound; [assumption|].
  unfold threshold_mantissa. replace (2 ^ 53) with 9007199254740992 by reflexivity. lia.
Qed.

Lemma quotient_above (K N : Z) :
  0 < N -> 7 * N <= 2 ^ 53 -> 4 * N < 5 * K -> threshold_mantissa + 1 <= K * 2 ^ 53 / N.
Proof.
  intros HN HB H. apply Z.div_le_lower_bound; [assumption|].
  unfold threshold_mantissa. replace (2 ^ 53) with 9007199254740992 in * by reflexivity. lia.
Qed.

Lemma round_53 (q : Z) (e : Z) (l : location) :
  2 ^ 52 <= q < 2 ^ 53 -> -1074 <= e -> e + 1 <= 971 ->
  exists M, (M = q \/ M = q + 1)
    /\ binary_round_aux prec emax false q e l
       = if M <? 2 ^ 53 then S754_finite false (Z.to_pos M) e
         else S754_finite false (Z.to_pos (2 ^ 52)) (e + 1).
Proof.
  intros Hq. destruct q as [|q|q]; try (simpl in Hq; lia).
  now apply binary_round_aux_53.
Qed.

Lemma round_54 (q : Z) (e : Z) (l : location) :
  2 ^ 53 <= q < 2 ^ 54 -> -1074 <= e -> e + 2 <= 971 ->
  exists M, (M = q / 2 \/ M = q / 2 + 1)
    /\ binary_round_aux prec emax false q e l
       = if M <? 2 ^ 53 then S754_finite false (Z.to_pos M) (e + 1)
         else S754_finite false (Z.to_pos (2 ^ 52)) (e + 2).
Proof.
  intros Hq. destruct q as [|q|q]; try (simpl in Hq; lia).
  now apply binary_round_aux_54.
Qed.

Lemma ratio_test (K N : positive) :
  Zpos K <= Zpos N -> 7 * Zpos N <= 2 ^ 53 ->
  gtb (div (of_Z (Zpos K)) (of_Z (Zpos N))) threshold
  = (4 * Zpos N <? 5 * Zpos K).
Proof.
  intros HKN HN.
  assert (H53 : 2 ^ 53 = 9007199254740992) by reflexivity.
  assert (H52 : 2 ^ 52 = 4503599627370496) by reflexivity.
  assert (H54 : 2 ^ 54 = 18014398509481984) by reflexivity.
  destruct (of_Z_normal K) as (a & dk & Hdk & HK & Ha & Hab & ->); [lia|].
  destruct (of_Z_normal N) as (b & dn & Hdn & HNb & Hb & Hbb & ->); [lia|].
  rewrite div_normal; try (apply digits2_pos_bounds; lia); [|lia].
  set (j := dn - dk).
  assert (Hj : 0 <= j).
  { unfold j. destruct (Z.le_gt_cases dk dn); [lia|].
    assert (2 ^ dn <= 2 ^ (dk - 1)) by (apply Z.pow_le_mono_r; lia). lia. }
  set (c := 2 ^ (53 - dn)).
  assert (Hc : 0 < c) by (apply Z.pow_pos_nonneg; lia).
  assert (Ha' : Zpos a = Zpos K * 2 ^ j * c).
  { rewrite Ha. unfold c. rewrite <- Z.mul_assoc, <- Z.pow_add_r by lia.
    f_equal. f_equal. unfold j. lia. }
  fold c in Hb.
  assert (Hpj : 0 < 2 ^ j) by (apply Z.pow_pos_nonneg; lia).
  assert (Hq : Zpos a * 2 ^ 53 / Zpos b = Zpos K * 2 ^ (53 + j) / Zpos N).
  { rewrite Ha', Hb, Z.pow_add_r by lia.
    replace (Zpos K * 2 ^ j * c * 2 ^ 53) with (Zpos K * (2 ^ 53 * 2 ^ j) * c) by ring.
    apply Z.div_mul_cancel_r; lia. }
  assert (Hlt : Zpos a < Zpos b <-> Zpos K * 2 ^ j < Zpos N).
  { rewrite Ha', Hb. split; intros H.
    - apply Z.mul_lt_mono_pos_r in H; assumption.
    - apply Z.mul_lt_mono_pos_r; assumption. }
  replace (dk - 53 - (dn - 53) - 53) with (- j - 53) by (unfold j; lia).
  set (Q := Zpos K * 2 ^ 53 / Zpos N).
  pose proof (quotient_below (Zpos K) (Zpos N) ltac:(lia)) as Hbelow.
  pose proof (quotient_above (Zpos K) (Zpos N) ltac:(lia) HN) as Habove.
  fold Q in Hbelow, Habove.
  (* the position of the ratio by the difference of the digit counts *)
  assert (Hcases :
            (j = 0 /\ Zpos K * 2 ^ (53 + j) / Zpos N = Q)
            \/ (j = 1 /\ Zpos K * 2 ^ (53 + j) / Zpos N / 2 = Q)
            \/ (2 <= j /\ 2 * Zpos K < Zpos N)).
  { destruct (Z.eq_dec j 0) as [E|E]; [left|right; destruct (Z.eq_dec j 1) as [E'|E']; [left|right]].
    - split; [assumption|]. rewrite E, Z.add_0_r. reflexivity.
    - split; [assumption|]. rewrite E'. unfold Q.
      rewrite Z.div_div by lia.
      replace (2 ^ (53 + 1)) with (2 ^ 53 * 2) by reflexivity.
      rewrite Z.mul_assoc. apply Z.div_mul_cancel_r; lia.
    - split; [lia|].
      assert (2 ^ (dk + 1) <= 2 ^ (dn - 1)) by (apply Z.pow_le_mono_r; unfold j in *; lia).
      rewrite Z.pow_add_r in H by lia. simpl (2 ^ 1) in H. lia. }
  destruct (Z.lt_ge_cases (Zpos a) (Zpos b)) as [Hab'|Hab'].
  - (* the quotient has 53 bits *)
    assert (HQb : 2 ^ 52 <= Zpos a * 2 ^ 53 / Zpos b < 2 ^ 53).
    { split.
      - apply Z.div_le_lower_bound; lia.
      - apply Z.div_lt_upper_bound; lia. }
    destruct (round_53 _ (- j - 53) (new_location (Zpos b) (Zpos a * 2 ^ 53 mod Zpos b)) HQb)
      as (M & HM & ->); try lia.
    rewrite Hq in HM, HQb. apply Hlt in Hab'.
    destruct (Z.ltb_spec M (2 ^ 53)) as [HM53|HM53]; rewrite gtb_threshold;
      try rewrite Z2Pos.id by lia;
      destruct Hcases as [[Ej Eq]|[[Ej Eq]|[Ej Hlow]]];
      try (rewrite Ej in *; simpl (2 ^ 0) in *; simpl (2 ^ 1) in *);
      repeat match goal with
        | |- context [Z.ltb ?x ?y] => destruct (Z.ltb_spec x y)
        | |- context [Z.eqb ?x ?y] => destruct (Z.eqb_spec x y)
        end; simpl; try reflexivity; unfold threshold_mantissa in *; try lia.
  - (* the quotient has 54 bits *)
    assert (HQb : 2 ^ 53 <= Zpos a * 2 ^ 53 / Zpos b < 2 ^ 54).
    { split.
      - apply Z.div_le_lower_bound; lia.
      - apply Z.div_lt_upper_bound; lia. }
    destruct (round_54 _ (- j - 53) (new_location (Zpos b) (Zpos a * 2 ^ 53 mod Zpos b)) HQb)
      as (M & HM & ->); try lia.
    rewrite Hq in HM, HQb.
    assert (Hge : Zpos N <= Zpos K * 2 ^ j) by (destruct (Z.le_gt_cases (Zpos N) (Zpos K * 2 ^ j)); [assumption | apply Hlt in H; lia]).
    assert (Hhalf : 2 ^ 52 <= Zpos K * 2 ^ (53 + j) / Zpos N / 2 < 2 ^ 53).
    { split.
      - apply Z.div_le_lower_bound; lia.
      - apply Z.div_lt_upper_bound; lia. }
    destruct (Z.ltb_spec M (2 ^ 53)) as [HM53|HM53]; rewrite gtb_threshold;
      try rewrite Z2Pos.id by lia;
      destruct Hcases as [[Ej Eq]|[[Ej Eq]|[Ej Hlow]]];
      try (rewrite Ej in *; simpl (2 ^ 0) in *; simpl (2 ^ 1) in *);
      repeat match goal with
        | |- context [Z.ltb ?x ?y] => destruct (Z.ltb_spec x y)
        | |- context [Z.eqb ?x ?y] => destruct (Z.eqb_spec x y)
        end; simpl; try reflexivity; unfold threshold_mantissa in *; try lia.
Qed.

End RatioFacts.

Section TypeInference.

Lemma infer_type_exact (k n : nat) :
  (k <= n)%nat ->
  (7 * Z.of_nat n <= 2 ^ 53)%Z ->
  infer_type k n = TNumber <-> (4 * n < 5 * k)%nat.
Proof.
  intros Hkn Hn. unfold infer_type, of_nat.
  destruct (Z.of_nat k) as [|K|K] eqn:EK; [| |lia].
  - (* no number: the quotient is 0, or NaN when there is no value *)
    assert (k = 0)%nat by lia. subst k.
    assert (Hq : gtb (div (of_Z 0) (of_Z (Z.of_nat n))) threshold = false).
    { destruct (Z.of_nat n) as [|N|N] eqn:EN; [reflexivity| |lia].
      destruct (of_Z_normal N) as (b & d & _ & _ & _ & _ & ->); [lia|].
      reflexivity. }
    rewrite Hq. split; [discriminate | lia].
  - destruct (Z.of_nat n) as [|N|N] eqn:EN; [lia| |lia].
    rewrite ratio_test by lia.
    destruct (Z.ltb_spec (4 * Z.pos N) (5 * Z.pos K)); split;
      try reflexivity; try discriminate; lia.
Qed.

(** The accumulators of the scan of a column are the counts of the
    column. *)
Lemma scan_column_fold (key : string) (data : list DataRow) :
  forall acc,
    let s := fold_left (scan_cell key) data acc in
    List.length (values s)
    = (List.length (values acc)
       + List.length (filter (fun v => negb (is_missing v)) (column data key)))%nat
    /\ numberCount s
       = (numberCount acc + List.length (filter is_number (column data key)))%nat.
Proof.
  induction data as [|row data IH]; intros acc; simpl.
  - split; lia.
  - destruct (IH (scan_cell key acc row)) as [H1 H2].
    rewrite H1, H2. unfold scan_cell.
    destruct (cell row key) as [x|s| | |k0]; [|destruct s| | |]; simpl;
      rewrite ?length_app; simpl; split; lia.
Qed.

Lemma scan_column_counts (data : list DataRow) (key : string) :
  List.length (values (scan_column data key)) = non_missing_count data key
  /\ numberCount (scan_column data key) = numeric_count data key.
Proof.
  destruct (scan_column_fold key data (mkColumnScan 0 [] 0)) as [H1 H2].
  split; [exact H1 | exact H2].
Qed.

Lemma numeric_le_non_missing (data : list DataRow) (key : string) :
  (numeric_count data key <= non_missing_count data key)%nat.
Proof.
  unfold numeric_count, non_missing_count.
  induction (column data key) as [|v vs IH]; simpl; [lia|].
  destruct v as [x|s| | |k0]; simpl; try lia. destruct s; simpl; lia.
Qed.

Lemma non_missing_le_length (data : list DataRow) (key : string) :
  (non_missing_count data key <= List.length data)%nat.
Proof.
  unfold non_missing_count, column.
  rewrite <- (length_map (fun row => cell row key) data).
  apply filter_length_le.
Qed.

End TypeInference.

(** C4.  For every row sequence (of fewer than 2^32 rows, the bound of a
    JavaScript array) and every entry of its profile: the column is
    classified [number] exactly when five times the count of its numeric
    values exceeds four times the count of its non-missing values, that
    is, when the numeric values are strictly more than 0.8 of the
    non-missing ones; it is classified [string] otherwise, and in
    particular when it has no non-missing value. *)
Theorem analyzeColumns_type :
  forall (data : list DataRow) (stat : ColumnStat),
    (Z.of_nat (List.length data) < 2 ^ 32)%Z ->
    In stat (analyzeColumns data) ->
    let numeric := numeric_count data (name stat) in
    let present := non_missing_count data (name stat) in
    (type stat = TNumber <-> 4 * present < 5 * numeric)
    /\ (type stat = TString <-> 5 * numeric <= 4 * present)
    /\ (present = 0 -> type stat = TString).
Proof.
  intros data stat Hlen Hin numeric present.
  assert (Hstat : exists key, stat = analyzeColumn data key).
  { unfold analyzeColumns in Hin. destruct data as [|first rest]; [destruct Hin|].
    apply in_map_iff in Hin as (key & <- & _). now exists key. }
  destruct Hstat as (key & ->). simpl name in *. simpl type.
  destruct (scan_column_counts data key) as [Hv Hn]. rewrite Hv, Hn.
  fold numeric present.
  assert (Hle : numeric <= present) by apply numeric_le_non_missing.
  assert (Hp : present <= List.length data) by apply non_missing_le_length.
  assert (Hexact : infer_type numeric present = TNumber
                   <-> 4 * present < 5 * numeric).
  { apply infer_type_exact; [exact Hle|].
    change (2 ^ 32)%Z with 4294967296%Z in Hlen.
    change (2 ^ 53)%Z with 9007199254740992%Z. lia. }
  split; [exact Hexact|]. split.
  - destruct (infer_type numeric present); split; intros H;
      try reflexivity; try discriminate; try lia.
    + assert (4 * present < 5 * numeric) by (apply Hexact; reflexivity). lia.
    + destruct (Nat.lt_ge_cases (4 * present) (5 * numeric)) as [Hlt|Hge];
        [apply Hexact in Hlt; discriminate | lia].
  - intros H0. destruct (infer_type numeric present) eqn:E; [|reflexivity].
    assert (4 * present < 5 * numeric) by (apply Hexact; reflexivity). lia.
Qed.

Lemma analyzeColumns_type_witness :
  let data := parseCSV csv_mixed in
  let stat := analyzeColumn data "a" in
  let data' := parseCSV csv_proto_column in
  let stat' := analyzeColumn data' proto_key in
  (type stat = TNumber <->
   4 * non_missing_count data "a" < 5 * numeric_count data "a")
  /\ (non_missing_count data' proto_key = 2
      /\ numeric_count data' proto_key = 1
      /\ type stat' = TString).
Proof.
  split.
  - destruct (analyzeColumns_type (parseCSV csv_mixed)
                (analyzeColumn (parseCSV csv_mixed) "a"))
      as (H & _).
    + vm_compute. reflexivity.
    + vm_compute. left. reflexivity.
    + exact H.
  - split; [reflexivity|]. split; [reflexivity|].
    destruct (analyzeColumns_type (parseCSV csv_proto_column)
                (analyzeColumn (parseCSV csv_proto_column) proto_key))
      as (_ & H & _).
    + vm_compute. reflexivity.
    + vm_compute. left. reflexivity.
    + apply H. vm_compute. repeat constructor.
Defined.

(* ================================================================== *)
(** * Further properties of the parser *)

Section SplitFacts.

Lemma split_length (sep : ascii) (s : string) :
  List.length (JSString.split sep s) = S (count_char sep s).
Proof.
  induction s as [|c r IH]; simpl; [reflexivity|].
  destruct (Ascii.eqb c sep); simpl.
  - now rewrite IH.
  - destruct (JSString.split sep r) as [|h t]; simpl in *; [discriminate|].
    exact IH.
Qed.


End SplitFacts.

(** X1.  A text that holds no line break once trimmed (the empty text, a header
    alone) parses to no row. *)
Theorem parseCSV_single_line :
  forall csvText : string,
    count_char newline (JSString.trim csvText) = 0 ->
    parseCSV csvText = [].
Proof.
  intros csvText H. unfold parseCSV.
  pose proof (split_length newline (JSString.trim csvText)) as Hlen.
  rewrite H in Hlen.
  destruct (JSString.split newline (JSString.trim csvText)) as [|h [|l ls]];
    try reflexivity.
  discriminate Hlen.
Qed.

Lemma parseCSV_single_line_witness : parseCSV "a,b,c" = [].
Proof. apply (parseCSV_single_line "a,b,c"). reflexivity. Defined.


Lemma cast_parsed_cell (val : string) : parsed_cell (cast val).
Proof.
  unfold cast. destruct (isNaN (JSString.parseFloat val)) eqn:E.
  - destruct val as [|c r]; simpl; [exact I|]. split; [discriminate|exact E].
  - exact E.
Qed.

(** X3.  Every cell of a parsed row is [null], a number that is not NaN, or a
    non-empty text in which [parseFloat] reads no number: never the empty
    string, never [undefined]. *)
Theorem parseCSV_cells :
  forall (csvText : string) (row : DataRow) (k : string) (v : value),
    In row (parseCSV csvText) ->
    In (k, v) (own row) ->
    parsed_cell v.
Proof.
  intros csvText row k v Hrow Hkv.
  destruct (in_parseCSV _ _ Hrow) as (line & _ & _ & ->).
  destruct (in_make_row _ _ _ _ Hkv) as (i & val & _ & _ & ->).
  apply cast_parsed_cell.
Qed.

Lemma parseCSV_cells_witness : parsed_cell (VStr "foo").
Proof.
  apply (parseCSV_cells csv_injected
           (literal [("x"%string, VStr "foo"); ("y"%string, VNum (of_Z 1))])
           "x").
  - vm_compute. left. reflexivity.
  - left. reflexivity.
Defined.

Section UniformKeys.

Lemma has_own_same_keys {A B} (o : object A) (o' : object B) k :
  keys o = keys o' -> has_own o k = has_own o' k.
Proof.
  unfold has_own. revert o'.
  induction o as [|[k0 v0] o IH]; intros [|[k1 v1] o'] H; simpl in *;
    try discriminate; [reflexivity|].
  inversion H; subst. destruct (String.eqb k1 k); [reflexivity|].
  now apply IH.
Qed.

Lemma insert_index_same_keys {A B} i k (v : A) (v' : B) o o' :
  keys o = keys o' ->
  keys (insert_index i k v o) = keys (insert_index i k v' o').
Proof.
  revert o'.
  induction o as [|[k0 v0] o IH]; intros [|[k1 v1] o'] H; simpl in *;
    try discriminate; [reflexivity|].
  inversion H; subst.
  destruct (array_index k1) as [j|]; [destruct (i <? j)%Z|]; simpl;
    try (now rewrite H).
  f_equal. now apply IH.
Qed.

Lemma define_same_keys {A B} k (v : A) (v' : B) o o' :
  keys o = keys o' -> keys (define o k v) = keys (define o' k v').
Proof.
  intros H. unfold define. rewrite (has_own_same_keys o o' k H).
  destruct (has_own o' k).
  - now rewrite !keys_update.
  - destruct (array_index k).
    + now apply insert_index_same_keys.
    + unfold keys in *. rewrite !map_app, H. reflexivity.
Qed.

(** Without a header [__proto__], the keys of a built row depend on the
    headers alone. *)
Lemma make_row_fold_same_keys (headers : list string) :
  forall (vals vals' : list string) (st st' : plain),
    ~ In proto_key headers ->
    List.length vals = List.length vals' ->
    keys (own st) = keys (own st') ->
    keys (own (fold_left (fun st hv => assign st (fst hv) (cast (snd hv)))
                 (combine headers vals) st))
    = keys (own (fold_left (fun st hv => assign st (fst hv) (cast (snd hv)))
                   (combine headers vals') st')).
Proof.
  induction headers as [|h hs IH]; intros vals vals' [b o] [b' o'] Hp Hlen Hk;
    simpl in *; [exact Hk|].
  destruct vals as [|v vs], vals' as [|v' vs']; simpl in *;
    try discriminate; [exact Hk|].
  assert (Hh : String.eqb h proto_key = false).
  { apply String.eqb_neq. intros ->. tauto. }
  rewrite !(assign_other _ _ _ Hh). simpl. apply IH; [tauto | congruence|].
  simpl. now apply define_same_keys.
Qed.

Lemma make_row_keys_spec (headers vals : list string) :
  List.length vals = List.length headers ->
  ~ In proto_key headers ->
  NoDup (keys (own (make_row headers vals)))
  /\ (forall k, In k (keys (own (make_row headers vals))) <-> In k headers).
Proof.
  intros Hlen Hp. unfold make_row.
  destruct (make_row_fold_keys (combine headers vals) (literal [])) as [H1 H2].
  - now rewrite map_fst_combine.
  - constructor.
  - split; [exact H1|]. intros k. rewrite H2, map_fst_combine by assumption.
    simpl. tauto.
Qed.

End UniformKeys.

(** X4.  Where no header is [__proto__], all the rows of a parse have the same
    keys in the same order; the keys are pairwise distinct and are the
    header names. *)
Theorem parseCSV_uniform_keys :
  forall (csvText : string) (row row' : DataRow),
    ~ In proto_key (headers_of csvText) ->
    In row (parseCSV csvText) ->
    In row' (parseCSV csvText) ->
    keys (own row) = keys (own row')
    /\ NoDup (keys (own row))
    /\ (forall k, In k (keys (own row)) <-> In k (headers_of csvText)).
Proof.
  intros csvText row row' Hp Hrow Hrow'.
  destruct (in_parseCSV _ _ Hrow) as (line & _ & Hgood & ->).
  destruct (in_parseCSV _ _ Hrow') as (line' & _ & Hgood' & ->).
  unfold good_line in Hgood, Hgood'.
  apply andb_prop in Hgood as [_ Hlen]. apply Nat.eqb_eq in Hlen.
  apply andb_prop in Hgood' as [_ Hlen']. apply Nat.eqb_eq in Hlen'.
  split.
  - unfold make_row. apply make_row_fold_same_keys;
      [exact Hp | congruence | reflexivity].
  - now apply make_row_keys_spec.
Qed.

Lemma parseCSV_uniform_keys_witness :
  let row := literal [("x"%string, VStr "foo"); ("y"%string, VNum (of_Z 1))] in
  let row' := literal [("x"%string, VStr "bar"); ("y"%string, VNull)] in
  keys (own row) = keys (own row')
  /\ NoDup (keys (own row))
  /\ (forall k, In k (keys (own row)) <-> In k (headers_of csv_injected)).
Proof.
  apply (parseCSV_uniform_keys csv_injected).
  - vm_compute. intros [H|[H|[]]]; discriminate H.
  - vm_compute. left. reflexivity.
  - vm_compute. right. left. reflexivity.
Defined.

(* ================================================================== *)
(** * Further properties of the profiler *)

Section ScanFacts.

Lemma scan_column_fold_cells (key : string) (data : list DataRow) :
  forall acc,
    let s := fold_left (scan_cell key) data acc in
    values s
    = values acc ++ filter (fun v => negb (is_missing v)) (column data key)
    /\ missing s
       = missing acc + List.length (filter is_missing (column data key)).
Proof.
  induction data as [|row data IH]; intros acc; simpl.
  - split; [now rewrite app_nil_r | lia].
  - destruct (IH (scan_cell key acc row)) as [H1 H2].
    rewrite H1, H2. unfold scan_cell.
    destruct (is_missing (cell row key)); simpl.
    + split; [reflexivity | lia].
    + split; [now rewrite <- app_assoc | lia].
Qed.

Lemma filter_partition_length {A} (f : A -> bool) (l : list A) :
  List.length (filter f l) + List.length (filter (fun x => negb (f x)) l)
  = List.length l.
Proof.
  induction l as [|x l IH]; simpl; [reflexivity|].
  destruct (f x); simpl; lia.
Qed.

Lemma set_size_le (vs : list value) : set_size vs <= List.length vs.
Proof.
  induction vs as [|v vs IH]; simpl; [lia|].
  destruct (existsb (same_value_zero v) vs); lia.
Qed.

Lemma set_size_zero (vs : list value) : set_size vs = 0 <-> vs = [].
Proof.
  induction vs as [|v vs IH]; simpl; [tauto|].
  destruct (existsb (same_value_zero v) vs) eqn:E.
  - split; [|discriminate]. intros H. apply IH in H. subst vs. discriminate E.
  - split; discriminate.
Qed.

End ScanFacts.

(** X6.  For every entry of a profile: the missing cells and the non-missing
    cells of the column make up the rows; the sample is the first five
    non-missing cells in row order; the unique count is at most the count
    of non-missing cells, and is zero exactly when there is none; so
    missingCount + uniqueCount never exceeds the number of rows. *)
Theorem analyzeColumns_counts :
  forall (data : list DataRow) (stat : ColumnStat),
    In stat (analyzeColumns data) ->
    let present :=
      filter (fun v => negb (is_missing v)) (column data (name stat)) in
    missingCount stat + List.length present = List.length data
    /\ sample stat = firstn 5 present
    /\ uniqueCount stat <= List.length present
    /\ (uniqueCount stat = 0 <-> present = [])
    /\ missingCount stat + uniqueCount stat <= List.length data.
Proof.
  intros data stat Hin present.
  assert (Hstat : exists key, stat = analyzeColumn data key).
  { unfold analyzeColumns in Hin. destruct data as [|first rest]; [destruct Hin|].
    apply in_map_iff in Hin as (key & <- & _). now exists key. }
  destruct Hstat as (key & ->). unfold present. simpl.
  destruct (scan_column_fold_cells key data (mkColumnScan 0 [] 0)) as [Hv Hm].
  simpl in Hv, Hm. fold (scan_column data key) in Hv, Hm.
  rewrite Hv, Hm.
  pose proof (filter_partition_length is_missing (column data key)) as Hp.
  unfold column in Hp at 3. rewrite length_map in Hp.
  pose proof (set_size_le
                (filter (fun v => negb (is_missing v)) (column data key))).
  repeat split; try lia; apply set_size_zero.
Qed.

Lemma analyzeColumns_counts_witness :
  let data := parseCSV csv_gaps in
  let stat := analyzeColumn data "c" in
  let present := filter (fun v => negb (is_missing v)) (column data "c") in
  let data' := parseCSV csv_proto_column in
  let stat' := analyzeColumn data' proto_key in
  let present' :=
    filter (fun v => negb (is_missing v)) (column data' proto_key) in
  (missingCount stat + List.length present = List.length data
   /\ sample stat = firstn 5 present
   /\ uniqueCount stat <= List.length present
   /\ (uniqueCount stat = 0 <-> present = [])
   /\ missingCount stat + uniqueCount stat <= List.length data)
  /\ (present' = [VNum (of_Z 5); VMember proto_key]
      /\ missingCount stat' + List.length present' = List.length data'
      /\ sample stat' = firstn 5 present'
      /\ uniqueCount stat' <= List.length present'
      /\ (uniqueCount stat' = 0 <-> present' = [])
      /\ missingCount stat' + uniqueCount stat' <= List.length data').
Proof.
  split.
  - apply (analyzeColumns_counts (parseCSV csv_gaps)
             (analyzeColumn (parseCSV csv_gaps) "c")).
    vm_compute. left. reflexivity.
  - split; [reflexivity|].
    apply (analyzeColumns_counts (parseCSV csv_proto_column)
             (analyzeColumn (parseCSV csv_proto_column) proto_key)).
    vm_compute. left. reflexivity.
Defined.

(** X7.  The profile of a parse, where no header is [__proto__]: its entries
    are named after the header names, each name once. *)
Theorem analyzeColumns_names :
  forall csvText : string,
    ~ In proto_key (headers_of csvText) ->
    parseCSV csvText <> [] ->
    let names := map name (analyzeColumns (parseCSV csvText)) in
    NoDup names
    /\ (forall k, In k names <-> In k (headers_of csvText)).
Proof.
  intros csvText Hp Hne names. unfold names.
  destruct (parseCSV csvText) as [|row rest] eqn:E; [contradiction|].
  assert (Hin : In row (parseCSV csvText)) by (rewrite E; now left).
  destruct (in_parseCSV _ _ Hin) as (line & _ & Hgood & ->).
  unfold good_line in Hgood. apply andb_prop in Hgood as [_ Hlen].
  apply Nat.eqb_eq in Hlen.
  unfold analyzeColumns. rewrite map_map. simpl. rewrite map_id.
  now apply make_row_keys_spec.
Qed.

Lemma analyzeColumns_names_witness :
  let names := map name (analyzeColumns (parseCSV csv_gaps)) in
  NoDup names /\ (forall k, In k names <-> In k (headers_of csv_gaps)).
Proof.
  apply (analyzeColumns_names csv_gaps).
  - vm_compute. intros [H|[H|[]]]; discriminate H.
  - vm_compute. discriminate.
Defined.

(* ================================================================== *)
(** * Further properties of the cleaner *)

Section ModeFacts.

Lemma count_key_app (k : string) (vs ws : list value) :
  count_key k (vs ++ ws) = count_key k vs + count_key k ws.
Proof. unfold count_key. now rewrite filter_app, length_app. Qed.

Lemma mode_step_invariant (seen : list value) (st : ModeScan) (v : value) :
  is_inherited (JSValue.to_string v) = false ->
  mode_invariant seen st ->
  mode_invariant (seen ++ [v]) (mode_step st v).
Proof.
  intros Hv (Hc & Hmax & Hzero & Hmode). unfold mode_step. rewrite Hv.
  assert (Hne : seen ++ [v] <> []) by (destruct seen; discriminate).
  set (k := JSValue.to_string v).
  assert (Hk : forall k',
             count_key k' (seen ++ [v])
             = count_key k' seen + (if String.eqb k k' then 1 else 0)).
  { intros k'. rewrite count_key_app. unfold count_key at 2. simpl.
    fold k. destruct (String.eqb k k'); reflexivity. }
  assert (Hcounts : forall k',
             match lookup (define (counts st) k
                             (S match lookup (counts st) k with
                                | Some n => n
                                | None => 0
                                end)) k'
             with Some n => n | None => 0 end
             = count_key k' (seen ++ [v])).
  { intros k'. rewrite lookup_define, Hk.
    destruct (String.eqb k k') eqn:E.
    - apply String.eqb_eq in E. subst k'. rewrite Hc. lia.
    - rewrite Hc. lia. }
  rewrite (Hc k). rewrite (Hc k) in Hcounts.
  destruct (Nat.ltb (maxCount st) (S (count_key k seen))) eqn:E.
  - apply Nat.ltb_lt in E. split; [exact Hcounts|]. simpl. split.
    + intros k'. rewrite Hk. specialize (Hmax k').
      destruct (String.eqb k k') eqn:E'.
      * apply String.eqb_eq in E'. subst k'. lia.
      * lia.
    + split; [intros H; now contradiction Hne|].
      intros _. split; [apply in_or_app; right; now left|].
      fold k. rewrite Hk, String.eqb_refl. lia.
  - apply Nat.ltb_ge in E. split; [exact Hcounts|]. simpl.
    assert (Hseen : seen <> []).
    { intros H. specialize (Hzero H). lia. }
    destruct (Hmode Hseen) as [Hin Hcount]. split.
    + intros k'. rewrite Hk. specialize (Hmax k').
      destruct (String.eqb k k') eqn:E'.
      * apply String.eqb_eq in E'. subst k'. lia.
      * lia.
    + split; [intros H; now contradiction Hne|].
      intros _. split; [apply in_or_app; now left|].
      rewrite Hk. destruct (String.eqb k (JSValue.to_string (mode st))) eqn:E'.
      * apply String.eqb_eq in E'. rewrite <- E' in Hcount. lia.
      * lia.
Qed.

Lemma mode_fold_invariant (vs : list value) :
  forall (seen : list value) (st : ModeScan),
    (forall v, In v vs -> is_inherited (JSValue.to_string v) = false) ->
    mode_invariant seen st ->
    mode_invariant (seen ++ vs) (fold_left mode_step vs st).
Proof.
  induction vs as [|v vs IH]; intros seen st Hvs Hinv; simpl.
  - now rewrite app_nil_r.
  - replace (seen ++ v :: vs) with ((seen ++ [v]) ++ vs)
      by (now rewrite <- app_assoc).
    apply IH.
    + intros w Hw. apply Hvs. now right.
    + apply mode_step_invariant; [apply Hvs; now left | exact Hinv].
Qed.

(** The mode the loop ends with is the one it started with or one of the
    values. *)
Lemma mode_fold_origin (vs : list value) :
  forall st,
    mode (fold_left mode_step vs st) = mode st
    \/ In (mode (fold_left mode_step vs st)) vs.
Proof.
  induction vs as [|v vs IH]; intros st; simpl; [now left|].
  destruct (IH (mode_step st v)) as [H|H]; [|right; now right].
  rewrite H. unfold mode_step.
  destruct (is_inherited (JSValue.to_string v)); [now left|].
  destruct (Nat.ltb _ _); simpl; [right; now left | now left].
Qed.

Lemma calculateMode_origin (vs : list value) :
  (vs = [] /\ calculateMode vs = VUndef) \/ In (calculateMode vs) vs.
Proof.
  unfold calculateMode. destruct vs as [|v vs]; [left; auto|]. right.
  destruct (mode_fold_origin (v :: vs) (mkModeScan [] 0 (nth 0 (v :: vs) VUndef)))
    as [H|H]; [|exact H].
  rewrite H. now left.
Qed.

End ModeFacts.

(** X9.  [calculateMode] on a list that is not empty returns one of its values;
    where no value's string form names a member of [Object.prototype], no
    string form occurs more often in the list than that of the returned
    value. *)
Theorem calculateMode_most_frequent :
  forall vs : list value,
    vs <> [] ->
    In (calculateMode vs) vs
    /\ ((forall v, In v vs -> is_inherited (JSValue.to_string v) = false) ->
        forall v,
          In v vs ->
          count_key (JSValue.to_string v) vs
          <= count_key (JSValue.to_string (calculateMode vs)) vs).
Proof.
  intros vs Hne. split.
  - destruct (calculateMode_origin vs) as [[H _]|H]; [contradiction | exact H].
  - intros Hvs v Hv.
    assert (Hinit : mode_invariant [] (mkModeScan [] 0 (nth 0 vs VUndef))).
    { split; [reflexivity|]. split; [intros k; apply Nat.le_refl|].
      split; [reflexivity|]. intros H. now contradiction H. }
    destruct (mode_fold_invariant vs [] _ Hvs Hinit) as (_ & Hmax & _ & Hmode).
    simpl in Hmax, Hmode. destruct (Hmode Hne) as [_ Hcount].
    unfold calculateMode. rewrite Hcount. apply Hmax.
Qed.

Lemma calculateMode_most_frequent_witness :
  let vs := [VNum (of_Z 2); VStr "x"; VNum (of_Z 2)] in
  In (calculateMode vs) vs
  /\ ((forall v, In v vs -> is_inherited (JSValue.to_string v) = false) ->
      forall v,
        In v vs ->
        count_key (JSValue.to_string v) vs
        <= count_key (JSValue.to_string (calculateMode vs)) vs).
Proof.
  apply (calculateMode_most_frequent [VNum (of_Z 2); VStr "x"; VNum (of_Z 2)]).
  discriminate.
Defined.

Section SortFacts.

Lemma insert_sorted_perm (x : value) (l : list value) :
  Permutation (insert_sorted x l) (x :: l).
Proof.
  induction l as [|y l IH]; simpl; [reflexivity|].
  destruct (sorts_after y x); [reflexivity|].
  rewrite IH. apply perm_swap.
Qed.

Lemma fold_insert_sorted_perm (l : list value) :
  forall acc,
    Permutation (fold_left (fun acc x => insert_sorted x acc) l acc) (l ++ acc).
Proof.
  induction l as [|x l IH]; intros acc; simpl; [reflexivity|].
  rewrite IH, insert_sorted_perm. symmetry. apply Permutation_middle.
Qed.

Lemma filter_split_perm {A} (f : A -> bool) (l : list A) :
  Permutation (filter (fun x => negb (f x)) l ++ filter f l) l.
Proof.
  induction l as [|x l IH]; simpl; [reflexivity|].
  destruct (f x); simpl.
  - rewrite <- Permutation_middle. now constructor.
  - now constructor.
Qed.

Lemma sort_values_perm (vs : list value) : Permutation (sort_values vs) vs.
Proof.
  unfold sort_values. rewrite fold_insert_sorted_perm, app_nil_r.
  apply filter_split_perm.
Qed.

(** The median is a number, or one of the values. *)
Lemma calculateMedian_origin (vs : list value) :
  (exists x, calculateMedian vs = VNum x) \/ In (calculateMedian vs) vs.
Proof.
  unfold calculateMedian. destruct vs as [|v vs]; [left; eauto|].
  set (l := v :: vs).
  pose proof (sort_values_perm l) as Hp.
  destruct (Nat.eqb (Nat.modulo (List.length (sort_values l)) 2) 0);
    [left; eauto|].
  right. apply (Permutation_in _ Hp). apply nth_In.
  rewrite (Permutation_length Hp). unfold l. simpl List.length.
  apply Nat.div_lt; lia.
Qed.

(** The fill value is a number, a value of the column, or [undefined] when
    the column has no value. *)
Lemma fill_value_origin (m : CleaningMethod) (t : ColumnType)
  (vs : list value) :
  (exists x, fill_value m t vs = VNum x)
  \/ (vs = [] /\ fill_value m t vs = VUndef)
  \/ In (fill_value m t vs) vs.
Proof.
  assert (Hmode : (exists x, calculateMode vs = VNum x)
                  \/ (vs = [] /\ calculateMode vs = VUndef)
                  \/ In (calculateMode vs) vs).
  { destruct (calculateMode_origin vs); auto. }
  assert (Hmedian : (exists x, calculateMedian vs = VNum x)
                    \/ (vs = [] /\ calculateMedian vs = VUndef)
                    \/ In (calculateMedian vs) vs).
  { destruct (calculateMedian_origin vs); auto. }
  unfold fill_value. destruct t; [|exact Hmode].
  destruct m; try exact Hmode; try exact Hmedian.
  left. unfold mean_of. eauto.
Qed.

End SortFacts.

Section CleaningFacts.

Lemma CleaningMethod_eq_dec (m m' : CleaningMethod) : {m = m'} + {m <> m'}.
Proof. decide equality. Defined.

Lemma blank_has_own (row : DataRow) (c : string) :
  is_blank (cell row c) = true -> has_own (own row) c = true.
Proof.
  unfold cell, get, has_own. destruct (lookup (own row) c); [reflexivity|].
  destruct (negb (bare row) && is_inherited c); discriminate.
Qed.

Lemma keys_fill_row (col : string) (fv : value) (row : DataRow) :
  keys (own (fill_row col fv row)) = keys (own row).
Proof.
  unfold fill_row. destruct (is_blank (cell row col)) eqn:E; [|reflexivity].
  unfold spread_with, literal, define. simpl.
  rewrite (blank_has_own _ _ E). apply keys_update.
Qed.

Lemma lookup_fill_row (col : string) (fv : value) (row : DataRow)
  (c : string) :
  lookup (own (fill_row col fv row)) c
  = if String.eqb col c && is_blank (cell row col) then Some fv
    else lookup (own row) c.
Proof.
  unfold fill_row. destruct (is_blank (cell row col)).
  - simpl. rewrite lookup_define. rewrite andb_true_r. reflexivity.
  - now rewrite andb_false_r.
Qed.

Lemma bare_fill_row (col : string) (fv : value) (row : DataRow) :
  bare row = false -> bare (fill_row col fv row) = false.
Proof.
  intros H. unfold fill_row. destruct (is_blank (cell row col)); auto.
Qed.

Lemma cleaned_from_refl (targets : list string) (row : DataRow) :
  cleaned_from targets row row.
Proof. repeat split; auto. Qed.

Lemma cleaned_from_fill_row (targets : list string) (col : string)
  (fv : value) (row row' : DataRow) :
  In col targets ->
  cleaned_from targets row row' ->
  cleaned_from targets row (fill_row col fv row').
Proof.
  intros Hcol (Hk & Hb & Hc). split; [now rewrite keys_fill_row|]. split.
  - intros H. apply bare_fill_row. auto.
  - intros c H. rewrite lookup_fill_row.
    destruct (String.eqb col c) eqn:E; simpl; [|now apply Hc].
    apply String.eqb_eq in E. subst c.
    destruct (is_blank (cell row' col)) eqn:Eb; [|now apply Hc].
    destruct H as [H|H]; [|contradiction]. exfalso.
    pose proof (Hc col (or_introl H)) as Hl.
    pose proof (blank_has_own _ _ Eb) as Ho.
    unfold has_own in Ho. unfold cell, get in Eb, H. rewrite Hl in Eb, Ho.
    destruct (lookup (own row) col); [congruence | discriminate Ho].
Qed.

Lemma fill_column_cleaned_from (stats : list ColumnStat) (m : CleaningMethod)
  (targets : list string) (col : string) (data rows : list DataRow) :
  In col targets ->
  Forall2 (cleaned_from targets) data rows ->
  Forall2 (cleaned_from targets) data (fill_column stats m rows col).
Proof.
  intros Hcol H. unfold fill_column.
  destruct (find _ stats) as [stat|]; [|exact H].
  generalize (fill_value m (type stat) (valid_values rows col)). intros fv.
  induction H as [|row row' data rows Hr H IH]; simpl; constructor.
  - now apply cleaned_from_fill_row.
  - exact IH.
Qed.

Lemma fold_fill_column_cleaned_from (stats : list ColumnStat)
  (m : CleaningMethod) (targets cols : list string) :
  forall data rows,
    incl cols targets ->
    Forall2 (cleaned_from targets) data rows ->
    Forall2 (cleaned_from targets) data
            (fold_left (fill_column stats m) cols rows).
Proof.
  induction cols as [|col cols IH]; intros data rows Hincl H; simpl;
    [exact H|].
  apply IH.
  - intros c Hc. apply Hincl. now right.
  - apply fill_column_cleaned_from; [apply Hincl; now left | exact H].
Qed.

Lemma Forall2_refl_list {A} (R : A -> A -> Prop) (l : list A) :
  (forall x, R x x) -> Forall2 R l l.
Proof. intros H. induction l; constructor; auto. Qed.

(** Before the deduplication a fill pass has one row for each row of the
    input, in order, each cleaned from it. *)
Lemma fill_pass_cleaned_from (data : list DataRow) (stats : list ColumnStat)
  (m : CleaningMethod) (targets : list string) :
  m <> drop_rows ->
  Forall2 (cleaned_from targets) data
          (clean_pass data stats (mkCleaningOptions m targets)).
Proof.
  intros Hm.
  assert (H : Forall2 (cleaned_from targets) data
                      (fold_left (fill_column stats m) targets data)).
  { apply fold_fill_column_cleaned_from.
    - apply incl_refl.
    - apply Forall2_refl_list, cleaned_from_refl. }
  unfold clean_pass. simpl. destruct m; try exact H. now contradiction Hm.
Qed.

Lemma Forall2_In_r {A B} (R : A -> B -> Prop) (l : list A) (l' : list B) y :
  Forall2 R l l' -> In y l' -> exists x, In x l /\ R x y.
Proof.
  induction 1 as [|a b l l' Hab H IH]; simpl; [tauto|].
  intros [<-|Hy].
  - exists a. auto.
  - destruct (IH Hy) as (x & Hx & Hr). exists x. auto.
Qed.

End CleaningFacts.

(** X10.  Cleaning never adds or removes a column and never touches a cell
    that was not blank or whose column was not targeted: every returned
    row comes from a row of the input with the same keys in the same order
    and the same own property in every such column, and every such cell
    that did not read [undefined] reads the same.  (A name that read
    [undefined] on a row without prototype may read the inherited member
    afterwards: a fill rebuilds the row as an object literal.)  This holds
    for every method. *)
Theorem cleanData_keeps_cells :
  forall (data : list DataRow) (stats : list ColumnStat)
         (options : CleaningOptions) (row' : DataRow),
    In row' (cleanData data stats options) ->
    exists row,
      In row data
      /\ keys (own row') = keys (own row)
      /\ forall c,
           is_blank (cell row c) = false \/ ~ In c (targetColumns options) ->
           lookup (own row') c = lookup (own row) c
           /\ (cell row c <> VUndef -> cell row' c = cell row c).
Proof.
  intros data stats [m targets] row' Hin. simpl.
  apply dedup_In in Hin.
  assert (H : exists row, In row data /\ cleaned_from targets row row').
  { destruct (CleaningMethod_eq_dec m drop_rows) as [->|Hm].
    - unfold clean_pass in Hin. simpl in Hin.
      apply filter_In in Hin as [Hin _].
      exists row'. split; [exact Hin | apply cleaned_from_refl].
    - apply (Forall2_In_r _ _ _ _
               (fill_pass_cleaned_from data stats m targets Hm) Hin). }
  destruct H as (row & Hrow & Hk & Hb & Hc).
  exists row. split; [exact Hrow|]. split; [exact Hk|].
  intros c H. specialize (Hc c H). split; [exact Hc|].
  unfold cell, get. rewrite Hc.
  destruct (lookup (own row) c); [reflexivity|].
  destruct (bare row) eqn:E.
  - simpl. intros Hu. now contradiction Hu.
  - now rewrite (Hb eq_refl).
Qed.

Lemma cleanData_keeps_cells_witness :
  let row' := literal [("c"%string, VNum (of_Z 2)); ("d"%string, VNum (of_Z 3))] in
  exists row,
    In row (parseCSV csv_gaps)
    /\ keys (own row') = keys (own row)
    /\ forall c,
         is_blank (cell row c) = false \/ ~ In c ["c"%string] ->
         lookup (own row') c = lookup (own row) c
         /\ (cell row c <> VUndef -> cell row' c = cell row c).
Proof.
  apply (cleanData_keeps_cells (parseCSV csv_gaps)
           (analyzeColumns (parseCSV csv_gaps))
           (mkCleaningOptions fill_median ["c"%string])).
  vm_compute. right. right. left. reflexivity.
Defined.

Section FilledColumns.

Variable stats : list ColumnStat.
Variable m : CleaningMethod.
Variable c : string.
Hypothesis Hstat : find (fun s => String.eqb (name s) c) stats <> None.

Lemma valid_values_not_blank (rows : list DataRow) (v : value) :
  In v (valid_values rows c) -> is_blank v = false.
Proof.
  rewrite valid_values_column, filter_In. intros [_ H].
  now apply negb_true_iff in H.
Qed.

(** The value a column is filled with is never blank. *)
Lemma fill_value_not_blank (t : ColumnType) (rows : list DataRow) :
  is_blank (fill_value m t (valid_values rows c)) = false.
Proof.
  destruct (fill_value_origin m t (valid_values rows c))
    as [(x & ->)|[(_ & ->)|H]]; try reflexivity.
  now apply (valid_values_not_blank rows).
Qed.

Lemma forallb_map_filled (fv : value) (vs : list value) :
  is_blank fv = false ->
  forallb (fun v => negb (is_blank v)) (map (filled fv) vs) = true.
Proof.
  intros H. induction vs as [|v vs IH]; simpl; [reflexivity|].
  now rewrite (filled_not_blank fv v H), IH.
Qed.

(** Filling the column [c] leaves no blank cell in it. *)
Lemma fill_column_no_blank (rows : list DataRow) :
  forallb (fun v => negb (is_blank v)) (column (fill_column stats m rows c) c)
  = true.
Proof.
  unfold fill_column.
  destruct (find (fun s => String.eqb (name s) c) stats) as [stat|];
    [|now contradiction Hstat].
  rewrite column_fill.
  apply forallb_map_filled, fill_value_not_blank.
Qed.

Lemma map_filled_no_blank (fv : value) (vs : list value) :
  forallb (fun v => negb (is_blank v)) vs = true ->
  map (filled fv) vs = vs.
Proof.
  induction vs as [|v vs IH]; simpl; [reflexivity|].
  intros H. apply andb_prop in H as [Hv Hvs]. rewrite (IH Hvs).
  unfold filled. apply negb_true_iff in Hv. now rewrite Hv.
Qed.

(** Once filled, the column [c] holds no blank through the later columns. *)
Lemma fill_column_keeps_filled (rows : list DataRow) (col : string) :
  forallb (fun v => negb (is_blank v)) (column rows c) = true ->
  forallb (fun v => negb (is_blank v)) (column (fill_column stats m rows col) c)
  = true.
Proof.
  intros H. destruct (String.eqb col c) eqn:E.
  - apply String.eqb_eq in E. subst col. unfold fill_column.
    destruct (find _ stats); [|exact H].
    rewrite column_fill. now rewrite map_filled_no_blank.
  - now apply column_fill_column_other_all.
Qed.

Lemma fold_fill_column_no_blank (cols : list string) :
  forall rows,
    In c cols
    \/ forallb (fun v => negb (is_blank v)) (column rows c) = true ->
    forallb (fun v => negb (is_blank v))
            (column (fold_left (fill_column stats m) cols rows) c)
    = true.
Proof.
  induction cols as [|col cols IH]; intros rows H; simpl.
  - destruct H as [[]|H]. exact H.
  - apply IH. destruct (String.eqb col c) eqn:E.
    + apply String.eqb_eq in E. subst col. right. apply fill_column_no_blank.
    + destruct H as [[H|H]|H].
      * subst col. now rewrite String.eqb_refl in E.
      * now left.
      * right. now apply fill_column_keeps_filled.
Qed.

End FilledColumns.

(** X11.  Whatever the fill method and the rows, a targeted column that has an
    entry in the statistics holds neither [null] nor the empty string in
    any returned row. *)
Theorem cleanData_fill_leaves_no_blank :
  forall (data : list DataRow) (stats : list ColumnStat)
         (m : CleaningMethod) (targets : list string) (c : string)
         (row : DataRow),
    m <> drop_rows ->
    In c targets ->
    find (fun s => String.eqb (name s) c) stats <> None ->
    In row (cleanData data stats (mkCleaningOptions m targets)) ->
    cell row c <> VNull /\ cell row c <> VStr EmptyString.
Proof.
  intros data stats m targets c row Hm Hc Hstat Hrow.
  apply dedup_In in Hrow.
  assert (Hpass : clean_pass data stats (mkCleaningOptions m targets)
                  = fold_left (fill_column stats m) targets data).
  { unfold clean_pass. simpl. destruct m; try reflexivity.
    now contradiction Hm. }
  rewrite Hpass in Hrow.
  pose proof (fold_fill_column_no_blank stats m c Hstat targets data
                (or_introl Hc)) as H.
  rewrite forallb_forall in H.
  assert (Hb : negb (is_blank (cell row c)) = true).
  { apply H. unfold column. apply in_map_iff. exists row. auto. }
  destruct (cell row c) as [x|s| | |k0]; try (split; discriminate).
  destruct s; [discriminate Hb | split; discriminate].
Qed.

Lemma cleanData_fill_leaves_no_blank_witness :
  let row := literal [("c"%string, VNum (of_Z 2)); ("d"%string, VNum (of_Z 3))] in
  cell row "c" <> VNull /\ cell row "c" <> VStr EmptyString.
Proof.
  apply (cleanData_fill_leaves_no_blank (parseCSV csv_gaps)
           (analyzeColumns (parseCSV csv_gaps)) fill_median ["c"%string] "c").
  - discriminate.
  - left. reflexivity.
  - vm_compute. discriminate.
  - vm_compute. right. right. left. reflexivity.
Defined.

Section RefilledColumns.

Variable stats : list ColumnStat.
Variable m : CleaningMethod.
Variable c : string.
Hypothesis Hstat : find (fun s => String.eqb (name s) c) stats <> None.

Lemma is_missing_blank (v : value) :
  is_missing v = is_blank v || is_undefined v.
Proof. destruct v as [x|s| | |k0]; try reflexivity. simpl. now rewrite orb_false_r. Qed.

Lemma fill_value_not_missing (t : ColumnType) (rows : list DataRow) :
  has_values c rows ->
  is_missing (fill_value m t (valid_values rows c)) = false.
Proof.
  intros [Hu (w & Hw & Hwm)].
  assert (Hin : forall v, In v (valid_values rows c) -> is_missing v = false).
  { intros v Hv. rewrite is_missing_blank.
    rewrite (valid_values_not_blank c rows v Hv).
    rewrite valid_values_column, filter_In in Hv. now rewrite (Hu v (proj1 Hv)). }
  destruct (fill_value_origin m t (valid_values rows c))
    as [(x & ->)|[(He & _)|H]]; [reflexivity| |now apply Hin].
  assert (Hwv : In w (valid_values rows c)).
  { rewrite valid_values_column, filter_In. split; [exact Hw|].
    rewrite is_missing_blank in Hwm. apply orb_false_elim in Hwm as [Hb _].
    now rewrite Hb. }
  rewrite He in Hwv. destruct Hwv.
Qed.

Lemma fill_column_no_missing (rows : list DataRow) :
  has_values c rows ->
  forallb (fun v => negb (is_missing v)) (column (fill_column stats m rows c) c)
  = true.
Proof.
  intros H. unfold fill_column.
  destruct (find (fun s => String.eqb (name s) c) stats) as [stat|];
    [|now contradiction Hstat].
  rewrite column_fill.
  pose proof (fill_value_not_missing (type stat) rows H) as Hfv.
  destruct H as [Hu _]. apply forallb_forall. intros v Hv.
  apply in_map_iff in Hv as (w & <- & Hw). unfold filled.
  destruct (is_blank w) eqn:E; [now rewrite Hfv|].
  now rewrite is_missing_blank, E, (Hu w Hw).
Qed.

Lemma no_missing_no_blank (vs : list value) :
  forallb (fun v => negb (is_missing v)) vs = true ->
  forallb (fun v => negb (is_blank v)) vs = true.
Proof.
  rewrite !forallb_forall. intros H v Hv. specialize (H v Hv).
  rewrite is_missing_blank in H. destruct (is_blank v); [discriminate H|].
  reflexivity.
Qed.

(** A column without missing cell stays so through the other columns. *)
Lemma fill_column_keeps_present (rows : list DataRow) (col : string) :
  forallb (fun v => negb (is_missing v)) (column rows c) = true ->
  forallb (fun v => negb (is_missing v))
          (column (fill_column stats m rows col) c)
  = true.
Proof.
  intros H. destruct (String.eqb col c) eqn:E.
  - apply String.eqb_eq in E. subst col. unfold fill_column.
    destruct (find _ stats); [|exact H].
    rewrite column_fill. rewrite map_filled_no_blank; [exact H|].
    now apply no_missing_no_blank.
  - now apply column_fill_column_other_all.
Qed.

Lemma fold_fill_column_no_missing (cols : list string) :
  forall rows,
    forallb (fun v => negb (is_missing v)) (column rows c) = true
    \/ (has_values c rows /\ In c cols) ->
    forallb (fun v => negb (is_missing v))
            (column (fold_left (fill_column stats m) cols rows) c)
    = true.
Proof.
  induction cols as [|col cols IH]; intros rows H; simpl.
  - destruct H as [H|[_ []]]. exact H.
  - apply IH. destruct H as [H|[Hv Hin]].
    + left. now apply fill_column_keeps_present.
    + destruct (String.eqb col c) eqn:E.
      * apply String.eqb_eq in E. subst col. left.
        now apply fill_column_no_missing.
      * right. split.
        -- unfold has_values.
           rewrite column_fill_column_other; [exact Hv | exact E | apply Hv].
        -- destruct Hin as [Hin|Hin]; [|exact Hin].
           subst col. now rewrite String.eqb_refl in E.
Qed.

End RefilledColumns.

(** X16.  After a fill pass, a targeted column that has an entry in the
    statistics, at least one value and no [undefined] cell shows no
    missing value when the cleaned rows are profiled again. *)
Theorem refill_shows_no_missing :
  forall (data : list DataRow) (stats : list ColumnStat)
         (m : CleaningMethod) (targets : list string) (c : string)
         (stat' : ColumnStat),
    m <> drop_rows ->
    In c targets ->
    find (fun s => String.eqb (name s) c) stats <> None ->
    (forall row, In row data -> cell row c <> VUndef) ->
    (exists row, In row data /\ is_missing (cell row c) = false) ->
    In stat' (analyzeColumns
                (cleanData data stats (mkCleaningOptions m targets))) ->
    name stat' = c ->
    missingCount stat' = 0.
Proof.
  intros data stats m targets c stat' Hm Hc Hstat Hown (w & Hw & Hwm)
         Hin Hname.
  set (cleaned := cleanData data stats (mkCleaningOptions m targets)) in *.
  assert (Hpass : clean_pass data stats (mkCleaningOptions m targets)
                  = fold_left (fill_column stats m) targets data).
  { unfold clean_pass. simpl. destruct m; try reflexivity.
    now contradiction Hm. }
  assert (Hvalues : has_values c data).
  { split.
    - intros v Hv. apply in_map_iff in Hv as (row & <- & Hrow).
      specialize (Hown row Hrow). destruct (cell row c); try reflexivity.
      now contradiction Hown.
    - exists (cell w c). split; [|exact Hwm].
      apply in_map_iff. exists w. auto. }
  pose proof (fold_fill_column_no_missing stats m c Hstat targets data
                (or_intror (conj Hvalues Hc))) as Hfold.
  rewrite <- Hpass in Hfold. rewrite forallb_forall in Hfold.
  assert (Hstat' : exists key, stat' = analyzeColumn cleaned key).
  { unfold analyzeColumns in Hin.
    destruct cleaned as [|first rest]; [destruct Hin|].
    apply in_map_iff in Hin as (key & <- & _). now exists key. }
  destruct Hstat' as (key & ->). simpl in Hname. subst key. simpl.
  destruct (scan_column_fold_cells c cleaned (mkColumnScan 0 [] 0)) as [_ Hmiss].
  simpl in Hmiss. fold (scan_column cleaned c) in Hmiss. rewrite Hmiss.
  assert (Hnone : filter is_missing (column cleaned c) = []).
  { destruct (filter is_missing (column cleaned c)) as [|v vs] eqn:E;
      [reflexivity|].
    assert (Hv : In v (filter is_missing (column cleaned c)))
      by (rewrite E; now left).
    apply filter_In in Hv as [Hv Hvm].
    apply in_map_iff in Hv as (row & <- & Hrow).
    apply dedup_In in Hrow.
    assert (Hcell : negb (is_missing (cell row c)) = true).
    { apply Hfold. apply in_map_iff. exists row. auto. }
    rewrite Hvm in Hcell. discriminate Hcell. }
  now rewrite Hnone.
Qed.

Lemma refill_shows_no_missing_witness :
  let data := parseCSV csv_gaps in
  let cleaned :=
    cleanData data (analyzeColumns data)
      (mkCleaningOptions fill_median ["c"%string]) in
  missingCount (analyzeColumn cleaned "c") = 0.
Proof.
  apply (refill_shows_no_missing (parseCSV csv_gaps)
           (analyzeColumns (parseCSV csv_gaps)) fill_median ["c"%string] "c").
  - discriminate.
  - left. reflexivity.
  - vm_compute. discriminate.
  - vm_compute. intros row [<-|[<-|[<-|[<-|[]]]]]; discriminate.
  - exists (literal [("c"%string, VNum (of_Z 1)); ("d"%string, VNull)]).
    split; [vm_compute; left; reflexivity | reflexivity].
  - vm_compute. left. reflexivity.
  - reflexivity.
Defined.

(** X13.  A targeted column that has no entry in the statistics is passed over:
    when none of the targets has one, a fill method only deduplicates. *)
Theorem cleanData_unknown_columns :
  forall (data : list DataRow) (stats : list ColumnStat)
         (m : CleaningMethod) (targets : list string),
    m <> drop_rows ->
    (forall c, In c targets ->
               find (fun s => String.eqb (name s) c) stats = None) ->
    cleanData data stats (mkCleaningOptions m targets) = dedup data.
Proof.
  intros data stats m targets Hm Hnone. unfold cleanData. f_equal.
  assert (H : fold_left (fill_column stats m) targets data = data).
  { revert data. induction targets as [|c targets IH]; intros data; simpl;
      [reflexivity|].
    unfold fill_column at 2. rewrite (Hnone c) by now left.
    apply IH. intros c' Hc'. apply Hnone. now right. }
  unfold clean_pass. simpl. destruct m; try exact H. now contradiction Hm.
Qed.

Lemma cleanData_unknown_columns_witness :
  cleanData (parseCSV csv_gaps) []
    (mkCleaningOptions fill_mode ["c"%string; "d"%string])
  = dedup (parseCSV csv_gaps).
Proof.
  apply (cleanData_unknown_columns (parseCSV csv_gaps) [] fill_mode).
  - discriminate.
  - reflexivity.
Defined.

Lemma fill_mean_numeric_cells_witness :
  let data := parseCSV csv_gaps in
  let options := mkCleaningOptions fill_mean ["c"%string] in
  let mean := arithmetic_mean (numbers_of (column data "c")) in
  column (clean_pass data (analyzeColumns data) options) "c"
  = map (fun v => if is_blank v then VNum mean else v) (column data "c")
  /\ (forall row,
        In row (cleanData data (analyzeColumns data) options) ->
        is_blank (cell row "c") = false).
Proof.
  apply (fill_mean_numeric_cells (parseCSV csv_gaps)
           (analyzeColumns (parseCSV csv_gaps)) ["c"%string] "c"
           (analyzeColumn (parseCSV csv_gaps) "c")).
  - vm_compute. reflexivity.
  - vm_compute. reflexivity.
  - left. reflexivity.
  - vm_compute. reflexivity.
Defined.

Section DedupOrder.

Lemma dedup_from_subseq (rows : list DataRow) :
  forall seen, subseq (dedup_from seen rows) rows.
Proof.
  induction rows as [|r rows IH]; intros seen; simpl; [constructor|].
  destruct (set_has seen (JSON_stringify r)); constructor; apply IH.
Qed.

Lemma dedup_from_complete (rows : list DataRow) :
  forall seen row,
    In row rows ->
    In (JSON_stringify row) seen
    \/ exists row', In row' (dedup_from seen rows)
                    /\ JSON_stringify row' = JSON_stringify row.
Proof.
  induction rows as [|r rows IH]; intros seen row; simpl; [tauto|].
  destruct (set_has seen (JSON_stringify r)) eqn:E.
  - intros [<-|H].
    + left. now apply set_has_In.
    + apply IH, H.
  - intros [<-|H].
    + right. exists r. split; [now left | reflexivity].
    + destruct (IH (seen ++ [JSON_stringify r]) row H) as [Hs|(row' & H1 & H2)].
      * apply in_app_or in Hs as [Hs|[Hs|[]]]; [now left|].
        right. exists r. split; [now left | exact Hs].
      * right. exists row'. split; [now right | exact H2].
Qed.

Lemma dedup_from_first (rows : list DataRow) :
  forall seen row',
    In row' (dedup_from seen rows) ->
    exists before after,
      rows = before ++ row' :: after
      /\ forall r, In r before -> JSON_stringify r <> JSON_stringify row'.
Proof.
  induction rows as [|r rows IH]; intros seen row'; simpl; [tauto|].
  destruct (set_has seen (JSON_stringify r)) eqn:E.
  - intros H. pose proof (dedup_from_fresh _ _ _ H) as Hfresh.
    destruct (IH _ _ H) as (before & after & -> & Hb).
    exists (r :: before), after. split; [reflexivity|].
    intros x [<-|Hx]; [|now apply Hb].
    intros Heq. apply Hfresh. rewrite <- Heq. now apply set_has_In.
  - intros [<-|H].
    + exists [], rows. split; [reflexivity | intros x []].
    + pose proof (dedup_from_fresh _ _ _ H) as Hfresh.
      destruct (IH _ _ H) as (before & after & -> & Hb).
      exists (r :: before), after. split; [reflexivity|].
      intros x [<-|Hx]; [|now apply Hb].
      intros Heq. apply Hfresh. apply in_or_app. right. left. exact Heq.
Qed.

Lemma subseq_length {A} (l1 l2 : list A) :
  subseq l1 l2 -> List.length l1 <= List.length l2.
Proof. induction 1; simpl; lia. Qed.

End DedupOrder.

(** X14.  The deduplication keeps the rows in order and leaves some out; every
    row has a kept row with the same serialization; and a kept row is the
    first of the rows with its serialization. *)
Theorem dedup_first_occurrences :
  forall rows : list DataRow,
    subseq (dedup rows) rows
    /\ List.length (dedup rows) <= List.length rows
    /\ (forall row,
          In row rows ->
          exists row', In row' (dedup rows)
                       /\ JSON_stringify row' = JSON_stringify row)
    /\ (forall row',
          In row' (dedup rows) ->
          exists before after,
            rows = before ++ row' :: after
            /\ forall r, In r before ->
                         JSON_stringify r <> JSON_stringify row').
Proof.
  intros rows. rewrite dedup_dedup_from.
  split; [apply dedup_from_subseq|].
  split; [apply subseq_length, dedup_from_subseq|]. split.
  - intros row H. destruct (dedup_from_complete rows [] row H) as [[]|H'].
    exact H'.
  - apply dedup_from_first.
Qed.

(** X18.  A fill pass keeps the columns of the profile: profiling the cleaned
    rows gives entries with the same names, in the same order, as
    profiling the rows. *)
Theorem refill_keeps_columns :
  forall (data : list DataRow) (stats : list ColumnStat)
         (m : CleaningMethod) (targets : list string),
    m <> drop_rows ->
    map name (analyzeColumns
                (cleanData data stats (mkCleaningOptions m targets)))
    = map name (analyzeColumns data).
Proof.
  intros data stats m targets Hm.
  pose proof (fill_pass_cleaned_from data stats m targets Hm) as H.
  unfold cleanData. rewrite dedup_dedup_from.
  destruct H as [|row row' data rows [Hk _] H]; [reflexivity|].
  simpl. rewrite !map_map. simpl. rewrite !map_id. exact Hk.
Qed.

Lemma refill_keeps_columns_witness :
  map name (analyzeColumns
              (cleanData (parseCSV csv_gaps) (analyzeColumns (parseCSV csv_gaps))
                 (mkCleaningOptions fill_mode ["c"%string; "d"%string])))
  = map name (analyzeColumns (parseCSV csv_gaps)).
Proof.
  apply (refill_keeps_columns (parseCSV csv_gaps)
           (analyzeColumns (parseCSV csv_gaps)) fill_mode).
  discriminate.
Defined.

(* ================================================================== *)
(** * Further properties of the trainer *)

Section TrainerFacts.

Variable Math_pow : number -> number -> number.

Lemma slice_In {A} (l : list A) i j x : In x (slice l i j) -> In x l.
Proof.
  unfold slice. intros H.
  set (k := relative_index (List.length l) i) in *.
  rewrite <- (firstn_skipn k l). apply in_or_app. right.
  set (t := skipn k l) in *.
  rewrite <- (firstn_skipn (match j with
                            | Some e => relative_index (List.length l) e
                            | None => List.length l
                            end - k) t).
  apply in_or_app. now left.
Qed.

Lemma testData_valid (data : list DataRow) target features r row :
  In row (testData data target features r) ->
  exists x, cell row target = VNum x /\ num_cell row target = x.
Proof.
  unfold testData. intros H. apply slice_In in H.
  unfold validData in H. apply filter_In in H as [_ H].
  unfold valid_row in H. apply andb_prop in H as [H _].
  unfold num_cell. destruct (cell row target) as [x| | | |k0]; try discriminate.
  exists x. auto.
Qed.

Lemma fold_evaluate_row sc target features m (test : list DataRow) :
  forall ev,
    evaluated (fold_left (evaluate_row Math_pow sc target features m) test ev)
    = evaluated ev
      ++ map (fun row =>
                mkPrediction (num_cell row target)
                  (denormalize sc (predict sc features m row) target))
             test.
Proof.
  induction test as [|row test IH]; intros ev; simpl.
  - now rewrite app_nil_r.
  - rewrite IH. simpl. now rewrite <- app_assoc.
Qed.

Lemma validData_idempotent (data : list DataRow) target features :
  validData (validData data target features) target features
  = validData data target features.
Proof.
  unfold validData. induction data as [|row data IH]; simpl; [reflexivity|].
  destruct (valid_row target features row) eqn:E; simpl; [|exact IH].
  now rewrite E, IH.
Qed.

(** Every deviation stored by [scaling] is truthy, and every column other
    than [__proto__] has one. *)
Lemma scaling_stds (train : list DataRow) (cols : list string) :
  forall sc,
    (forall k x, lookup (stds sc) k = Some x -> truthy x = true) ->
    let sc' := fold_left (scale_column Math_pow train) cols sc in
    (forall k x, lookup (stds sc') k = Some x -> truthy x = true)
    /\ (forall col, In col cols -> col <> proto_key ->
                    lookup (stds sc') col <> None)
    /\ (forall k, lookup (stds sc) k <> None -> lookup (stds sc') k <> None).
Proof.
  induction cols as [|col cols IH]; intros sc Hsc; simpl.
  - split; [exact Hsc|]. split; [intros col []|auto].
  - set (sc1 := scale_column Math_pow train sc col).
    assert (Hsc1 : forall k x, lookup (stds sc1) k = Some x -> truthy x = true).
    { intros k x. unfold sc1, scale_column. simpl. unfold assign_num.
      destruct (String.eqb col proto_key); [apply Hsc|].
      rewrite lookup_define. destruct (String.eqb col k); [|apply Hsc].
      intros H. inversion H; subst.
      destruct (truthy (sqrt _)) eqn:E; [exact E | reflexivity]. }
    assert (Hkeep : forall k, lookup (stds sc) k <> None ->
                              lookup (stds sc1) k <> None).
    { intros k Hk. unfold sc1, scale_column. simpl. unfold assign_num.
      destruct (String.eqb col proto_key); [exact Hk|].
      rewrite lookup_define. destruct (String.eqb col k); [discriminate|exact Hk]. }
    destruct (IH sc1 Hsc1) as (H1 & H2 & H3).
    split; [exact H1|]. split.
    + intros c [Hc|Hc] Hp; [|now apply H2].
      subst c. apply H3. unfold sc1, scale_column. simpl. unfold assign_num.
      destruct (String.eqb col proto_key) eqn:E.
      * apply String.eqb_eq in E. contradiction.
      * rewrite lookup_define, String.eqb_refl. discriminate.
    + intros k Hk. apply H3, Hkeep, Hk.
Qed.

(** With no training row the mean of every column is the NaN of 0/0. *)
Lemma scaling_means_empty (cols : list string) :
  forall sc,
    (forall k x, lookup (means sc) k = Some x -> x = NaN) ->
    forall k x,
      lookup (means (fold_left (scale_column Math_pow []) cols sc)) k = Some x ->
      x = NaN.
Proof.
  induction cols as [|col cols IH]; intros sc Hsc; simpl; [exact Hsc|].
  apply IH. intros k x. unfold scale_column. simpl. unfold assign_num.
  destruct (String.eqb col proto_key); [apply Hsc|].
  rewrite lookup_define. destruct (String.eqb col k); [|apply Hsc].
  intros H. inversion H. reflexivity.
Qed.

Lemma add_NaN_r (x : number) : add x NaN = NaN.
Proof. destruct x as [[]|[]| |[] ? ?]; reflexivity. Qed.

Lemma sub_NaN_r (x : number) : sub x NaN = NaN.
Proof. destruct x as [[]|[]| |[] ? ?]; reflexivity. Qed.

Lemma mul_NaN_r (x : number) : mul x NaN = NaN.
Proof. destruct x as [[]|[]| |[] ? ?]; reflexivity. Qed.

(** No mean and no deviation is ever stored under [__proto__]. *)
Lemma scaling_no_proto (train : list DataRow) (cols : list string) :
  forall sc,
    lookup (means sc) proto_key = None ->
    lookup (stds sc) proto_key = None ->
    let sc' := fold_left (scale_column Math_pow train) cols sc in
    lookup (means sc') proto_key = None /\ lookup (stds sc') proto_key = None.
Proof.
  induction cols as [|col cols IH]; intros sc Hm Hs; simpl; [auto|].
  apply IH; unfold scale_column; simpl; unfold assign_num;
    destruct (String.eqb col proto_key) eqn:E; auto;
    now rewrite lookup_define, E.
Qed.

(** Every column other than [__proto__] has a mean. *)
Lemma scaling_means_own (train : list DataRow) (cols : list string) :
  forall sc,
    let sc' := fold_left (scale_column Math_pow train) cols sc in
    (forall col, In col cols -> col <> proto_key ->
                 lookup (means sc') col <> None)
    /\ (forall k, lookup (means sc) k <> None -> lookup (means sc') k <> None).
Proof.
  induction cols as [|col cols IH]; intros sc; simpl.
  - split; [intros col []|auto].
  - set (sc1 := scale_column Math_pow train sc col).
    assert (Hkeep : forall k, lookup (means sc) k <> None ->
                              lookup (means sc1) k <> None).
    { intros k Hk. unfold sc1, scale_column. simpl. unfold assign_num.
      destruct (String.eqb col proto_key); [exact Hk|].
      rewrite lookup_define. destruct (String.eqb col k); [discriminate|exact Hk]. }
    destruct (IH sc1) as (H2 & H3). split.
    + intros c [Hc|Hc] Hp; [|now apply H2].
      subst c. apply H3. unfold sc1, scale_column. simpl. unfold assign_num.
      destruct (String.eqb col proto_key) eqn:E.
      * apply String.eqb_eq in E. contradiction.
      * rewrite lookup_define, String.eqb_refl. discriminate.
    + intros k Hk. apply H3, Hkeep, Hk.
Qed.

(** With no training row the denormalized value of the target is NaN, and
    for the target [__proto__], whose mean reads the prototype object, the
    string that NaN and the object concatenate to. *)
Lemma denormalize_empty (target : string) (features : list string)
  (x : number) :
  denormalize (scaling Math_pow [] target features) x target
  = if String.eqb target proto_key then VStr "NaN[object Object]"
    else VNum NaN.
Proof.
  unfold denormalize, scaling.
  destruct (String.eqb target proto_key) eqn:E.
  - apply String.eqb_eq in E. subst target.
    destruct (scaling_no_proto [] (features ++ [proto_key]) (mkScaling [] [])
                eq_refl eq_refl) as [Hm Hs].
    unfold read, read_num. rewrite Hm, Hs, mul_NaN_r. reflexivity.
  - destruct (scaling_means_own [] (features ++ [target]) (mkScaling [] []))
      as [Hown _].
    assert (Hin : In target (features ++ [target]))
      by (apply in_or_app; right; now left).
    assert (Hp : target <> proto_key) by (now apply String.eqb_neq).
    specialize (Hown target Hin Hp). unfold read.
    destruct (lookup _ target) as [y|] eqn:Ey; [|now contradiction Hown].
    apply (scaling_means_empty _ (mkScaling [] [])) in Ey.
    + subst y. simpl. now rewrite add_NaN_r.
    + intros k z Hz. discriminate Hz.
Qed.

Lemma fold_evaluate_row_abs sc target features m (test : list DataRow) :
  (forall row,
      JSValue.to_number (denormalize sc (predict sc features m row) target)
      = NaN) ->
  forall ev,
    test <> [] \/ sumAbsError ev = NaN ->
    sumAbsError
      (fold_left (evaluate_row Math_pow sc target features m) test ev)
    = NaN.
Proof.
  intros Hd. induction test as [|row test IH]; intros ev H; simpl.
  - destruct H as [H|H]; [now contradiction H | exact H].
  - apply IH. right. simpl. unfold js_sub. rewrite Hd. simpl JSValue.to_number.
    rewrite sub_NaN_r. apply add_NaN_r.
Qed.

End TrainerFacts.

(** X19.  The predictions follow the test rows one for one and in order, and the
    actual value of each is the number in the target cell of its row. *)
Theorem trainModel_predictions :
  forall (Math_pow : number -> number -> number) (data : list DataRow)
         (target : string) (features : list string) (splitRatio : number),
    Forall2 (fun row p => cell row target = VNum (actual p))
            (testData data target features splitRatio)
            (predictions
               (trainModel Math_pow data target features splitRatio)).
Proof.
  intros Math_pow data target features r. unfold trainModel. simpl.
  rewrite fold_evaluate_row. simpl.
  pose proof (testData_valid data target features r) as Hvalid.
  induction (testData data target features r) as [|row test IH]; simpl;
    constructor.
  - simpl. destruct (Hvalid row (or_introl eq_refl)) as (x & H1 & H2).
    now rewrite H2.
  - apply IH. intros row' H. apply Hvalid. now right.
Qed.

(** X20.  The deviation by which a feature or the target is normalized is never
    zero and never NaN (for a column other than [__proto__]). *)
Theorem scaling_std_not_zero :
  forall (Math_pow : number -> number -> number) (train : list DataRow)
         (target : string) (features : list string) (col : string),
    In col (features ++ [target]) ->
    col <> proto_key ->
    truthy (read_num (stds (scaling Math_pow train target features)) col)
    = true.
Proof.
  intros Math_pow train target features col Hin Hp.
  destruct (scaling_stds Math_pow train (features ++ [target])
              (mkScaling [] [])) as (H1 & H2 & _).
  { intros k x H. discriminate H. }
  unfold scaling, read_num.
  specialize (H2 col Hin Hp).
  destruct (lookup _ col) as [x|] eqn:E; [|now contradiction H2].
  apply (H1 col x E).
Qed.

Lemma scaling_std_not_zero_witness :
  truthy (read_num
            (stds (scaling (fun x _ => mul x x) (parseCSV csv_linear) "b"
                     ["a"%string]))
            "a")
  = true.
Proof.
  apply (scaling_std_not_zero (fun x _ => mul x x) (parseCSV csv_linear) "b"
           ["a"%string] "a").
  - left. reflexivity.
  - discriminate.
Defined.

(** X21.  When the split leaves no training row but some test row, the mean
    absolute error is NaN and every predicted value is NaN: the means of
    the empty training set are 0/0.  For the target [__proto__] the mean
    reads the prototype object, the sum concatenates, and every predicted
    value is the string [NaN[object Object]]. *)
Theorem trainModel_empty_training_set :
  forall (Math_pow : number -> number -> number) (data : list DataRow)
         (target : string) (features : list string) (splitRatio : number),
    trainData data target features splitRatio = [] ->
    testData data target features splitRatio <> [] ->
    let metrics := trainModel Math_pow data target features splitRatio in
    (forall p,
        In p (predictions metrics) ->
        predicted p = if String.eqb target proto_key
                      then VStr "NaN[object Object]"
                      else VNum NaN)
    /\ mae metrics = NaN.
Proof.
  intros Math_pow data target features r Htrain Htest metrics.
  unfold metrics, trainModel. rewrite Htrain. simpl. split.
  - intros p Hp. rewrite fold_evaluate_row in Hp. simpl in Hp.
    apply in_map_iff in Hp as (row & <- & _). simpl.
    apply denormalize_empty.
  - rewrite fold_evaluate_row_abs; [reflexivity| |now left].
    intros row. rewrite denormalize_empty.
    destruct (String.eqb target proto_key); reflexivity.
Qed.

Lemma trainModel_empty_training_set_witness :
  let ratio := of_decimal false 8 (-1) in
  let metrics :=
    trainModel (fun x _ => mul x x) (parseCSV csv_one_row) "b" ["a"%string]
      ratio in
  let metrics' :=
    trainModel (fun x _ => mul x x) (parseCSV csv_proto_target) proto_key
      ["a"%string] ratio in
  ((forall p, In p (predictions metrics) -> predicted p = VNum NaN)
   /\ mae metrics = NaN)
  /\ ((forall p,
         In p (predictions metrics') ->
         predicted p = VStr "NaN[object Object]")
      /\ mae metrics' = NaN).
Proof.
  split.
  - apply (trainModel_empty_training_set (fun x _ => mul x x)
             (parseCSV csv_one_row) "b" ["a"%string] (of_decimal false 8 (-1))).
    + vm_compute. reflexivity.
    + vm_compute. discriminate.
  - apply (trainModel_empty_training_set (fun x _ => mul x x)
             (parseCSV csv_proto_target) proto_key ["a"%string]
             (of_decimal false 8 (-1))).
    + vm_compute. reflexivity.
    + vm_compute. discriminate.
Defined.

(** X22.  Rows whose target or feature cells are not all numbers have no effect:
    training on the rows gives what training on the valid rows gives. *)
Theorem trainModel_ignores_invalid_rows :
  forall (Math_pow : number -> number -> number) (data : list DataRow)
         (target : string) (features : list string) (splitRatio : number),
    trainModel Math_pow (validData data target features) target features
      splitRatio
    = trainModel Math_pow data target features splitRatio.
Proof.
  intros Math_pow data target features r.
  unfold trainModel, trainData, testData.
  now rewrite validData_idempotent.
Qed.

(* ================================================================== *)
(** * The median

    The comparator [(a, b) => a - b] is consistent on ordinary numbers: the
    difference is positive exactly when the first is the greater.  So the
    sort orders them and the median is the middle value. *)

Section DifferenceSign.

Local Open Scope Z_scope.

Lemma shr_m_shr_1_nonneg (mrs : shr_record) :
  0 <= shr_m mrs -> shr_m (shr_1 mrs) = shr_m mrs / 2.
Proof.
  destruct mrs as [m r s]. simpl. intros H. rewrite <- Z.div2_div.
  destruct m as [|[p|p|]|p]; try reflexivity; lia.
Qed.

Lemma pow2_xI (p : positive) : 2 ^ Zpos p~1 = 2 * 2 ^ Zpos p * 2 ^ Zpos p.
Proof.
  rewrite Pos2Z.inj_xI.
  replace (2 * Zpos p + 1) with (1 + Zpos p + Zpos p) by lia.
  rewrite !Z.pow_add_r by lia. now rewrite Z.pow_1_r.
Qed.

Lemma pow2_xO (p : positive) : 2 ^ Zpos p~0 = 2 ^ Zpos p * 2 ^ Zpos p.
Proof. change (Zpos p~0) with (2 * Zpos p). apply Z.pow_twice_r. Qed.

Lemma shr_m_iter (p : positive) :
  forall mrs, 0 <= shr_m mrs ->
    shr_m (iter_pos shr_1 p mrs) = shr_m mrs / 2 ^ Zpos p.
Proof.
  induction p as [p IH|p IH|]; intros mrs H; simpl iter_pos.
  - assert (Hp : 0 < 2 ^ Zpos p) by (apply Z.pow_pos_nonneg; lia).
    assert (H1 : 0 <= shr_m (shr_1 mrs)).
    { rewrite shr_m_shr_1_nonneg by assumption. apply Z.div_pos; lia. }
    assert (H2 : 0 <= shr_m (iter_pos shr_1 p (shr_1 mrs))).
    { rewrite (IH _ H1). apply Z.div_pos; lia. }
    rewrite (IH _ H2), (IH _ H1), (shr_m_shr_1_nonneg _ H).
    rewrite !Z.div_div by nia. f_equal. rewrite pow2_xI. ring.
  - assert (Hp : 0 < 2 ^ Zpos p) by (apply Z.pow_pos_nonneg; lia).
    assert (H2 : 0 <= shr_m (iter_pos shr_1 p mrs)).
    { rewrite (IH _ H). apply Z.div_pos; lia. }
    rewrite (IH _ H2), (IH _ H).
    rewrite !Z.div_div by nia. f_equal. rewrite pow2_xO. ring.
  - rewrite (shr_m_shr_1_nonneg _ H). reflexivity.
Qed.

(** Shifting a positive mantissa to its format exponent leaves it positive. *)
Lemma shr_fexp_positive (m : positive) (e : Z) (l : location) :
  -1074 <= e ->
  0 < shr_m (fst (shr_fexp prec emax (Zpos m) e l))
  /\ -1074 <= snd (shr_fexp prec emax (Zpos m) e l).
Proof.
  intros He. unfold shr_fexp, shr, Zdigits2.
  set (d := Zpos (digits2_pos m)).
  pose proof (digits2_pos_spec m) as Hd. fold d in Hd.
  assert (Hd1 : 1 <= d) by (unfold d; lia).
  destruct (fexp prec emax (d + e) - e) as [|p|p] eqn:E; simpl fst; simpl snd.
  - rewrite shr_m_record_of_loc. lia.
  - rewrite shr_m_iter by (rewrite shr_m_record_of_loc; lia).
    rewrite shr_m_record_of_loc.
    unfold fexp, emin, prec, emax in E.
    assert (Hp : Zpos p = d - 53) by lia.
    split; [|lia].
    apply Z.div_str_pos. split; [apply Z.pow_pos_nonneg; lia|].
    apply Z.le_trans with (2 ^ (d - 1)); [|lia].
    apply Z.pow_le_mono_r; lia.
  - rewrite shr_m_record_of_loc. lia.
Qed.

Lemma binary_round_aux_positive (m : positive) (e : Z) (l : location) :
  -1074 <= e ->
  match binary_round_aux prec emax false (Zpos m) e l with
  | S754_finite false _ _ | S754_infinity false => True
  | _ => False
  end.
Proof.
  intros He. unfold binary_round_aux.
  pose proof (shr_fexp_positive m e l He) as [H1 H2].
  destruct (shr_fexp prec emax (Zpos m) e l) as [mrs' e']. simpl in H1, H2.
  assert (HM : 0 < round_nearest_even (shr_m mrs') (loc_of_shr_record mrs')).
  { destruct (round_nearest_even_bounds (shr_m mrs') (loc_of_shr_record mrs')) as [-> | ->]; lia. }
  destruct (round_nearest_even (shr_m mrs') (loc_of_shr_record mrs')) as [|M|M]; try lia.
  pose proof (shr_fexp_positive M e' loc_Exact H2) as [H3 _].
  destruct (shr_fexp prec emax (Zpos M) e' loc_Exact) as [mrs'' e'']. simpl in H3.
  destruct (shr_m mrs''); try lia.
  destruct (Z.leb e'' (emax - prec)); exact I.
Qed.

Lemma binary_round_positive (m : positive) (e : Z) :
  -1074 <= e ->
  match binary_round prec emax false m e with
  | S754_finite false _ _ | S754_infinity false => True
  | _ => False
  end.
Proof.
  intros He. unfold binary_round.
  set (e' := fexp prec emax (Zpos (digits2_pos m) + e)).
  assert (He' : -1074 <= e') by (unfold e', fexp, emin, prec, emax; lia).
  destruct (Z.le_gt_cases e' e) as [H|H].
  - pose proof (shl_align_spec m e e' H) as Hs.
    destruct (shl_align m e e') as [mz ez]. destruct Hs as [-> _].
    now apply binary_round_aux_positive.
  - unfold shl_align. destruct (e' - e) eqn:E; try lia;
      now apply binary_round_aux_positive.
Qed.

Lemma binary_round_negative (m : positive) (e : Z) :
  SFltb (S754_zero false) (binary_round prec emax true m e) = false.
Proof.
  unfold binary_round. destruct (shl_align m e _) as [mz ez].
  unfold binary_round_aux.
  destruct (shr_fexp prec emax (Zpos mz) ez loc_Exact) as [mrs' e'].
  destruct (shr_fexp prec emax _ e' loc_Exact) as [mrs'' e''].
  destruct (shr_m mrs''); try reflexivity.
  destruct (Z.leb e'' (emax - prec)); reflexivity.
Qed.

Lemma ordinary_finite (s : bool) (m : positive) (e : Z) :
  ordinary (S754_finite s m e) = true ->
  -1074 <= e <= 971
  /\ Zpos m < 2 ^ 53
  /\ (-1074 < e -> 2 ^ 52 <= Zpos m).
Proof.
  unfold ordinary, bounded, canonical_mantissa. intros H.
  apply andb_prop in H as [Hc He]. apply Z.eqb_eq in Hc. apply Z.leb_le in He.
  unfold fexp, emin, prec, emax in *.
  set (d := Zpos (digits2_pos m)) in *.
  pose proof (digits2_pos_spec m) as Hd. fold d in Hd.
  assert (Hd1 : 1 <= d) by (unfold d; lia).
  assert (Hd53 : d <= 53) by lia.
  split; [lia|]. split.
  - apply Z.lt_le_trans with (2 ^ d); [lia|]. apply Z.pow_le_mono_r; lia.
  - intros H. assert (d = 53) by lia. subst d.
    replace (53 - 1) with 52 in Hd by lia. rewrite H0 in Hd. simpl (53 - 1) in Hd. lia.
Qed.

Lemma pow2_split (e e' : Z) :
  -1074 <= e' <= e -> 2 ^ (e + 1074) = 2 ^ (e - e') * 2 ^ (e' + 1074).
Proof. intros H. rewrite <- Z.pow_add_r by lia. f_equal. lia. Qed.

(** Of two ordinary positive numbers the one with the smaller exponent is the smaller. *)
Lemma scaled_exponent_lt (m1 m2 : positive) (e1 e2 : Z) (s1 s2 : bool) :
  ordinary (S754_finite s1 m1 e1) = true ->
  ordinary (S754_finite s2 m2 e2) = true ->
  e1 < e2 ->
  Zpos m1 * 2 ^ (e1 + 1074) < Zpos m2 * 2 ^ (e2 + 1074).
Proof.
  intros H1 H2 He.
  apply ordinary_finite in H1 as (He1 & Hm1 & _).
  apply ordinary_finite in H2 as (He2 & _ & Hm2).
  specialize (Hm2 ltac:(lia)).
  rewrite (pow2_split e2 e1) by lia.
  assert (HP : 0 < 2 ^ (e1 + 1074)) by (apply Z.pow_pos_nonneg; lia).
  assert (HQ : 2 ^ 1 <= 2 ^ (e2 - e1)) by (apply Z.pow_le_mono_r; lia).
  rewrite Z.pow_1_r in HQ.
  replace (2 ^ 53) with (2 * 2 ^ 52) in Hm1 by reflexivity.
  assert (Zpos m1 * 2 ^ (e1 + 1074) < 2 * 2 ^ 52 * 2 ^ (e1 + 1074)) by nia.
  assert (2 * 2 ^ 52 * 2 ^ (e1 + 1074) <= Zpos m2 * 2 ^ (e2 - e1) * 2 ^ (e1 + 1074)).
  { apply Z.mul_le_mono_nonneg_r; [lia|]. nia. }
  lia.
Qed.

Lemma compare_scaled_pos (m1 m2 : positive) (e1 e2 : Z) (s1 s2 : bool) :
  ordinary (S754_finite s1 m1 e1) = true ->
  ordinary (S754_finite s2 m2 e2) = true ->
  match Z.compare e1 e2 with
  | Lt => Lt
  | Gt => Gt
  | Eq => Pos.compare_cont Eq m1 m2
  end
  = (Zpos m1 * 2 ^ (e1 + 1074) ?= Zpos m2 * 2 ^ (e2 + 1074)).
Proof.
  intros H1 H2. symmetry. destruct (Z.compare_spec e1 e2) as [E|E|E].
  - subst e2. rewrite Pos.compare_cont_spec. simpl Pos.switch_Eq.
    assert (HP : 0 < 2 ^ (e1 + 1074)).
    { apply ordinary_finite in H1. apply Z.pow_pos_nonneg; lia. }
    change (m1 ?= m2)%positive with (Zpos m1 ?= Zpos m2).
    destruct (Z.compare_spec (Zpos m1) (Zpos m2)) as [E|E|E].
    + rewrite E. apply Z.compare_refl.
    + apply Z.compare_lt_iff. nia.
    + apply Z.compare_gt_iff. nia.
  - apply Z.compare_lt_iff. now apply (scaled_exponent_lt m1 m2 e1 e2 s1 s2).
  - apply Z.compare_gt_iff. now apply (scaled_exponent_lt m2 m1 e2 e1 s2 s1).
Qed.

Lemma scaled_sign (s : bool) (m : positive) (e : Z) :
  ordinary (S754_finite s m e) = true ->
  if s then scaled (S754_finite s m e) < 0 else 0 < scaled (S754_finite s m e).
Proof.
  intros H. apply ordinary_finite in H as (He & _).
  assert (HP : 0 < 2 ^ (e + 1074)) by (apply Z.pow_pos_nonneg; lia).
  assert (Hm : 0 < Zpos m * 2 ^ (e + 1074)) by (apply Z.mul_pos_pos; lia).
  unfold scaled, cond_Zopp. destruct s; lia.
Qed.

(** The order of JavaScript on ordinary numbers is the order of their scaled integers. *)
Lemma ltb_scaled (x y : number) :
  ordinary x = true -> ordinary y = true ->
  JSNumber.ltb x y = (scaled x <? scaled y).
Proof.
  intros Hx Hy. unfold JSNumber.ltb, SFltb, Z.ltb.
  destruct x as [sx|sx| |sx mx ex], y as [sy|sy| |sy my ey]; try discriminate.
  - reflexivity.
  - pose proof (scaled_sign _ _ _ Hy) as H. simpl SFcompare.
    destruct sy; [destruct (Z.compare_spec (scaled (S754_zero sx)) (scaled (S754_finite true my ey))); simpl in *; try reflexivity; lia|].
    destruct (Z.compare_spec (scaled (S754_zero sx)) (scaled (S754_finite false my ey))); simpl in *; try reflexivity; lia.
  - pose proof (scaled_sign _ _ _ Hx) as H. simpl SFcompare.
    destruct sx; [destruct (Z.compare_spec (scaled (S754_finite true mx ex)) (scaled (S754_zero sy))); simpl in *; try reflexivity; lia|].
    destruct (Z.compare_spec (scaled (S754_finite false mx ex)) (scaled (S754_zero sy))); simpl in *; try reflexivity; lia.
  - pose proof (scaled_sign _ _ _ Hx) as Hsx.
    pose proof (scaled_sign _ _ _ Hy) as Hsy.
    pose proof (compare_scaled_pos mx my ex ey sx sy Hx Hy) as Hc.
    unfold scaled, cond_Zopp in *. simpl SFcompare.
    set (A := Zpos mx * 2 ^ (ex + 1074)) in *.
    set (B := Zpos my * 2 ^ (ey + 1074)) in *.
    destruct sx, sy.
    + destruct (ex ?= ey); try rewrite Hc;
        destruct (Z.compare_spec A B) as [E|E|E];
        destruct (Z.compare_spec (- A) (- B)); simpl;
        try reflexivity; try discriminate Hc; lia.
    + destruct (Z.compare_spec (- A) B); try reflexivity; lia.
    + destruct (Z.compare_spec A (- B)); try reflexivity; lia.
    + rewrite Hc. reflexivity.
Qed.

Lemma gtb_zero_positive (x : number) :
  match x with
  | S754_finite false _ _ | S754_infinity false => True
  | _ => False
  end ->
  gtb x zero = true.
Proof. destruct x as [s|[]| |[] m e]; simpl; intros H; try destruct H; reflexivity. Qed.

(** The sign of a difference of ordinary numbers is the sign of the difference of their scaled integers. *)
Lemma gtb_sub_scaled (y x : number) :
  ordinary x = true -> ordinary y = true ->
  gtb (sub y x) zero = (scaled x <? scaled y).
Proof.
  intros Hx Hy.
  destruct y as [sy|sy| |sy my ey], x as [sx|sx| |sx mx ex]; try discriminate.
  - destruct sy, sx; reflexivity.
  - pose proof (scaled_sign _ _ _ Hx) as H.
    change (scaled (S754_zero sy)) with 0.
    destruct sx.
    + transitivity true; [reflexivity | symmetry; apply Z.ltb_lt; exact H].
    + transitivity false; [reflexivity | symmetry; apply Z.ltb_ge; lia].
  - pose proof (scaled_sign _ _ _ Hy) as H.
    change (scaled (S754_zero sx)) with 0.
    destruct sy.
    + transitivity false; [reflexivity | symmetry; apply Z.ltb_ge; lia].
    + transitivity true; [reflexivity | symmetry; apply Z.ltb_lt; exact H].
  - pose proof (ordinary_finite _ _ _ Hx) as (Hex & _).
    pose proof (ordinary_finite _ _ _ Hy) as (Hey & _).
    unfold sub, SFsub. set (ez := Z.min ey ex).
    pose proof (shl_align_spec my ey ez ltac:(unfold ez; lia)) as Hsy.
    pose proof (shl_align_spec mx ex ez ltac:(unfold ez; lia)) as Hsx.
    destruct (shl_align my ey ez) as [my' ey']. destruct Hsy as [_ Hmy].
    destruct (shl_align mx ex ez) as [mx' ex']. destruct Hsx as [_ Hmx].
    simpl fst.
    assert (Hez : -1074 <= ez) by (unfold ez; lia).
    assert (HP : 0 < 2 ^ (ez + 1074)) by (apply Z.pow_pos_nonneg; lia).
    assert (Hy' : scaled (S754_finite sy my ey)
                  = cond_Zopp sy (Zpos my') * 2 ^ (ez + 1074)).
    { unfold scaled. rewrite Hmy, (pow2_split ey ez) by (unfold ez; lia).
      unfold cond_Zopp. destruct sy; ring. }
    assert (Hx' : scaled (S754_finite sx mx ex)
                  = cond_Zopp sx (Zpos mx') * 2 ^ (ez + 1074)).
    { unfold scaled. rewrite Hmx, (pow2_split ex ez) by (unfold ez; lia).
      unfold cond_Zopp. destruct sx; ring. }
    rewrite Hy', Hx'.
    set (D := cond_Zopp sy (Zpos my') - cond_Zopp sx (Zpos mx')).
    assert (HD : (cond_Zopp sx (Zpos mx') * 2 ^ (ez + 1074)
                  <? cond_Zopp sy (Zpos my') * 2 ^ (ez + 1074))
                 = (0 <? D)).
    { unfold D. destruct (Z.ltb_spec 0 (cond_Zopp sy (Zpos my') - cond_Zopp sx (Zpos mx')));
        destruct (Z.ltb_spec (cond_Zopp sx (Zpos mx') * 2 ^ (ez + 1074))
                    (cond_Zopp sy (Zpos my') * 2 ^ (ez + 1074)));
        try reflexivity; nia. }
    rewrite HD. unfold binary_normalize. destruct D as [|d|d].
    + reflexivity.
    + apply gtb_zero_positive. now apply binary_round_positive.
    + apply binary_round_negative.
Qed.

End DifferenceSign.

Section SortedValues.

Lemma sorts_after_scaled (y x : value) :
  ordinary_number x = true -> ordinary_number y = true ->
  sorts_after y x
  = (scaled (JSValue.to_number x) <? scaled (JSValue.to_number y))%Z.
Proof.
  destruct x as [x| | | |k0], y as [y| | | |k1]; try discriminate. simpl.
  intros Hx Hy. unfold sorts_after, js_sub. simpl. now apply gtb_sub_scaled.
Qed.

Lemma scaled_le_value_le (a b : value) :
  ordinary_number a = true -> ordinary_number b = true ->
  scaled_le a b -> value_le a b.
Proof.
  destruct a as [x| | | |k0], b as [y| | | |k1]; try discriminate. simpl.
  intros Hx Hy H. unfold value_le, scaled_le in *. simpl in *.
  rewrite ltb_scaled by assumption. apply Z.ltb_ge. exact H.
Qed.

Lemma insert_sorted_sorted (x : value) (l : list value) :
  ordinary_number x = true ->
  forallb ordinary_number l = true ->
  StronglySorted scaled_le l ->
  StronglySorted scaled_le (insert_sorted x l).
Proof.
  intros Hx. induction l as [|y l IH]; intros Hl Hs; simpl.
  - constructor; constructor.
  - simpl in Hl. apply andb_prop in Hl as [Hy Hl].
    apply StronglySorted_inv in Hs as [Hs Hall].
    rewrite (sorts_after_scaled y x Hx Hy).
    destruct (Z.ltb_spec (scaled (JSValue.to_number x)) (scaled (JSValue.to_number y))).
    + constructor; [constructor; assumption|].
      constructor; [unfold scaled_le; lia|].
      rewrite Forall_forall in *. intros z Hz. specialize (Hall z Hz).
      unfold scaled_le in *. lia.
    + constructor; [now apply IH|].
      rewrite Forall_forall in *. intros z Hz.
      apply (Permutation_in _ (insert_sorted_perm x l)) in Hz.
      destruct Hz as [<-|Hz]; [unfold scaled_le; lia | now apply Hall].
Qed.

Lemma forallb_perm {A} (f : A -> bool) (l l' : list A) :
  Permutation l l' -> forallb f l = true -> forallb f l' = true.
Proof.
  intros Hp. rewrite !forallb_forall. intros H x Hx.
  apply H. apply (Permutation_in _ (Permutation_sym Hp) Hx).
Qed.

Lemma fold_insert_sorted_sorted (l : list value) :
  forall acc,
    forallb ordinary_number l = true ->
    forallb ordinary_number acc = true ->
    StronglySorted scaled_le acc ->
    StronglySorted scaled_le (fold_left (fun acc x => insert_sorted x acc) l acc).
Proof.
  induction l as [|x l IH]; intros acc Hl Hacc Hs; simpl; [exact Hs|].
  simpl in Hl. apply andb_prop in Hl as [Hx Hl].
  apply IH; [exact Hl| |now apply insert_sorted_sorted].
  apply (forallb_perm _ (x :: acc)); [symmetry; apply insert_sorted_perm|].
  simpl. now rewrite Hx, Hacc.
Qed.

Lemma filter_defined_numbers (vs : list value) :
  forallb ordinary_number vs = true ->
  filter (fun v => negb (is_undefined v)) vs = vs
  /\ filter is_undefined vs = [].
Proof.
  induction vs as [|v vs IH]; simpl; [auto|].
  intros H. apply andb_prop in H as [Hv Hvs]. destruct (IH Hvs) as [H1 H2].
  destruct v; try discriminate. simpl. now rewrite H1, H2.
Qed.

Lemma sort_values_sorted (vs : list value) :
  forallb ordinary_number vs = true ->
  StronglySorted scaled_le (sort_values vs).
Proof.
  intros H. unfold sort_values.
  destruct (filter_defined_numbers vs H) as [-> ->]. rewrite app_nil_r.
  apply fold_insert_sorted_sorted; [exact H | reflexivity | constructor].
Qed.

Lemma sorted_app_le (l1 l2 : list value) :
  StronglySorted scaled_le (l1 ++ l2) ->
  forall a b, In a l1 -> In b l2 -> scaled_le a b.
Proof.
  induction l1 as [|x l1 IH]; simpl; intros Hs a b Ha Hb; [destruct Ha|].
  apply StronglySorted_inv in Hs as [Hs Hall].
  destruct Ha as [<-|Ha].
  - rewrite Forall_forall in Hall. apply Hall. apply in_or_app. now right.
  - now apply IH.
Qed.

Lemma split_at_nth {A} (d : A) (l : list A) :
  forall i, i < List.length l ->
    l = firstn i l ++ nth i l d :: skipn (S i) l.
Proof.
  induction l as [|x l IH]; intros i Hi; simpl in Hi; [lia|].
  destruct i as [|i]; simpl; [reflexivity|].
  f_equal. apply IH. lia.
Qed.

Lemma sorted_parts (s lo hi : list value) (x : value) :
  forallb ordinary_number s = true ->
  StronglySorted scaled_le s ->
  s = lo ++ x :: hi ->
  (forall a, In a lo -> value_le a x) /\ (forall b, In b hi -> value_le x b).
Proof.
  intros Hall Hs E. rewrite forallb_forall in Hall.
  assert (Hx : ordinary_number x = true).
  { apply Hall. rewrite E. apply in_or_app. right. now left. }
  split.
  - intros a Ha. apply scaled_le_value_le; [| exact Hx |].
    + apply Hall. rewrite E. apply in_or_app. now left.
    + rewrite E in Hs. apply (sorted_app_le lo (x :: hi) Hs); [exact Ha | now left].
  - intros b Hb. apply scaled_le_value_le; [exact Hx | |].
    + apply Hall. rewrite E. apply in_or_app. right. now right.
    + rewrite E in Hs.
      replace (lo ++ x :: hi) with ((lo ++ [x]) ++ hi) in Hs
        by (now rewrite <- app_assoc).
      apply (sorted_app_le (lo ++ [x]) hi Hs); [|exact Hb].
      apply in_or_app. right. now left.
Qed.

(** X8.  On a list of ordinary numbers that is not empty, [calculateMedian]
    returns the median for the order of the numbers: with an odd count,
    a value of the list with as many values at most it as values at least
    it; with an even count, the mean of two such middle values. *)
Theorem calculateMedian_numbers :
  forall vs : list value,
    vs <> [] ->
    forallb ordinary_number vs = true ->
    (exists lo x hi,
        Permutation vs (lo ++ x :: hi)
        /\ List.length lo = List.length hi
        /\ (forall a, In a lo -> value_le a x)
        /\ (forall b, In b hi -> value_le x b)
        /\ calculateMedian vs = x)
    \/ (exists lo x y hi,
           Permutation vs (lo ++ x :: y :: hi)
           /\ List.length lo = List.length hi
           /\ (forall a, In a lo -> value_le a x)
           /\ value_le x y
           /\ (forall b, In b hi -> value_le y b)
           /\ calculateMedian vs
              = VNum (div (add (JSValue.to_number x) (JSValue.to_number y))
                          two)).
Proof.
  intros vs Hne Hvs.
  pose proof (sort_values_perm vs) as Hp.
  pose proof (sort_values_sorted vs Hvs) as Hs.
  pose proof (forallb_perm _ _ _ (Permutation_sym Hp) Hvs) as Hall.
  assert (Hmed : calculateMedian vs
                 = let sorted := sort_values vs in
                   let mid := Nat.div (List.length sorted) 2 in
                   if Nat.eqb (Nat.modulo (List.length sorted) 2) 0
                   then VNum (js_div (js_add (nth (mid - 1) sorted VUndef)
                                             (nth mid sorted VUndef))
                                     (VNum (of_Z 2)))
                   else nth mid sorted VUndef).
  { unfold calculateMedian. destruct vs; [now contradiction Hne | reflexivity]. }
  rewrite Hmed. clear Hmed. cbv zeta.
  set (s := sort_values vs) in *.
  set (n := List.length s).
  assert (Hn : 0 < n).
  { unfold n. rewrite (Permutation_length Hp). destruct vs; [now contradiction Hne | simpl; lia]. }
  pose proof (Nat.div_mod_eq n 2) as Hdm.
  pose proof (Nat.mod_upper_bound n 2 ltac:(lia)) as Hmod.
  set (k := Nat.div n 2) in *.
  destruct (Nat.eqb_spec (Nat.modulo n 2) 0) as [He|Ho].
  - (* an even count: the mean of the two middle values *)
    right.
    assert (Hk : 1 <= k) by lia.
    pose proof (split_at_nth VUndef s (k - 1) ltac:(fold n; lia)) as E1.
    pose proof (split_at_nth VUndef s k ltac:(fold n; lia)) as E2.
    replace (S (k - 1)) with k in E1 by lia.
    assert (E3 : skipn k s = nth k s VUndef :: skipn (S k) s).
    { rewrite E2 at 1. rewrite skipn_app, length_firstn.
      fold n. replace (k - Nat.min k n) with 0 by lia.
      rewrite skipn_all2 by (rewrite length_firstn; fold n; lia). reflexivity. }
    rewrite E3 in E1.
    set (lo := firstn (k - 1) s) in *. set (x := nth (k - 1) s VUndef) in *.
    set (y := nth k s VUndef) in *. set (hi := skipn (S k) s) in *.
    exists lo, x, y, hi.
    destruct (sorted_parts s lo (y :: hi) x Hall Hs E1) as [H1 H2].
    assert (E1' : s = (lo ++ [x]) ++ y :: hi) by (rewrite <- app_assoc; exact E1).
    destruct (sorted_parts s (lo ++ [x]) hi y Hall Hs E1') as [_ H3].
    split; [rewrite <- E1; now symmetry|].
    split; [unfold lo, hi; rewrite length_firstn, length_skipn; fold n; lia|].
    split; [exact H1|]. split; [apply H2; now left|]. split; [exact H3|].
    rewrite forallb_forall in Hall.
    assert (Hx : ordinary_number x = true).
    { apply Hall. rewrite E1. apply in_or_app. right. now left. }
    assert (Hy : ordinary_number y = true).
    { apply Hall. rewrite E1. apply in_or_app. right. right. now left. }
    destruct x as [x'| | | |k0], y as [y'| | | |k1]; try discriminate. reflexivity.
  - (* an odd count: the middle value *)
    left.
    pose proof (split_at_nth VUndef s k ltac:(fold n; lia)) as E.
    set (lo := firstn k s) in *. set (x := nth k s VUndef) in *.
    set (hi := skipn (S k) s) in *.
    exists lo, x, hi.
    destruct (sorted_parts s lo hi x Hall Hs E) as [H1 H2].
    split; [rewrite <- E; now symmetry|].
    split; [unfold lo, hi; rewrite length_firstn, length_skipn; fold n; lia|].
    auto.
Qed.

End SortedValues.

Lemma calculateMedian_numbers_witness :
  let vs := [VNum (of_Z 3); VNum (of_Z 1); VNum (of_Z 2)] in
  (exists lo x hi,
      Permutation vs (lo ++ x :: hi)
      /\ List.length lo = List.length hi
      /\ (forall a, In a lo -> value_le a x)
      /\ (forall b, In b hi -> value_le x b)
      /\ calculateMedian vs = x)
  \/ (exists lo x y hi,
         Permutation vs (lo ++ x :: y :: hi)
         /\ List.length lo = List.length hi
         /\ (forall a, In a lo -> value_le a x)
         /\ value_le x y
         /\ (forall b, In b hi -> value_le y b)
         /\ calculateMedian vs
            = VNum (div (add (JSValue.to_number x) (JSValue.to_number y))
                        two)).
Proof.
  apply (calculateMedian_numbers
           [VNum (of_Z 3); VNum (of_Z 1); VNum (of_Z 2)]).
  - discriminate.
  - vm_compute. reflexivity.
Defined.

(* ================================================================== *)
(** * How the stages compose *)

Section Composition.

Lemma fill_row_not_blank (col : string) (fv : value) (row : DataRow) :
  is_blank (cell row col) = false -> fill_row col fv row = row.
Proof. intros H. unfold fill_row. now rewrite H. Qed.

Lemma map_fill_row_not_blank (col : string) (fv : value)
  (rows : list DataRow) :
  (forall row, In row rows -> is_blank (cell row col) = false) ->
  map (fill_row col fv) rows = rows.
Proof.
  induction rows as [|row rows IH]; intros H; simpl; [reflexivity|].
  rewrite fill_row_not_blank by (apply H; now left).
  rewrite IH; [reflexivity|]. intros r Hr. apply H. now right.
Qed.

(** A fill pass over rows that have no blank cell in the targeted columns
    known to the statistics returns the rows. *)
Lemma fold_fill_column_fixed (stats : list ColumnStat) (m : CleaningMethod)
  (cols : list string) (rows : list DataRow) :
  (forall col, In col cols ->
               find (fun s => String.eqb (name s) col) stats <> None ->
               forall row, In row rows -> is_blank (cell row col) = false) ->
  fold_left (fill_column stats m) cols rows = rows.
Proof.
  induction cols as [|col cols IH]; intros H; simpl; [reflexivity|].
  assert (Hcol : fill_column stats m rows col = rows).
  { unfold fill_column.
    destruct (find (fun s => String.eqb (name s) col) stats) eqn:E;
      [|reflexivity].
    apply map_fill_row_not_blank. apply H; [now left|].
    rewrite E. discriminate. }
  rewrite Hcol. apply IH. intros c Hc. apply H. now right.
Qed.

Lemma filter_all {A} (f : A -> bool) (l : list A) :
  (forall x, In x l -> f x = true) -> filter f l = l.
Proof.
  induction l as [|x l IH]; intros H; simpl; [reflexivity|].
  rewrite (H x) by now left. f_equal. apply IH. intros y Hy. apply H. now right.
Qed.

Lemma in_column (rows : list DataRow) (row : DataRow) (c : string) :
  In row rows -> In (cell row c) (column rows c).
Proof. intros H. unfold column. apply in_map_iff. exists row. auto. Qed.

End Composition.

(** X15.  Cleaning is idempotent: cleaning the cleaned rows again, with the same
    statistics and the same options, returns them unchanged.  This holds
    for every method and every list of target columns. *)
Theorem cleanData_idempotent :
  forall (data : list DataRow) (stats : list ColumnStat)
         (options : CleaningOptions),
    cleanData (cleanData data stats options) stats options
    = cleanData data stats options.
Proof.
  intros data stats [m targets].
  set (cleaned := cleanData data stats (mkCleaningOptions m targets)).
  assert (Hpass : clean_pass cleaned stats (mkCleaningOptions m targets)
                  = cleaned).
  { destruct (CleaningMethod_eq_dec m drop_rows) as [->|Hm].
    - unfold clean_pass. simpl. apply filter_all. intros row Hrow.
      unfold cleaned in Hrow. apply dedup_In in Hrow.
      unfold clean_pass in Hrow. simpl in Hrow.
      now apply filter_In in Hrow.
    - assert (H : fold_left (fill_column stats m) targets cleaned = cleaned).
      { apply fold_fill_column_fixed. intros col Hcol Hstat row Hrow.
        unfold cleaned in Hrow. apply dedup_In in Hrow.
        assert (Hp : clean_pass data stats (mkCleaningOptions m targets)
                     = fold_left (fill_column stats m) targets data).
        { unfold clean_pass. simpl. destruct m; try reflexivity.
          now contradiction Hm. }
        rewrite Hp in Hrow.
        pose proof (fold_fill_column_no_blank stats m col Hstat targets data
                      (or_introl Hcol)) as Hall.
        rewrite forallb_forall in Hall.
        apply negb_true_iff, Hall. now apply in_column. }
      unfold clean_pass. simpl. destruct m; try exact H.
      now contradiction Hm. }
  unfold cleanData at 1. fold cleaned. rewrite Hpass.
  unfold cleaned, cleanData. apply dedup_idempotent.
Qed.

(** X17.  After [drop_rows], a targeted column that every row owns shows no
    missing value when the cleaned rows are profiled again. *)
Theorem redrop_shows_no_missing :
  forall (data : list DataRow) (stats : list ColumnStat)
         (targets : list string) (c : string) (stat' : ColumnStat),
    In c targets ->
    (forall row, In row data -> cell row c <> VUndef) ->
    In stat' (analyzeColumns
                (cleanData data stats (mkCleaningOptions drop_rows targets))) ->
    name stat' = c ->
    missingCount stat' = 0.
Proof.
  intros data stats targets c stat' Hc Hown Hin Hname.
  set (cleaned := cleanData data stats (mkCleaningOptions drop_rows targets))
    in *.
  assert (Hcells : forall row, In row cleaned -> is_missing (cell row c) = false).
  { intros row Hrow. unfold cleaned in Hrow. apply dedup_In in Hrow.
    unfold clean_pass in Hrow. simpl in Hrow.
    apply filter_In in Hrow as [Hrow Hkeep].
    unfold keep_row in Hkeep. apply negb_true_iff in Hkeep.
    assert (Hb : is_blank (cell row c) = false).
    { destruct (is_blank (cell row c)) eqn:E; [|reflexivity].
      rewrite <- Hkeep. symmetry. apply existsb_exists. exists c. auto. }
    specialize (Hown row Hrow).
    rewrite is_missing_blank, Hb.
    destruct (cell row c); try reflexivity. now contradiction Hown. }
  assert (Hstat' : exists key, stat' = analyzeColumn cleaned key).
  { unfold analyzeColumns in Hin.
    destruct cleaned as [|first rest]; [destruct Hin|].
    apply in_map_iff in Hin as (key & <- & _). now exists key. }
  destruct Hstat' as (key & ->). simpl in Hname. subst key. simpl.
  destruct (scan_column_fold_cells c cleaned (mkColumnScan 0 [] 0)) as [_ Hmiss].
  simpl in Hmiss. fold (scan_column cleaned c) in Hmiss. rewrite Hmiss.
  assert (Hnone : filter is_missing (column cleaned c) = []).
  { destruct (filter is_missing (column cleaned c)) as [|v vs] eqn:E;
      [reflexivity|].
    assert (Hv : In v (filter is_missing (column cleaned c)))
      by (rewrite E; now left).
    apply filter_In in Hv as [Hv Hvm].
    apply in_map_iff in Hv as (row & <- & Hrow).
    rewrite (Hcells row Hrow) in Hvm. discriminate Hvm. }
  now rewrite Hnone.
Qed.

Lemma redrop_shows_no_missing_witness :
  let data := parseCSV csv_gaps in
  let cleaned :=
    cleanData data (analyzeColumns data)
      (mkCleaningOptions drop_rows ["c"%string]) in
  missingCount (analyzeColumn cleaned "c") = 0.
Proof.
  apply (redrop_shows_no_missing (parseCSV csv_gaps)
           (analyzeColumns (parseCSV csv_gaps)) ["c"%string] "c").
  - left. reflexivity.
  - vm_compute. intros row [<-|[<-|[<-|[<-|[]]]]]; discriminate.
  - vm_compute. left. reflexivity.
  - reflexivity.
Defined.

(** X5.  The upload is accepted, that is the parse yields a row, exactly when
    some data line is not empty once trimmed and has as many fields as the
    header. *)
Theorem parseCSV_accepts :
  forall csvText : string,
    (parseCSV csvText <> []
     <-> exists line,
         In line (data_lines csvText)
         /\ good_line (headers_of csvText) line = true)
    /\ (Nat.ltb 0 (List.length (parseCSV csvText))
        = existsb (good_line (headers_of csvText)) (data_lines csvText)).
Proof.
  intros csvText.
  assert (H : parseCSV csvText <> []
              <-> exists line,
                  In line (data_lines csvText)
                  /\ good_line (headers_of csvText) line = true).
  { rewrite parseCSV_flat_map. split.
    - intros Hne.
      destruct (flat_map _ _) as [|row rest] eqn:E; [now contradiction Hne|].
      assert (Hin : In row (flat_map (emitted_rows (headers_of csvText))
                              (data_lines csvText)))
        by (rewrite E; now left).
      apply in_flat_map in Hin as (line & Hline & Hrow).
      exists line. split; [exact Hline|]. unfold emitted_rows in Hrow.
      destruct (good_line (headers_of csvText) line); [reflexivity|destruct Hrow].
    - intros (line & Hline & Hgood) Hnil.
      assert (Hin : In (make_row (headers_of csvText)
                          (fields (JSString.trim line)))
                       (flat_map (emitted_rows (headers_of csvText))
                          (data_lines csvText))).
      { apply in_flat_map. exists line. split; [exact Hline|].
        unfold emitted_rows. rewrite Hgood. now left. }
      rewrite Hnil in Hin. destruct Hin. }
  split; [exact H|].
  destruct (existsb (good_line (headers_of csvText)) (data_lines csvText))
    eqn:E.
  - apply existsb_exists in E. apply H in E.
    destruct (parseCSV csvText); [now contradiction E | reflexivity].
  - destruct (parseCSV csvText) as [|row rest] eqn:E'; [reflexivity|].
    assert (Hne : row :: rest <> []) by discriminate.
    apply H in Hne. apply existsb_exists in Hne.
    rewrite Hne in E. discriminate E.
Qed.
